(** * azonk: device-code authentication and paginated Graph client

    A shallow embedding of the parts of [internal/auth], [internal/graph]
    and [internal/types] that own the token lifecycle and the pagination
    walk, followed by the properties of the design document that speak
    about them.

    Conventions of the embedding.
    - A Go [string] is a Rocq [string] (a sequence of bytes).
    - A Go [error] is its message, the string [err.Error()] returns.
    - A [time.Time] is the instant it denotes on an unbounded time line, in
      nanoseconds since the Unix epoch; a [time.Duration] is an [int64]
      count of nanoseconds, and the arithmetic the program does on
      durations wraps as [int64] does, as do the seconds [time.Unix]
      stores.
    - [json.Unmarshal] is not re-implemented: a body comes with what the
      decoder makes of it, so that every statement holds for whatever the
      decoder does.
    - Loops that the source leaves to the clock or to the server to end
      take a fuel argument; [None] is a run that needs more fuel.
    - Everything outside the process (the identity provider, the Graph
      service, the token file, the clock) is an explicit world that the
      functions read and extend. *)

From Stdlib Require Import ZArith String Ascii List Bool Lia DecimalString DecimalPos.
Import ListNotations.
Local Open Scope string_scope.
Local Open Scope Z_scope.

(** A Go error value, identified with its message. *)
Definition error := string.

(* ------------------------------------------------------------------------- *)
(** ** Go's [time] package *)

Module time.

Definition Time := Z.
Definition Duration := Z.

Definition Nanosecond : Duration := 1.
Definition Millisecond : Duration := 1000000.
Definition Second : Duration := 1000000000.
Definition Minute : Duration := 60 * Second.
Definition Hour : Duration := 60 * Minute.

(** Two's-complement reduction to the [int64] range. *)
Definition int64 (z : Z) : Z := (z + 2 ^ 63) mod 2 ^ 64 - 2 ^ 63.

(** [time.Duration(n) * d], an [int64] multiplication. *)
Definition mul (n : Z) (d : Duration) : Duration := int64 (n * d).

(** [t.Add(d)], on the time line. Go pins the seconds of the sum at the
    ends of the [int64] range; the sums of the program stay within it,
    but for the one [isTokenValid] makes of an expiry that [time.Unix]
    has wrapped, which is only compared with the clock and lies before
    it either way. *)
Definition Add (t : Time) (d : Duration) : Time := t + d.
Definition Before (t u : Time) : bool := t <? u.

(** The seconds from January 1 of year 1, where a [Time] counts from, to
    the Unix epoch. *)
Definition unixToInternal : Z := 62135596800.

(** [time.Unix(sec, 0)]. The [Time] keeps [sec + unixToInternal] in an
    [int64], and the sum wraps. *)
Definition Unix (sec : Z) : Time :=
  (int64 (sec + unixToInternal) - unixToInternal) * Second.

(** The zero [Time], January 1 of year 1, which a struct field holds
    until it is assigned. *)
Definition zero : Time := Unix (- unixToInternal).

(** What [time.Sleep(d)] adds to the clock: nothing when [d <= 0]. *)
Definition slept (d : Duration) : Duration := Z.max 0 d.

End time.

(* ------------------------------------------------------------------------- *)
(** ** Go's [strings] and [fmt] packages, as far as the program uses them *)

Module strings.

(** [strings.Contains(s, substr)]. *)
Fixpoint Contains (s substr : string) : bool :=
  if String.prefix substr s then true
  else match s with
       | EmptyString => false
       | String _ s' => Contains s' substr
       end.

(** What is left of [s] after [prefix], if [s] begins with it. *)
Fixpoint cutPrefix (s prefix : string) {struct prefix} : option string :=
  match prefix with
  | EmptyString => Some s
  | String p prefix' =>
      match s with
      | EmptyString => None
      | String x s' => if Ascii.eqb x p then cutPrefix s' prefix' else None
      end
  end.

(** [strings.TrimPrefix(s, prefix)]. *)
Definition TrimPrefix (s prefix : string) : string :=
  match cutPrefix s prefix with
  | Some rest => rest
  | None => s
  end.

End strings.

Module fmt.

(** [%d] of an integer. *)
Definition itoa (z : Z) : string :=
  DecimalString.NilZero.string_of_int (Z.to_int z).

Definition is_digit (c : ascii) : bool :=
  let n := nat_of_ascii c in (48 <=? n)%nat && (n <=? 57)%nat.

Definition is_underscore (c : ascii) : bool := (nat_of_ascii c =? 95)%nat.

(** Blanks of one byte that [SkipSpace] steps over: tab, vertical tab,
    form feed, carriage return and space. A newline is not among them:
    [Sscanf] stops on it with an error. *)
Definition is_blank (c : ascii) : bool :=
  let n := nat_of_ascii c in
  (n =? 9)%nat || (n =? 11)%nat || (n =? 12)%nat || (n =? 13)%nat || (n =? 32)%nat.

(** The blanks above U+007F of [fmt]'s table, by their UTF-8 encodings:
    U+0085, U+00A0 (two bytes) and U+1680, U+2000..U+200A, U+2028, U+2029,
    U+202F, U+205F, U+3000 (three bytes). *)
Definition blank2 (a b : ascii) : bool :=
  (nat_of_ascii a =? 194)%nat
  && ((nat_of_ascii b =? 133)%nat || (nat_of_ascii b =? 160)%nat).

Definition blank3 (a b c : ascii) : bool :=
  let x := nat_of_ascii a in
  let y := nat_of_ascii b in
  let z := nat_of_ascii c in
  ((x =? 225) && (y =? 154) && (z =? 128))%nat
  || ((x =? 226) && (y =? 128)
      && (((128 <=? z) && (z <=? 138)) || (z =? 168) || (z =? 169) || (z =? 175)))%nat
  || ((x =? 226) && (y =? 129) && (z =? 159))%nat
  || ((x =? 227) && (y =? 128) && (z =? 128))%nat.

(** The scanner's [SkipSpace] with [nlIsSpace = false]: [None] is the
    "unexpected newline" error. *)
Fixpoint SkipSpace (s : string) : option string :=
  match s with
  | EmptyString => Some s
  | String a r1 =>
      if (nat_of_ascii a =? 10)%nat then None
      else if is_blank a then SkipSpace r1
      else match r1 with
           | EmptyString => Some s
           | String b r2 =>
               if blank2 a b then SkipSpace r2
               else match r2 with
                    | EmptyString => Some s
                    | String c r3 =>
                        if blank3 a b c then SkipSpace r3 else Some s
                    end
           end
  end.

(** The run of digits and underscores [scanNumber] accepts for [%d]. *)
Fixpoint scanNumber (s : string) : string :=
  match s with
  | EmptyString => EmptyString
  | String c r =>
      if is_digit c || is_underscore c then String c (scanNumber r)
      else EmptyString
  end.

(** [strconv.ParseUint(tok, 10, 64)] without its range check: [None] on a
    byte that is no decimal digit (an underscore among them). *)
Fixpoint digits (acc : Z) (tok : string) : option Z :=
  match tok with
  | EmptyString => Some acc
  | String c r =>
      if is_digit c
      then digits (10 * acc + (Z.of_nat (nat_of_ascii c) - 48)) r
      else None
  end.

(** [fmt.Sscanf(s, "%d", &v)] for a 64-bit integer [v]: the value stored,
    or [None] when the call returns an error and leaves [v] as it was. *)
Definition Sscanf_d (s : string) : option Z :=
  match SkipSpace s with
  | None => None
  | Some EmptyString => None
  | Some (String c r as s1) =>
      let neg := (nat_of_ascii c =? 45)%nat in
      let signed := neg || (nat_of_ascii c =? 43)%nat in
      let tok := scanNumber (if signed then r else s1) in
      match tok with
      | EmptyString => None
      | _ =>
          match digits 0 tok with
          | None => None
          | Some n =>
              let v := if neg then - n else n in
              if (- 2 ^ 63 <=? v) && (v <=? 2 ^ 63 - 1) then Some v else None
          end
      end
  end.

(** The number a decimal numeral continues [acc] to. *)
Fixpoint continued (acc : Z) (u : Decimal.uint) : Z :=
  match u with
  | Decimal.Nil => acc
  | Decimal.D0 l => continued (10 * acc) l
  | Decimal.D1 l => continued (10 * acc + 1) l
  | Decimal.D2 l => continued (10 * acc + 2) l
  | Decimal.D3 l => continued (10 * acc + 3) l
  | Decimal.D4 l => continued (10 * acc + 4) l
  | Decimal.D5 l => continued (10 * acc + 5) l
  | Decimal.D6 l => continued (10 * acc + 6) l
  | Decimal.D7 l => continued (10 * acc + 7) l
  | Decimal.D8 l => continued (10 * acc + 8) l
  | Decimal.D9 l => continued (10 * acc + 9) l
  end.

End fmt.

(* ------------------------------------------------------------------------- *)
(** ** Go's [path/filepath] package, as far as the program uses it *)

Module filepath.

Section Platform.

(** [os.IsPathSeparator]: the slash, and on Windows the backslash too. *)
Variable IsPathSeparator : ascii -> bool.

Fixpoint hasSeparator (s : string) : bool :=
  match s with
  | EmptyString => false
  | String c r => IsPathSeparator c || hasSeparator r
  end.

(** [filepath.Ext(path)]: the suffix beginning at the final dot in the
    final element of [path], empty if there is no dot. The source scans
    from the end; here the answer for [path] comes from the answer for
    its tail. *)
Fixpoint Ext (path : string) : string :=
  match path with
  | EmptyString => EmptyString
  | String c r =>
      match Ext r with
      | String _ _ as e => e
      | EmptyString =>
          if hasSeparator r then EmptyString
          else if IsPathSeparator c then EmptyString
          else if Ascii.eqb c "." then path
          else EmptyString
      end
  end.

End Platform.

End filepath.

(* ------------------------------------------------------------------------- *)
(** ** internal/types *)

Module types.

(** TokenResponse holds OAuth tokens returned from the identity platform. *)
Record TokenResponse := {
  AccessToken : string;
  RefreshToken : string;
  TokenType : string;
  ExpiresIn : string;
  ExpiresOn : string;
  Resource : string;
  Scope : string;
  ExpiresAt : time.Time
}.

(** DeviceCodeResponse contains the device code flow initiation response. *)
Record DeviceCodeResponse := {
  DeviceCode : string;
  UserCode : string;
  VerificationURL : string;
  VerificationURI : string;
  dcExpiresIn : string;
  Interval : string;
  Message : string
}.

Definition nonempty (s : string) : bool :=
  match s with EmptyString => false | _ => true end.

(** GetVerificationURL returns the verification URL from either v1.0 or
    v2.0 response. *)
Definition GetVerificationURL (d : DeviceCodeResponse) : string :=
  if nonempty (VerificationURL d) then VerificationURL d
  else VerificationURI d.

Definition withExpiresAt (t : TokenResponse) (at_ : time.Time) : TokenResponse :=
  {| AccessToken := AccessToken t; RefreshToken := RefreshToken t;
     TokenType := TokenType t; ExpiresIn := ExpiresIn t;
     ExpiresOn := ExpiresOn t; Resource := Resource t; Scope := Scope t;
     ExpiresAt := at_ |}.

(** User represents an Azure AD user account. *)
Record User := {
  userID : string;
  userDisplayName : string;
  userPrincipalName : string;
  Mail : string;
  JobTitle : string;
  Department : string;
  AccountEnabled : bool
}.

(** DirectoryRole represents an Azure AD directory role. *)
Record DirectoryRole := {
  roleID : string;
  roleDisplayName : string;
  roleDescription : string;
  RoleTemplateID : string
}.

(** RoleMember represents a member of a directory role. *)
Record RoleMember := {
  memberID : string;
  memberDisplayName : string;
  memberPrincipalName : string;
  ODataType : string
}.

(** IsServicePrincipal returns true if the member is a service principal
    (not a user). *)
Definition IsServicePrincipal (r : RoleMember) : bool :=
  (memberPrincipalName r =? "")%string
  || (ODataType r =? "#microsoft.graph.servicePrincipal")%string.

(** RoleWithMembers combines a directory role with its members. *)
Record RoleWithMembers := {
  Role : DirectoryRole;
  Members : list RoleMember
}.

(** DriveItem represents a file in SharePoint/OneDrive. *)
Record DriveItem := {
  ID : string;
  DriveID : string;
  Name : string;
  Path : string;
  WebURL : string;
  Size : Z;
  Extension : string;
  Owner : string;
  OwnerMail : string;
  Created : string;
  Modified : string;
  MatchedOn : string
}.

(** SearchResult aggregates results from a single search query. *)
Record SearchResult := {
  Query : string;
  TotalHits : Z;
  Items : list DriveItem
}.

(** SearchOptions configures search behavior. *)
Record SearchOptions := {
  Keywords : list string;
  FileTypes : list string;
  MaxPerQuery : Z;
  IncludeKQL : bool;
  AutoDownload : bool;
  ExtractSecret : bool
}.

End types.

(* ------------------------------------------------------------------------- *)
(** ** internal/config *)

Module config.

Definition MicrosoftOfficeClientID := "d3590ed6-52b3-4102-aeff-aad2292ab01c".
Definition DeviceCodeEndpoint :=
  "https://login.microsoftonline.com/common/oauth2/devicecode?api-version=1.0".
Definition TokenEndpoint :=
  "https://login.microsoftonline.com/Common/oauth2/token?api-version=1.0".
Definition GraphResource := "https://graph.microsoft.com".
Definition GraphBaseURL := "https://graph.microsoft.com/v1.0".
Definition DefaultHTTPTimeout : time.Duration := 30 * time.Second.
Definition RateLimitDelay : time.Duration := 100 * time.Millisecond.

Definition DefaultMaxResultsPerQuery : Z := 25.

End config.

(* ------------------------------------------------------------------------- *)
(** ** internal/auth *)

Module auth.

Import types.

(** *** The world the authenticator talks to *)

(** A form POST: the endpoint and the [url.Values] sent to it. *)
Record Request := {
  endpoint : string;
  form : list (string * string)
}.

(** The anonymous struct [redeemDeviceCode] decodes an error object into. *)
Record errResp := {
  Error : string;
  Description : string
}.

(** The bytes of a response body, together with what [json.Unmarshal]
    leaves in each struct the package decodes them into: [asError] is the
    content of [errResp] after the call (whose error the code drops),
    [asTokens] and [asDeviceCode] are the decoding error or the struct. *)
Record Body := {
  raw : string;
  asError : errResp;
  asTokens : error + TokenResponse;
  asDeviceCode : error + DeviceCodeResponse
}.

(** How one HTTP exchange ends. *)
Inductive Outcome :=
| DoFails (err : error)      (* [a.client.Do] returns an error *)
| ReadFails (err : error)    (* [io.ReadAll(resp.Body)] returns an error *)
| Answers (b : Body).

(** An exchange takes time, at least one tick of the clock. *)
Record Reply := {
  took : positive;
  outcome : Outcome
}.

(** The remote side: the reply to the request number [n] of the run. *)
Definition Server := nat -> Reply.

(** The token file: unreadable (absent, no permission), or holding bytes
    that [json.Unmarshal] decodes as given. A file written by [saveTokens]
    is taken to decode to the struct it was written from. *)
Inductive File :=
| Unreadable (err : error)
| Holds (parsed : error + TokenResponse).

Record World := {
  clock : time.Time;              (* what [time.Now()] reads *)
  sent : list Request;            (* requests issued so far, latest first *)
  tokenFile : File;
  (* the error [saveTokens] meets when it persists a struct, from
     [json.MarshalIndent] or [os.WriteFile], if any *)
  writeError : TokenResponse -> option error
}.

Definition tick (d : time.Duration) (w : World) : World :=
  {| clock := clock w + d; sent := sent w;
     tokenFile := tokenFile w; writeError := writeError w |}.

(** [time.Sleep(d)]. *)
Definition Sleep (d : time.Duration) (w : World) : World :=
  tick (time.slept d) w.

(** *** The authenticator *)

(** Authenticator handles device code authentication and token
    management. [tokens] is [None] for the nil pointer. *)
Record Authenticator := {
  clientID : string;
  resource : string;
  tokenFilePath : string;
  tokens : option TokenResponse
}.

Definition NewAuthenticator (outputDir : string) : Authenticator :=
  {| clientID := config.MicrosoftOfficeClientID;
     resource := config.GraphResource;
     tokenFilePath := outputDir ++ "/tokens.json";
     tokens := None |}.

Definition setTokens (a : Authenticator) (t : option TokenResponse) : Authenticator :=
  {| clientID := clientID a; resource := resource a;
     tokenFilePath := tokenFilePath a; tokens := t |}.

Definition parseIntOrDefault (s : string) (defaultVal : Z) : Z :=
  match fmt.Sscanf_d s with
  | Some val => if val <=? 0 then defaultVal else val
  | None => defaultVal
  end.

(** What the caller of [postForm] holds after an exchange: the error of
    [Do], or the response, whose body [io.ReadAll] then reads or fails to
    read. *)
Definition delivered (o : Outcome) : error + (error + Body) :=
  match o with
  | DoFails err => inl err
  | ReadFails err => inr (inl err)
  | Answers b => inr (inr b)
  end.

(** [postForm] issues the request number [length (sent w)] of the run. *)
Definition postForm (srv : Server) (endpoint : string)
    (data : list (string * string)) (w : World)
  : (error + (error + Body)) * World :=
  let r := srv (length (sent w)) in
  let w' := {| clock := clock w + Z.pos (took r);
               sent := {| endpoint := endpoint; form := data |} :: sent w;
               tokenFile := tokenFile w; writeError := writeError w |} in
  (delivered (outcome r), w').

Definition isTokenValid (a : Authenticator) (now : time.Time) : bool :=
  match tokens a with
  | None => false
  | Some t => time.Before now (time.Add (ExpiresAt t) (-5 * time.Minute))
  end.

(** The body of [parseExpiration], on the struct [a.tokens] points to. *)
Definition parseExpiration (now : time.Time) (t : TokenResponse) : TokenResponse :=
  if nonempty (ExpiresOn t) then
    let expiresOn := match fmt.Sscanf_d (ExpiresOn t) with
                     | Some v => v
                     | None => 0
                     end in
    withExpiresAt t (time.Unix expiresOn)
  else
    withExpiresAt t (time.Add now time.Hour).

Definition loadTokens (a : Authenticator) (w : World) : option error * Authenticator :=
  match tokenFile w with
  | Unreadable err => (Some err, a)
  | Holds (inl err) => (Some err, a)
  | Holds (inr t) => (None, setTokens a (Some t))
  end.

(** [saveTokens], called with [a.tokens] set; [t] is the struct it
    points to. *)
Definition saveTokens (t : TokenResponse) (w : World) : option error * World :=
  match writeError w t with
  | Some err => (Some err, w)
  | None =>
      (None, {| clock := clock w; sent := sent w;
                tokenFile := Holds (inr t);
                writeError := writeError w |})
  end.

(** *** Device code flow *)

Definition requestDeviceCode (srv : Server) (a : Authenticator) (w : World)
  : (error + DeviceCodeResponse) * World :=
  let data := [("client_id", clientID a); ("resource", resource a)] in
  let '(r, w1) := postForm srv config.DeviceCodeEndpoint data w in
  match r with
  | inl err => (inl err, w1)
  | inr (inl err) => (inl ("read response: " ++ err), w1)
  | inr (inr body) =>
      match asDeviceCode body with
      | inl err => (inl ("parse response: " ++ err ++ " (body: " ++ raw body ++ ")"), w1)
      | inr deviceCode => (inr deviceCode, w1)
      end
  end.

Definition redeemForm (a : Authenticator) (deviceCode : string) : list (string * string) :=
  [("client_id", clientID a); ("code", deviceCode);
   ("grant_type", "urn:ietf:params:oauth:grant-type:device_code")].

(** What [redeemDeviceCode] returns for each outcome of its request. *)
Definition redeemResult (r : error + (error + Body)) : error + TokenResponse :=
  match r with
  | inl err => inl err
  | inr (inl err) => inl err
  | inr (inr body) =>
      if nonempty (Error (asError body)) then
        inl (Error (asError body) ++ ": " ++ Description (asError body))
      else
        match asTokens body with
        | inl err => inl ("parse tokens: " ++ err)
        | inr tokens =>
            if nonempty (AccessToken tokens) then inr tokens
            else inl "no access token in response"
        end
  end.

(** redeemDeviceCode exchanges a device code for access and refresh
    tokens. *)
Definition redeemDeviceCode (srv : Server) (a : Authenticator)
    (deviceCode : string) (w : World) : (error + TokenResponse) * World :=
  let '(r, w1) := postForm srv config.TokenEndpoint (redeemForm a deviceCode) w in
  (redeemResult r, w1).

Definition pollInterval (dc : DeviceCodeResponse) : Z :=
  parseIntOrDefault (Interval dc) 5.

Definition pollExpiresIn (dc : DeviceCodeResponse) : Z :=
  parseIntOrDefault (dcExpiresIn dc) 900.

Definition timedOut (expiresIn : Z) : error :=
  "authentication timed out after " ++ fmt.itoa expiresIn ++ " seconds".

(** The [for time.Now().Before(deadline)] loop of [pollForToken]; [fuel]
    bounds the number of times the condition is evaluated, and [None] is
    a run that needs more. *)
Fixpoint pollLoop (srv : Server) (a : Authenticator) (dc : DeviceCodeResponse)
    (interval expiresIn : Z) (deadline : time.Time) (fuel : nat) (w : World)
  : option ((error + TokenResponse) * World) :=
  match fuel with
  | O => None
  | S fuel' =>
      if time.Before (clock w) deadline then
        let w1 := Sleep (time.mul interval time.Second) w in
        let '(r, w2) := redeemDeviceCode srv a (DeviceCode dc) w1 in
        match r with
        | inl err =>
            if strings.Contains err "authorization_pending"
            then pollLoop srv a dc interval expiresIn deadline fuel' w2
            else Some (inl err, w2)
        | inr tokens => Some (inr tokens, w2)
        end
      else Some (inl (timedOut expiresIn), w)
  end.

Definition pollDeadline (dc : DeviceCodeResponse) (now : time.Time) : time.Time :=
  time.Add now (time.mul (pollExpiresIn dc) time.Second).

(** pollForToken polls the token endpoint until authentication completes
    or times out. *)
Definition pollForToken (srv : Server) (fuel : nat) (a : Authenticator)
    (dc : DeviceCodeResponse) (w : World)
  : option ((error + TokenResponse) * World) :=
  let interval := pollInterval dc in
  let expiresIn := pollExpiresIn dc in
  let deadline := pollDeadline dc (clock w) in
  pollLoop srv a dc interval expiresIn deadline fuel w.

(** deviceCodeAuth performs the complete device code authentication flow.
    Console output is not part of the model. *)
Definition deviceCodeAuth (srv : Server) (fuel : nat) (a : Authenticator) (w : World)
  : option ((error + TokenResponse) * Authenticator * World) :=
  let '(r, w1) := requestDeviceCode srv a w in
  match r with
  | inl err => Some (inl ("request device code: " ++ err), a, w1)
  | inr deviceCode =>
      match pollForToken srv fuel a deviceCode w1 with
      | None => None
      | Some (inl err, w2) => Some (inl ("authentication failed: " ++ err), a, w2)
      | Some (inr tokens, w2) =>
          let tokens' := parseExpiration (clock w2) tokens in
          let a' := setTokens a (Some tokens') in
          let '(_, w3) := saveTokens tokens' w2 in
          Some (inr tokens', a', w3)
      end
  end.

(** *** Token refresh *)

Definition refreshForm (a : Authenticator) (refreshToken : string) : list (string * string) :=
  [("client_id", clientID a); ("refresh_token", refreshToken);
   ("grant_type", "refresh_token"); ("resource", resource a)].

(** refresh exchanges the refresh token for a new access token. It is
    called with [a.tokens] set; [t] is the struct it points to. *)
Definition refresh (srv : Server) (a : Authenticator) (t : TokenResponse) (w : World)
  : option error * Authenticator * World :=
  let '(r, w1) := postForm srv config.TokenEndpoint (refreshForm a (RefreshToken t)) w in
  match r with
  | inl err => (Some err, a, w1)
  | inr (inl err) => (Some err, a, w1)
  | inr (inr body) =>
      match asTokens body with
      | inl err => (Some err, a, w1)
      | inr tokens =>
          if nonempty (AccessToken tokens) then
            let tokens' := parseExpiration (clock w1) tokens in
            let '(_, w2) := saveTokens tokens' w1 in
            (None, setTokens a (Some tokens'), w2)
          else
            (Some ("no access token in refresh response: " ++ raw body), a, w1)
      end
  end.

(** GetTokens returns valid tokens, authenticating or refreshing as
    needed. After a successful [loadTokens] the pointer [a.tokens] is set;
    the branches for a nil pointer stand for the nil dereference of the
    source, which no run reaches, and give no result. *)
Definition GetTokens (srv : Server) (fuel : nat) (a : Authenticator) (w : World)
  : option ((error + TokenResponse) * Authenticator * World) :=
  match loadTokens a w with
  | (None, a1) =>
      match tokens a1 with
      | None => None
      | Some t =>
          if isTokenValid a1 (clock w) then Some (inr t, a1, w)
          else if nonempty (RefreshToken t) then
            match refresh srv a1 t w with
            | (None, a2, w2) =>
                match tokens a2 with
                | Some t2 => Some (inr t2, a2, w2)
                | None => None
                end
            | (Some _, a2, w2) => deviceCodeAuth srv fuel a2 w2
            end
          else deviceCodeAuth srv fuel a1 w
      end
  | (Some _, a1) => deviceCodeAuth srv fuel a1 w
  end.

(** GetAccessToken is a convenience method that returns just the access
    token string. *)
Definition GetAccessToken (srv : Server) (fuel : nat) (a : Authenticator) (w : World)
  : option ((error + string) * Authenticator * World) :=
  match GetTokens srv fuel a w with
  | None => None
  | Some (inl err, a', w') => Some (inl err, a', w')
  | Some (inr tokens, a', w') => Some (inr (AccessToken tokens), a', w')
  end.

(** *** Vocabulary for the properties of the poll loop *)

(** The duration [pollForToken] hands to [time.Sleep] in each round. *)
Definition pollSleep (dc : DeviceCodeResponse) : time.Duration :=
  time.mul (pollInterval dc) time.Second.

Definition redeemRequest (a : Authenticator) (dc : DeviceCodeResponse) : Request :=
  {| endpoint := config.TokenEndpoint; form := redeemForm a (DeviceCode dc) |}.

(** An [authorization_pending] error response. *)
Definition isPending (r : Reply) : Prop :=
  exists b, outcome r = Answers b /\ Error (asError b) = "authorization_pending".

(** A reply after which the loop polls again: the attempt fails with an
    error whose message contains [authorization_pending]. *)
Definition retried (r : Reply) : Prop :=
  exists err, redeemResult (delivered (outcome r)) = inl err
              /\ strings.Contains err "authorization_pending" = true.

(** A result of an attempt that ends the loop. *)
Definition final (res : error + TokenResponse) : Prop :=
  match res with
  | inl err => strings.Contains err "authorization_pending" = false
  | inr _ => True
  end.

(** The time [N] rounds take from request number [n] on, each a sleep of
    [d] and one exchange. *)
Fixpoint elapsed (srv : Server) (d : time.Duration) (n N : nat) : Z :=
  match N with
  | O => 0
  | S N' => time.slept d + Z.pos (took (srv n)) + elapsed srv d (S n) N'
  end.

(** The world after [N] rounds of the loop entered in [w]. *)
Definition after (srv : Server) (a : Authenticator) (dc : DeviceCodeResponse)
    (N : nat) (w : World) : World :=
  {| clock := clock w + elapsed srv (pollSleep dc) (length (sent w)) N;
     sent := (repeat (redeemRequest a dc) N ++ sent w)%list;
     tokenFile := tokenFile w;
     writeError := writeError w |}.

(** *** Vocabulary for the properties of the refresh *)

(** A refresh request that fails: the request or the reading of its
    response fails, the body does not decode, or it decodes to a response
    without an access token. *)
Definition refreshFails (o : Outcome) : Prop :=
  match o with
  | DoFails _ => True
  | ReadFails _ => True
  | Answers b =>
      match asTokens b with
      | inl _ => True
      | inr t => AccessToken t = ""
      end
  end.

Definition refreshRequest (a : Authenticator) (t : TokenResponse) : Request :=
  {| endpoint := config.TokenEndpoint; form := refreshForm a (RefreshToken t) |}.

Definition deviceCodeRequest (a : Authenticator) : Request :=
  {| endpoint := config.DeviceCodeEndpoint;
     form := [("client_id", clientID a); ("resource", resource a)] |}.

(** The world after the refresh request made in [w]. *)
Definition afterRefresh (srv : Server) (a : Authenticator) (t : TokenResponse)
    (w : World) : World :=
  {| clock := clock w + Z.pos (took (srv (length (sent w))));
     sent := refreshRequest a t :: sent w;
     tokenFile := tokenFile w;
     writeError := writeError w |}.

(** *** Vocabulary for the runs of the poll loop *)

(** How a run of the loop entered in [w] has gone when it returns [r] and
    leaves [w']: [N] rounds that were entered before the deadline and
    retried, and then either the deadline, or one more round entered
    before it whose attempt ended the loop. *)
Definition ranIn (srv : Server) (a : Authenticator) (dc : DeviceCodeResponse)
    (expiresIn : Z) (deadline : time.Time) (w : World) (N : nat)
    (r : error + TokenResponse) (w' : World) : Prop :=
  (forall k, (k < N)%nat ->
     retried (srv (length (sent w) + k)%nat)
     /\ clock (after srv a dc k w) < deadline)
  /\ ((r = inl (timedOut expiresIn)
       /\ deadline <= clock (after srv a dc N w)
       /\ w' = after srv a dc N w)
      \/ (redeemResult (delivered (outcome (srv (length (sent w) + N)%nat))) = r
          /\ final r
          /\ clock (after srv a dc N w) < deadline
          /\ w' = after srv a dc (S N) w)).

Definition ranTo (srv : Server) (a : Authenticator) (dc : DeviceCodeResponse)
    (expiresIn : Z) (deadline : time.Time) (w : World)
    (r : error + TokenResponse) (w' : World) : Prop :=
  exists N, ranIn srv a dc expiresIn deadline w N r w'.

(** Whether the byte [c] occurs in [s]. *)
Fixpoint mentions (c : ascii) (s : string) : bool :=
  match s with
  | EmptyString => false
  | String x s' => Ascii.eqb c x || mentions c s'
  end.

End auth.

(* ------------------------------------------------------------------------- *)
(** ** The properties as the design document words them, where the code is
    compared with them *)

Module design.

Import types.

Definition scanned (s : string) : Z :=
  match fmt.Sscanf_d s with Some v => v | None => 0 end.

(** Expiry of a credential: the absolute Unix-timestamp field when it is
    present, otherwise the relative seconds-from-now field, otherwise one
    hour from now. *)
Definition expiresAt (now : time.Time) (t : TokenResponse) : time.Time :=
  if nonempty (ExpiresOn t) then time.Unix (scanned (ExpiresOn t))
  else if nonempty (ExpiresIn t)
       then time.Add now (scanned (ExpiresIn t) * time.Second)
       else time.Add now time.Hour.

End design.

(* ------------------------------------------------------------------------- *)
(** ** internal/graph *)

Module graph.

(** A [json.RawMessage]: the bytes of one record. *)
Definition RawMessage := string.

(** Client is the Microsoft Graph API client. *)
Record Client := {
  accessToken : string;
  baseURL : string
}.

Definition NewClient (accessToken : string) : Client :=
  {| accessToken := accessToken; baseURL := config.GraphBaseURL |}.

(** The bytes of a response body, with what [json.Unmarshal] makes of
    them for the page struct: an error, or the [value] array and the
    [@odata.nextLink] string. *)
Record Body := {
  raw : string;
  asPage : error + (list RawMessage * string)
}.

(** How one call of [getPage] ends on the wire. *)
Inductive Outcome :=
| BadRequest (err : error)   (* [http.NewRequest] fails: nothing is sent *)
| DoFails (err : error)      (* [c.httpClient.Do] returns an error *)
| ReadFails (err : error)    (* [io.ReadAll(resp.Body)] returns an error *)
| Responds (status : Z) (body : Body).

(** The remote side: what the page request number [n] of the run meets
    when it asks for [url]. *)
Definition Server := nat -> string -> Outcome.

(** What the client does that the outside can see, in order. *)
Inductive Event :=
| Get (url : string) (authorization : string)
| Delay (d : time.Duration).

Definition pageRequest (c : Client) (url : string) : Event :=
  Get url ("Bearer " ++ accessToken c).

(** truncateError truncates error messages for cleaner output. *)
Definition truncateError (body : string) : string :=
  let maxLen := 200%nat in
  if (maxLen <? String.length body)%nat
  then substring 0 maxLen body ++ "..."
  else body.

(** getPage retrieves a single page of results. *)
Definition getPage (srv : Server) (c : Client) (n : nat) (url : string)
  : (error + (list RawMessage * string)) * list Event :=
  match srv n url with
  | BadRequest err => (inl err, [])
  | DoFails err => (inl err, [pageRequest c url])
  | ReadFails err => (inl err, [pageRequest c url])
  | Responds status body =>
      if 400 <=? status then
        (inl ("API error " ++ fmt.itoa status ++ ": " ++ truncateError (raw body)),
         [pageRequest c url])
      else
        match asPage body with
        | inl err => (inl ("parse response: " ++ err), [pageRequest c url])
        | inr (value, nextLink) => (inr (value, nextLink), [pageRequest c url])
        end
  end.

Definition emit {A : Type} (evs : list Event) (r : option (A * list Event))
  : option (A * list Event) :=
  match r with
  | None => None
  | Some (x, evs') => Some (x, (evs ++ evs')%list)
  end.

Definition len (l : list RawMessage) : Z := Z.of_nat (length l).

(** The [for nextLink != ""] loop of [GetAllPages], from the state
    ([allResults], [nextLink]) with [n] page requests behind it; the
    result carries the events of the rest of the walk. [fuel] bounds the
    number of times the condition is evaluated. *)
Fixpoint pagesLoop (srv : Server) (c : Client) (maxResults : Z) (fuel : nat)
    (n : nat) (allResults : list RawMessage) (nextLink : string)
  : option ((list RawMessage * option error) * list Event) :=
  match fuel with
  | O => None
  | S fuel' =>
      if types.nonempty nextLink then
        if (0 <? maxResults) && (maxResults <=? len allResults) then
          Some ((allResults, None), [])
        else
          let '(r, evs) := getPage srv c n nextLink in
          match r with
          | inl err => Some ((allResults, Some err), evs)
          | inr (results, next) =>
              let allResults' := (allResults ++ results)%list in
              let pause := if types.nonempty next
                           then [Delay config.RateLimitDelay] else [] in
              emit (evs ++ pause)%list
                   (pagesLoop srv c maxResults fuel' (S n) allResults' next)
          end
      else Some ((allResults, None), [])
  end.

(** GetAllPages retrieves all pages of results from a paginated endpoint.
    Set maxResults to 0 for unlimited results. [n] is the number of page
    requests the run has made before the call. *)
Definition GetAllPages (srv : Server) (c : Client) (fuel : nat) (n : nat)
    (endpoint : string) (maxResults : Z)
  : option ((list RawMessage * option error) * list Event) :=
  pagesLoop srv c maxResults fuel n [] (baseURL c ++ endpoint).

(** Counting the events of a walk. *)
Definition isGet (e : Event) : bool :=
  match e with Get _ _ => true | Delay _ => false end.

Definition requests (evs : list Event) : nat := length (filter isGet evs).
Definition delays (evs : list Event) : nat :=
  length (filter (fun e => negb (isGet e)) evs).

(** *** Vocabulary for the properties of the walk *)

(** A page the server exposes: its URL and its records. *)
Definition Page := (string * list RawMessage)%type.

(** The URL that follows the pages [rest] are the rest of: the next
    page's, or [last] after the final one. *)
Definition linkAfter (rest : list Page) (last : string) : string :=
  match rest with
  | [] => last
  | (url, _) :: _ => url
  end.

(** From page request number [n] on, the server answers the requests for
    [pages] one after the other, each page with its records and the link
    to the next, the final one with the link [last]. *)
Fixpoint linked (srv : Server) (c : Client) (n : nat) (pages : list Page)
    (last : string) : Prop :=
  match pages with
  | [] => True
  | (url, recs) :: rest =>
      url <> ""
      /\ fst (getPage srv c n url) = inr (recs, linkAfter rest last)
      /\ linked srv c (S n) rest last
  end.

(** The limit is not reached when the loop is about to ask for any of
    [pages], with [acc] gathered before the first of them. *)
Fixpoint uncapped (maxResults : Z) (acc : list RawMessage) (pages : list Page)
  : Prop :=
  match pages with
  | [] => True
  | (_, recs) :: rest =>
      (maxResults <= 0 \/ len acc < maxResults)
      /\ uncapped maxResults (acc ++ recs)%list rest
  end.

Definition records (pages : list Page) : list RawMessage :=
  concat (map snd pages).

(** The events of following [pages] when the link after them is [last]:
    a request for each, and a delay after each that has a successor. *)
Fixpoint trail (c : Client) (pages : list Page) (last : string) : list Event :=
  match pages with
  | [] => []
  | (url, _) :: rest =>
      (pageRequest c url
       :: (if types.nonempty (linkAfter rest last)
           then [Delay config.RateLimitDelay] else []))
      ++ trail c rest last
  end%list.

(** A request for each page, and a delay between two of them. *)
Fixpoint walk (c : Client) (pages : list Page) : list Event :=
  match pages with
  | [] => []
  | (url, _) :: rest =>
      pageRequest c url
      :: match rest with
         | [] => []
         | _ :: _ => Delay config.RateLimitDelay :: walk c rest
         end
  end.

(** A trace in which requests and rate-limit delays take turns, a request
    first: no two requests without the delay between them, no delay but
    after a request. *)
Fixpoint alternating (evs : list Event) : bool :=
  match evs with
  | [] => true
  | Get _ _ :: rest =>
      match rest with
      | [] => true
      | Delay d :: rest' => (d =? config.RateLimitDelay) && alternating rest'
      | Get _ _ :: _ => false
      end
  | Delay _ :: _ => false
  end.

(** *** Single requests, and the enumerations built on them *)

(** A request as [request] sends it. *)
Record Call := {
  method : string;
  url : string;
  payload : option string;
  authorization : string
}.

(** The remote side for single requests: what the call number [n] of the
    run meets. *)
Definition ApiServer := nat -> Call -> Outcome.

(** request is the internal method that handles all HTTP requests. *)
Definition request (srv : ApiServer) (c : Client) (n : nat)
    (method endpoint : string) (body : option string)
  : (error + string) * list Call :=
  let call := {| method := method; url := baseURL c ++ endpoint;
                 payload := body;
                 authorization := "Bearer " ++ accessToken c |} in
  match srv n call with
  | BadRequest err => (inl ("create request: " ++ err), [])
  | DoFails err => (inl ("execute request: " ++ err), [call])
  | ReadFails err => (inl ("read response: " ++ err), [call])
  | Responds status respBody =>
      if 400 <=? status then
        (inl ("API error " ++ fmt.itoa status ++ ": "
              ++ truncateError (raw respBody)), [call])
      else (inr (raw respBody), [call])
  end.

(** Get performs a GET request to the specified Graph API endpoint. *)
Definition Get_ (srv : ApiServer) (c : Client) (n : nat) (endpoint : string)
  : (error + string) * list Call :=
  request srv c n "GET" endpoint None.

(** Post performs a POST request with a JSON payload. *)
Definition Post (srv : ApiServer) (c : Client) (n : nat) (endpoint : string)
    (payload : string) : (error + string) * list Call :=
  request srv c n "POST" endpoint (Some payload).

Definition GlobalAdminRoleName : string := "Global Administrator".

Section Enumerations.

(** [json.Unmarshal] into the structs of users.go and roles.go: the
    decoding error, or the value decoded. *)
Variable unmarshalUser : RawMessage -> error + types.User.
Variable unmarshalRoles : string -> error + list types.DirectoryRole.
Variable unmarshalMembers : string -> error + list types.RoleMember.

(** The loop of [EnumerateUsers] over the raw records: a record that does
    not decode is passed over. *)
Fixpoint decodeUsers (results : list RawMessage) : list types.User :=
  match results with
  | [] => []
  | raw :: rest =>
      match unmarshalUser raw with
      | inl _ => decodeUsers rest
      | inr user => user :: decodeUsers rest
      end
  end.

(** EnumerateUsers retrieves all users from Azure AD directory. *)
Definition EnumerateUsers (srv : Server) (c : Client) (fuel n : nat)
  : option ((error + list types.User) * list Event) :=
  let endpoint :=
    "/users?$select=id,displayName,userPrincipalName,mail,jobTitle,department,accountEnabled&$top=999" in
  match GetAllPages srv c fuel n endpoint 0 with
  | None => None
  | Some ((results, Some err), evs) => Some (inl err, evs)
  | Some ((results, None), evs) => Some (inr (decodeUsers results), evs)
  end.

(** GetMe retrieves the currently authenticated user. *)
Definition GetMe (srv : ApiServer) (c : Client) (n : nat)
  : (error + types.User) * list Call :=
  match Get_ srv c n "/me" with
  | (inl err, calls) => (inl err, calls)
  | (inr data, calls) => (unmarshalUser data, calls)
  end.

(** EnumerateDirectoryRoles retrieves all activated directory roles. *)
Definition EnumerateDirectoryRoles (srv : ApiServer) (c : Client) (n : nat)
  : (error + list types.DirectoryRole) * list Call :=
  match Get_ srv c n "/directoryRoles" with
  | (inl err, calls) => (inl err, calls)
  | (inr data, calls) => (unmarshalRoles data, calls)
  end.

(** GetRoleMembers retrieves all members of a specific directory role. *)
Definition GetRoleMembers (srv : ApiServer) (c : Client) (n : nat)
    (roleID : string) : (error + list types.RoleMember) * list Call :=
  match Get_ srv c n ("/directoryRoles/" ++ roleID ++ "/members") with
  | (inl err, calls) => (inl err, calls)
  | (inr data, calls) => (unmarshalMembers data, calls)
  end.

(** The [for _, role := range roles] loop of [GetGlobalAdmins]; [n] is the
    number of the next call. *)
Fixpoint findGlobalAdmins (srv : ApiServer) (c : Client) (n : nat)
    (roles : list types.DirectoryRole)
  : (error + option types.RoleWithMembers) * list Call :=
  match roles with
  | [] => (inr None, [])
  | role :: rest =>
      if (types.roleDisplayName role =? GlobalAdminRoleName)%string then
        match GetRoleMembers srv c n (types.roleID role) with
        | (inl err, calls) => (inl err, calls)
        | (inr members, calls) =>
            (inr (Some {| types.Role := role; types.Members := members |}),
             calls)
        end
      else findGlobalAdmins srv c n rest
  end.

(** GetGlobalAdmins finds all members of the Global Administrator role. *)
Definition GetGlobalAdmins (srv : ApiServer) (c : Client) (n : nat)
  : (error + option types.RoleWithMembers) * list Call :=
  match EnumerateDirectoryRoles srv c n with
  | (inl err, calls) => (inl err, calls)
  | (inr roles, calls) =>
      let '(r, calls') := findGlobalAdmins srv c (S n) roles in
      (r, (calls ++ calls')%list)
  end.

(** The loop of [EnumerateAllRolesWithMembers]: a role whose members
    cannot be fetched, or that has none, is passed over. *)
Fixpoint collectRoles (srv : ApiServer) (c : Client) (n : nat)
    (roles : list types.DirectoryRole)
  : list types.RoleWithMembers * list Call :=
  match roles with
  | [] => ([], [])
  | role :: rest =>
      let '(r, calls) := GetRoleMembers srv c n (types.roleID role) in
      let '(results, calls') := collectRoles srv c (S n) rest in
      match r with
      | inl _ => (results, (calls ++ calls')%list)
      | inr members =>
          if (0 <? Z.of_nat (length members)) then
            ({| types.Role := role; types.Members := members |} :: results,
             (calls ++ calls')%list)
          else (results, (calls ++ calls')%list)
      end
  end.

(** EnumerateAllRolesWithMembers retrieves all directory roles and their
    members. *)
Definition EnumerateAllRolesWithMembers (srv : ApiServer) (c : Client) (n : nat)
  : (error + list types.RoleWithMembers) * list Call :=
  match EnumerateDirectoryRoles srv c n with
  | (inl err, calls) => (inl err, calls)
  | (inr roles, calls) =>
      let '(results, calls') := collectRoles srv c (S n) roles in
      (inr results, (calls ++ calls')%list)
  end.

End Enumerations.

(** [l1] is [l2] with some elements left out, the order kept. *)
Inductive Subseq {A : Type} : list A -> list A -> Prop :=
| Subseq_nil : Subseq [] []
| Subseq_skip (x : A) (l1 l2 : list A) : Subseq l1 l2 -> Subseq l1 (x :: l2)
| Subseq_keep (x : A) (l1 l2 : list A) : Subseq l1 l2 -> Subseq (x :: l1) (x :: l2).

(** *** search.go *)

(** One hit of the search API, the fields [hitToDriveItem] reads. *)
Record searchHit := {
  hitID : string;
  hitName : string;
  hitWebURL : string;
  hitSize : Z;
  hitCreatedDateTime : string;
  hitLastModified : string;
  hitDriveID : string;
  hitPath : string;
  hitEmail : string;
  hitDisplayName : string
}.

Record hitsContainer := {
  Total : Z;
  Hits : list searchHit
}.

(** The decoded response: for each element of [value] its
    [hitsContainers]. *)
Definition searchResponse := list (list hitsContainer).

(** The [seen] map of the source, a [map[string]bool]: what a lookup
    gives, [false] for a key that is not there. *)
Definition seenMap := string -> bool.

Definition mark (id : string) (seen : seenMap) : seenMap :=
  fun k => if (k =? id)%string then true else seen k.

Definition buildQueries (keyword : string) (fileTypes : list string)
    (includeKQL : bool) : list string :=
  ([keyword]
   ++ (if includeKQL && (0 <? Z.of_nat (length fileTypes))
       then map (fun ft => (keyword ++ " filetype:"
                            ++ strings.TrimPrefix ft ".")%string)
              fileTypes
       else []))%list.

Fixpoint deduplicateItems (items : list types.DriveItem) (seen : seenMap)
  : list types.DriveItem * seenMap :=
  match items with
  | [] => ([], seen)
  | item :: rest =>
      if negb (seen (types.ID item)) then
        let '(unique, seen') :=
          deduplicateItems rest (mark (types.ID item) seen) in
        (item :: unique, seen')
      else deduplicateItems rest seen
  end.

Section Search.

Variable IsPathSeparator : ascii -> bool.

(** [json.Marshal] of the search request for a query string and a size,
    and [json.Unmarshal] of the response. *)
Variable marshalSearch : string -> Z -> error + string.
Variable unmarshalSearch : string -> error + searchResponse.

Definition hitToDriveItem (hit : searchHit) (query : string) : types.DriveItem :=
  {| types.ID := hitID hit;
     types.DriveID := hitDriveID hit;
     types.Name := hitName hit;
     types.Path := hitPath hit;
     types.WebURL := hitWebURL hit;
     types.Size := hitSize hit;
     types.Extension :=
       strings.TrimPrefix (filepath.Ext IsPathSeparator (hitName hit)) ".";
     types.Owner := hitDisplayName hit;
     types.OwnerMail := hitEmail hit;
     types.Created := hitCreatedDateTime hit;
     types.Modified := hitLastModified hit;
     types.MatchedOn := query |}.

Definition parseSearchResponse (data query : string)
  : error + types.SearchResult :=
  match unmarshalSearch data with
  | inl err => inl ("parse response: " ++ err)
  | inr response =>
      match response with
      | (container :: _) :: _ =>
          inr {| types.Query := query;
                 types.TotalHits := Total container;
                 types.Items :=
                   map (fun hit => hitToDriveItem hit query) (Hits container) |}
      | _ => inr {| types.Query := query; types.TotalHits := 0;
                    types.Items := [] |}
      end
  end.

(** Search performs a single search query against SharePoint/OneDrive.
    The last component is the number of the next call. *)
Definition Search (srv : ApiServer) (c : Client) (n : nat) (query : string)
    (maxResults : Z) : (error + types.SearchResult) * list Call * nat :=
  let maxResults := if maxResults <=? 0
                    then config.DefaultMaxResultsPerQuery else maxResults in
  match marshalSearch query maxResults with
  | inl err => (inl ("marshal request: " ++ err), [], n)
  | inr payload =>
      match Post srv c n "/search/query" payload with
      | (inl err, calls) => (inl ("search query: " ++ err), calls, S n)
      | (inr data, calls) => (parseSearchResponse data query, calls, S n)
      end
  end.

(** What the loops of [SearchWithOptions] carry along. *)
Record searchState := {
  next : nat;
  seenIDs : seenMap;
  results : list types.SearchResult;
  calls : list Call
}.

Definition withItems (r : types.SearchResult) (items : list types.DriveItem)
  : types.SearchResult :=
  {| types.Query := types.Query r; types.TotalHits := types.TotalHits r;
     types.Items := items |}.

(** The inner loop, over the queries of one keyword. *)
Fixpoint searchQueries (srv : ApiServer) (c : Client) (maxPerQuery : Z)
    (queries : list string) (st : searchState) : searchState :=
  match queries with
  | [] => st
  | query :: rest =>
      let '(r, cs, n') := Search srv c (next st) query maxPerQuery in
      match r with
      | inl _ =>
          searchQueries srv c maxPerQuery rest
            {| next := n'; seenIDs := seenIDs st; results := results st;
               calls := (calls st ++ cs)%list |}
      | inr result =>
          if types.TotalHits result =? 0 then
            searchQueries srv c maxPerQuery rest
              {| next := n'; seenIDs := seenIDs st; results := results st;
                 calls := (calls st ++ cs)%list |}
          else
            let '(unique, seen') :=
              deduplicateItems (types.Items result) (seenIDs st) in
            if 0 <? Z.of_nat (length unique) then
              searchQueries srv c maxPerQuery rest
                {| next := n'; seenIDs := seen';
                   results := (results st ++ [withItems result unique])%list;
                   calls := (calls st ++ cs)%list |}
            else
              searchQueries srv c maxPerQuery rest
                {| next := n'; seenIDs := seen'; results := results st;
                   calls := (calls st ++ cs)%list |}
      end
  end.

(** The outer loop, over the keywords. *)
Fixpoint searchKeywords (srv : ApiServer) (c : Client) (maxPerQuery : Z)
    (fileTypes : list string) (includeKQL : bool) (keywords : list string)
    (st : searchState) : searchState :=
  match keywords with
  | [] => st
  | keyword :: rest =>
      searchKeywords srv c maxPerQuery fileTypes includeKQL rest
        (searchQueries srv c maxPerQuery
           (buildQueries keyword fileTypes includeKQL) st)
  end.

(** SearchWithOptions performs credential hunting with configurable
    options. The error it returns is always nil; the result is the state
    its loops end in, from a fresh [seenIDs] map. *)
Definition SearchWithOptions (srv : ApiServer) (c : Client) (n : nat)
    (opts : types.SearchOptions) : searchState :=
  let maxPerQuery := if types.MaxPerQuery opts <=? 0
                     then config.DefaultMaxResultsPerQuery
                     else types.MaxPerQuery opts in
  searchKeywords srv c maxPerQuery (types.FileTypes opts)
    (types.IncludeKQL opts) (types.Keywords opts)
    {| next := n; seenIDs := fun _ => false; results := []; calls := [] |}.

End Search.

(** All the items of a list of results, in order. *)
Definition allItems (rs : list types.SearchResult) : list types.DriveItem :=
  flat_map types.Items rs.

(** What the loops of [SearchWithOptions] keep true of their state: no ID
    occurs twice among the items of the results, the map has seen them
    all, and no result is without items or without hits. *)
Definition tidy (st : searchState) : Prop :=
  NoDup (map types.ID (allItems (results st)))
  /\ (forall x, In x (allItems (results st)) -> seenIDs st (types.ID x) = true)
  /\ (forall r, In r (results st)
        -> types.Items r <> [] /\ types.TotalHits r <> 0).

End graph.

(* ------------------------------------------------------------------------- *)
(** ** internal/download and internal/hunt: the items of a hunt *)

Module download.

(** The loops of [collectUniqueItems], carrying the [seen] map and the
    items gathered so far. *)
Fixpoint collectItems (items : list types.DriveItem) (seen : graph.seenMap)
    (acc : list types.DriveItem) : graph.seenMap * list types.DriveItem :=
  match items with
  | [] => (seen, acc)
  | item :: rest =>
      if negb (seen (types.ID item))
      then collectItems rest (graph.mark (types.ID item) seen)
             (acc ++ [item])%list
      else collectItems rest seen acc
  end.

Fixpoint collectResults (results : list types.SearchResult)
    (seen : graph.seenMap) (acc : list types.DriveItem)
  : graph.seenMap * list types.DriveItem :=
  match results with
  | [] => (seen, acc)
  | result :: rest =>
      let '(seen', acc') := collectItems (types.Items result) seen acc in
      collectResults rest seen' acc'
  end.

Definition collectUniqueItems (results : list types.SearchResult)
  : list types.DriveItem :=
  snd (collectResults results (fun _ => false) []).

End download.

Module hunt.

(** The [uniqueItems] map of the source, a [map[string]types.DriveItem],
    as the list of its entries: a key occurs once. *)
Definition itemMap := list (string * types.DriveItem).

(** [m[k] = v]. *)
Fixpoint put (k : string) (v : types.DriveItem) (m : itemMap) : itemMap :=
  match m with
  | [] => [(k, v)]
  | (k', v') :: rest =>
      if (k' =? k)%string then (k, v) :: rest else (k', v') :: put k v rest
  end.

(** [m[k]]. *)
Fixpoint lookup (k : string) (m : itemMap) : option types.DriveItem :=
  match m with
  | [] => None
  | (k', v') :: rest => if (k' =? k)%string then Some v' else lookup k rest
  end.

Fixpoint putItems (items : list types.DriveItem) (m : itemMap) : itemMap :=
  match items with
  | [] => m
  | item :: rest => putItems rest (put (types.ID item) item m)
  end.

(** The loop of [aggregateSearchResults]; [totalHits] is an [int] of 64
    bits and its sum wraps. *)
Fixpoint aggregate (results : list types.SearchResult) (totalHits : Z)
    (uniqueItems : itemMap) : Z * itemMap :=
  match results with
  | [] => (totalHits, uniqueItems)
  | sr :: rest =>
      aggregate rest (time.int64 (totalHits + types.TotalHits sr))
        (putItems (types.Items sr) uniqueItems)
  end.

Definition aggregateSearchResults (results : list types.SearchResult)
  : Z * itemMap :=
  aggregate results 0 [].

End hunt.

(* ------------------------------------------------------------------------- *)
(** ** Concrete sessions, replies and servers, on which the definitions run *)

Module sample.

Import types auth.

Definition quote : string := String "034"%char "".
Definition field (k v : string) : string :=
  quote ++ k ++ quote ++ ":" ++ quote ++ v ++ quote.
Definition object (fields : list string) : string :=
  "{" ++ String.concat "," fields ++ "}".

Definition noTokens : TokenResponse :=
  {| AccessToken := ""; RefreshToken := ""; TokenType := ""; ExpiresIn := "";
     ExpiresOn := ""; Resource := ""; Scope := ""; ExpiresAt := time.zero |}.

Definition noSession : DeviceCodeResponse :=
  {| DeviceCode := ""; UserCode := ""; VerificationURL := "";
     VerificationURI := ""; dcExpiresIn := ""; Interval := ""; Message := "" |}.

(** A token response with a relative lifetime of two hours and no
    absolute expiry. *)
Definition token : TokenResponse :=
  {| AccessToken := "eyJ0eXAiOiJKV1Qi"; RefreshToken := "0.AVYA";
     TokenType := "Bearer"; ExpiresIn := "7200"; ExpiresOn := "";
     Resource := config.GraphResource; Scope := ""; ExpiresAt := time.zero |}.

Definition grantedBody : Body :=
  {| raw := object [field "access_token" "eyJ0eXAiOiJKV1Qi";
                    field "refresh_token" "0.AVYA";
                    field "token_type" "Bearer";
                    field "expires_in" "7200";
                    field "resource" config.GraphResource];
     asError := {| Error := ""; Description := "" |};
     asTokens := inr token;
     asDeviceCode := inr noSession |}.

Definition pendingBody : Body :=
  {| raw := object [field "error" "authorization_pending";
                    field "error_description" "AADSTS70016"];
     asError := {| Error := "authorization_pending";
                   Description := "AADSTS70016" |};
     asTokens := inr noTokens;
     asDeviceCode := inr noSession |}.

(** A session polled every 5 seconds for 15 minutes, and one polled every
    second for 2 seconds. *)
Definition session : DeviceCodeResponse :=
  {| DeviceCode := "DAQABAAEAAAD"; UserCode := "F7K2Q9XCD";
     VerificationURL := "https://microsoft.com/devicelogin";
     VerificationURI := ""; dcExpiresIn := "900"; Interval := "5";
     Message := "" |}.

Definition shortSession : DeviceCodeResponse :=
  {| DeviceCode := "DAQABAAEAAAD"; UserCode := "F7K2Q9XCD";
     VerificationURL := "https://microsoft.com/devicelogin";
     VerificationURI := ""; dcExpiresIn := "2"; Interval := "1";
     Message := "" |}.

Definition authenticator : Authenticator := NewAuthenticator "loot".

(** A fresh run at some instant of November 2023, without a token file. *)
Definition start : World :=
  {| clock := time.Unix 1700000000; sent := [];
     tokenFile := Unreadable "open loot/tokens.json: no such file or directory";
     writeError := fun _ => None |}.

Definition ms (n : positive) : positive := n * 1000000.

(** A cached credential that expired some hours before [start], and a
    run that finds it in the token file. *)
Definition staleToken : TokenResponse :=
  {| AccessToken := "eyJ0eXAiOiJKV1Qi"; RefreshToken := "0.AVYA";
     TokenType := "Bearer"; ExpiresIn := "3599"; ExpiresOn := "1699990000";
     Resource := config.GraphResource; Scope := "";
     ExpiresAt := time.Unix 1699990000 |}.

Definition startCached : World :=
  {| clock := time.Unix 1700000000; sent := [];
     tokenFile := Holds (inr staleToken);
     writeError := fun _ => None |}.

Definition deniedBody : Body :=
  {| raw := object [field "error" "invalid_grant";
                    field "error_description" "AADSTS70043"];
     asError := {| Error := "invalid_grant"; Description := "AADSTS70043" |};
     asTokens := inr noTokens;
     asDeviceCode := inr noSession |}.

Definition sessionBody : Body :=
  {| raw := object [field "device_code" "DAQABAAEAAAD";
                    field "user_code" "F7K2Q9XCD";
                    field "verification_url" "https://microsoft.com/devicelogin";
                    field "expires_in" "900"; field "interval" "5"];
     asError := {| Error := ""; Description := "" |};
     asTokens := inr noTokens;
     asDeviceCode := inr {| DeviceCode := "DAQABAAEAAAD"; UserCode := "F7K2Q9XCD";
                            VerificationURL := "https://microsoft.com/devicelogin";
                            VerificationURI := ""; dcExpiresIn := "900";
                            Interval := "5"; Message := "" |} |}.

(** Two pending answers, then the grant; each exchange takes 120 ms. *)
Definition grantsThird : Server := fun n =>
  match n with
  | 0%nat | 1%nat => {| took := ms 120; outcome := Answers pendingBody |}
  | _ => {| took := ms 120; outcome := Answers grantedBody |}
  end.

(** Pending for ever, quickly and slowly (3 seconds an exchange). *)
Definition pendingForEver : Server := fun _ =>
  {| took := ms 120; outcome := Answers pendingBody |}.

Definition pendingSlowly : Server := fun _ =>
  {| took := ms 3000; outcome := Answers pendingBody |}.

(** The refresh token is turned down; the device-code flow that follows
    is granted on its second poll. *)
Definition refreshDenied : Server := fun n =>
  match n with
  | 0%nat => {| took := ms 90; outcome := Answers deniedBody |}
  | 1%nat => {| took := ms 110; outcome := Answers sessionBody |}
  | 2%nat => {| took := ms 120; outcome := Answers pendingBody |}
  | _ => {| took := ms 120; outcome := Answers grantedBody |}
  end.

(** The first connection is refused; from then on the grant is there. *)
Definition refusedFirst : Server := fun n =>
  match n with
  | 0%nat => {| took := ms 40;
                outcome := DoFails "dial tcp 20.190.151.7:443: connect: connection refused" |}
  | _ => {| took := ms 120; outcome := Answers grantedBody |}
  end.

(** The world after that refusal, 40 ms after [start]. *)
Definition refusedEnd : World :=
  {| clock := clock start + Z.pos (ms 40);
     sent := [deviceCodeRequest authenticator];
     tokenFile := tokenFile start;
     writeError := writeError start |}.

(** A session whose lifetime, 9223372037 seconds, does not fit an [int64]
    count of nanoseconds. *)
Definition overflowSession : DeviceCodeResponse :=
  {| DeviceCode := "DAQABAAEAAAD"; UserCode := "F7K2Q9XCD";
     VerificationURL := "https://microsoft.com/devicelogin";
     VerificationURI := ""; dcExpiresIn := "9223372037"; Interval := "5";
     Message := "" |}.

(** A cached credential good for another half hour, and a run that finds
    it in the token file. *)
Definition liveToken : TokenResponse :=
  {| AccessToken := "eyJ0eXAiOiJKV1Qi"; RefreshToken := "0.AVYA";
     TokenType := "Bearer"; ExpiresIn := "3599"; ExpiresOn := "1700001800";
     Resource := config.GraphResource; Scope := "";
     ExpiresAt := time.Unix 1700001800 |}.

Definition startLive : World :=
  {| clock := time.Unix 1700000000; sent := [];
     tokenFile := Holds (inr liveToken);
     writeError := fun _ => None |}.


(** A device-code flow from scratch: the session, one pending answer, the
    grant. The credential it ends with and the world it leaves. *)
Definition flowGranted : Server := fun n =>
  match n with
  | 0%nat => {| took := ms 110; outcome := Answers sessionBody |}
  | 1%nat => {| took := ms 120; outcome := Answers pendingBody |}
  | _ => {| took := ms 120; outcome := Answers grantedBody |}
  end.



End sample.

Module sampleGraph.

Import graph.

Definition client : Client := NewClient "eyJ0eXAiOiJKV1Qi".

Definition users1 : string := config.GraphBaseURL ++ "/users".
Definition users2 : string := config.GraphBaseURL ++ "/users?$skiptoken=RFNwdAIAAQ".
Definition users3 : string := config.GraphBaseURL ++ "/users?$skiptoken=RFNwdAIAAg".

Definition user (id : string) : RawMessage :=
  sample.object [sample.field "id" id].

Definition records1 : list RawMessage := [user "ada"; user "bob"; user "cyd"].
Definition records2 : list RawMessage := [user "dan"; user "eve"].
Definition records3 : list RawMessage := [user "fay"].

Definition page (recs : list RawMessage) (next : string) : Outcome :=
  Responds 200 {| raw := String.concat "," recs; asPage := inr (recs, next) |}.

Definition notFound : Outcome :=
  Responds 404 {| raw := "Resource not found"; asPage := inr ([], "") |}.

(** Three pages of users, linked by skip tokens. *)
Definition threePages : Server := fun _ url =>
  if (url =? users1)%string then page records1 users2
  else if (url =? users2)%string then page records2 users3
  else if (url =? users3)%string then page records3 ""
  else notFound.

(** The same, throttled on the second page. *)
Definition throttledSecond : Server := fun _ url =>
  if (url =? users1)%string then page records1 users2
  else if (url =? users2)%string
       then Responds 429 {| raw := "Too many requests"; asPage := inr ([], "") |}
  else if (url =? users3)%string then page records3 ""
  else notFound.

(** A server whose first page links to itself. *)
Definition endless : Server := fun _ url =>
  if (url =? users1)%string then page records1 users1 else notFound.

(** Two activated roles, the second the Global Administrator role with one
    member; raw bodies are named by what they decode to. *)
Definition readers : types.DirectoryRole :=
  {| types.roleID := "88d8e3e3"; types.roleDisplayName := "Directory Readers";
     types.roleDescription := ""; types.RoleTemplateID := "88d8e3e3" |}.

Definition admins : types.DirectoryRole :=
  {| types.roleID := "62e90394";
     types.roleDisplayName := "Global Administrator";
     types.roleDescription := ""; types.RoleTemplateID := "62e90394" |}.

Definition ada : types.RoleMember :=
  {| types.memberID := "ada"; types.memberDisplayName := "Ada";
     types.memberPrincipalName := "ada@contoso.example";
     types.ODataType := "#microsoft.graph.user" |}.

Definition unmarshalRoles (data : string)
  : error + list types.DirectoryRole :=
  if (data =? "roles")%string then inr [readers; admins]
  else inl "unexpected end of JSON input".

Definition unmarshalMembers (data : string)
  : error + list types.RoleMember :=
  if (data =? "members-admins")%string then inr [ada]
  else if (data =? "members-none")%string then inr []
  else inl "unexpected end of JSON input".

Definition unmarshalUser (raw : RawMessage) : error + types.User :=
  if (raw =? user "bob")%string then inl "json: cannot unmarshal"
  else inr {| types.userID := raw; types.userDisplayName := "";
              types.userPrincipalName := ""; types.Mail := "";
              types.JobTitle := ""; types.Department := "";
              types.AccountEnabled := true |}.

Definition ok (data : string) : Outcome :=
  Responds 200 {| raw := data; asPage := inl "not a page" |}.

Definition directory : ApiServer := fun _ call =>
  if (url call =? config.GraphBaseURL ++ "/directoryRoles")%string
  then ok "roles"
  else if (url call
           =? config.GraphBaseURL ++ "/directoryRoles/62e90394/members")%string
  then ok "members-admins"
  else if (url call
           =? config.GraphBaseURL ++ "/directoryRoles/88d8e3e3/members")%string
  then ok "members-none"
  else Responds 404 {| raw := "Resource not found"; asPage := inl "not a page" |}.

(** The users endpoint of [EnumerateUsers], served in three pages. *)
Definition usersEndpoint : string :=
  "/users?$select=id,displayName,userPrincipalName,mail,jobTitle,department,accountEnabled&$top=999".

Definition select1 : string := config.GraphBaseURL ++ usersEndpoint.

Definition selectPages : Server := fun _ url =>
  if (url =? select1)%string then page records1 users2
  else if (url =? users2)%string then page records2 users3
  else if (url =? users3)%string then page records3 ""
  else notFound.

Definition selectThrottled : Server := fun _ url =>
  if (url =? select1)%string then page records1 users2
  else if (url =? users2)%string
       then Responds 429 {| raw := "Too many requests"; asPage := inr ([], "") |}
  else notFound.

(** A hit of the search API, on a system whose path separator is the
    slash. *)
Definition slash : ascii -> bool := fun c => Ascii.eqb c "/".

Definition hit : searchHit :=
  {| hitID := "01ABC"; hitName := "passwords.final.xlsx";
     hitWebURL := "https://contoso.sharepoint.com/passwords.final.xlsx";
     hitSize := 4096; hitCreatedDateTime := "2024-01-01T00:00:00Z";
     hitLastModified := "2024-02-01T00:00:00Z"; hitDriveID := "b!drive";
     hitPath := "/drives/b!drive/root:"; hitEmail := "ada@contoso.com";
     hitDisplayName := "Ada" |}.

End sampleGraph.

(* ========================================================================= *)
(** * Properties *)

(** ** Credentials and sessions as values *)

Module TypesProps.

Import types.

Lemma nonempty_true (s : string) : nonempty s = true <-> s <> "".
Proof. destruct s; simpl; split; congruence. Qed.

Lemma nonempty_false (s : string) : nonempty s = false <-> s = "".
Proof. destruct s; simpl; split; congruence. Qed.

(** C10. [GetVerificationURL] returns the v1.0 field [verification_url]
    whenever it is non-empty and the v2.0 field [verification_uri]
    otherwise; its result is empty exactly when both fields are. *)
Theorem GetVerificationURL_prefers_v1 (d : DeviceCodeResponse) :
  (VerificationURL d <> "" -> GetVerificationURL d = VerificationURL d)
  /\ (VerificationURL d = "" -> GetVerificationURL d = VerificationURI d)
  /\ (GetVerificationURL d = ""
      <-> VerificationURL d = "" /\ VerificationURI d = "").
Proof.
  unfold GetVerificationURL.
  destruct (nonempty (VerificationURL d)) eqn:E.
  - apply nonempty_true in E. intuition congruence.
  - apply nonempty_false in E. intuition congruence.
Qed.

End TypesProps.

(** ** Reading back a decimal numeral *)

Module FmtProps.

Import fmt.

Lemma digits_numeral (u : Decimal.uint) : forall acc,
  digits acc (NilEmpty.string_of_uint u) = Some (continued acc u).
Proof.
  induction u; intros acc; cbn [NilEmpty.string_of_uint digits continued];
    try reflexivity;
    match goal with
    | |- context [is_digit ?c] => change (is_digit c) with true; cbv iota
    end;
    rewrite IHu; do 2 f_equal; cbn; lia.
Qed.

Lemma continued_pos (u : Decimal.uint) : forall p,
  continued (Z.pos p) u = Z.pos (Pos.of_uint_acc u p).
Proof.
  induction u; intros p; cbn [continued Pos.of_uint_acc]; try reflexivity;
    rewrite <- IHu; f_equal; lia.
Qed.

Lemma continued_0 (u : Decimal.uint) :
  continued 0 u = Z.of_N (Pos.of_uint u).
Proof.
  induction u; cbn [continued Pos.of_uint Z.of_N]; try reflexivity;
    try (change (10 * 0) with 0; exact IHu);
    rewrite <- continued_pos; reflexivity.
Qed.

Lemma scanNumber_numeral (u : Decimal.uint) :
  scanNumber (NilEmpty.string_of_uint u) = NilEmpty.string_of_uint u.
Proof.
  induction u; cbn [NilEmpty.string_of_uint scanNumber]; try reflexivity;
    match goal with
    | |- context [is_digit ?c] => change (is_digit c) with true
    end;
    cbn [orb]; now rewrite IHu.
Qed.

Lemma SkipSpace_numeral (u : Decimal.uint) :
  SkipSpace (NilEmpty.string_of_uint u) = Some (NilEmpty.string_of_uint u).
Proof.
  destruct u; cbn [NilEmpty.string_of_uint]; try reflexivity;
    destruct (NilEmpty.string_of_uint u) as [|b [|c r]]; reflexivity.
Qed.

(** [Sscanf] reads the decimal numeral of a positive [int64] back. *)
Lemma Sscanf_d_itoa (n : Z) :
  0 <= n < 2 ^ 63 -> Sscanf_d (itoa n) = Some n.
Proof.
  intros Hn. destruct n as [|p|p]; [reflexivity| |lia].
  unfold itoa. cbn [Z.to_int NilZero.string_of_int].
  pose proof (DecimalPos.Unsigned.to_uint_nonnil p) as Hnil.
  pose proof (DecimalPos.Unsigned.of_to p) as Hval.
  assert (E : NilZero.string_of_uint (Pos.to_uint p)
              = NilEmpty.string_of_uint (Pos.to_uint p)).
  { destruct (Pos.to_uint p); [congruence|reflexivity..]. }
  rewrite E. clear E.
  assert (V : continued 0 (Pos.to_uint p) = Z.pos p).
  { now rewrite continued_0, Hval. }
  unfold Sscanf_d. rewrite SkipSpace_numeral.
  pose proof (scanNumber_numeral (Pos.to_uint p)) as Hs.
  pose proof (digits_numeral (Pos.to_uint p) 0) as Hd.
  rewrite V in Hd.
  destruct (Pos.to_uint p); [congruence|..];
    cbn [NilEmpty.string_of_uint] in *;
    match goal with
    | |- context [nat_of_ascii ?c] =>
        change (nat_of_ascii c =? 45)%nat with false;
        change (nat_of_ascii c =? 43)%nat with false
    end;
    cbn [orb]; rewrite Hs, Hd;
    replace ((- 2 ^ 63 <=? Z.pos p) && (Z.pos p <=? 2 ^ 63 - 1)) with true
      by (symmetry; apply andb_true_iff; split; apply Z.leb_le; lia);
    reflexivity.
Qed.

Lemma SkipSpace_minus (r : string) :
  SkipSpace (String "-" r) = Some (String "-" r).
Proof. destruct r as [|b [|c r]]; reflexivity. Qed.

(** [Sscanf] reads the numeral of a negative [int64] back as well. *)
Lemma Sscanf_d_itoa_neg (p : positive) :
  - 2 ^ 63 <= Z.neg p -> Sscanf_d (itoa (Z.neg p)) = Some (Z.neg p).
Proof.
  intros Hn. unfold itoa. cbn [Z.to_int NilZero.string_of_int].
  pose proof (DecimalPos.Unsigned.to_uint_nonnil p) as Hnil.
  pose proof (DecimalPos.Unsigned.of_to p) as Hval.
  assert (E : NilZero.string_of_uint (Pos.to_uint p)
              = NilEmpty.string_of_uint (Pos.to_uint p)).
  { destruct (Pos.to_uint p); [congruence|reflexivity..]. }
  rewrite E. clear E.
  assert (V : continued 0 (Pos.to_uint p) = Z.pos p).
  { now rewrite continued_0, Hval. }
  unfold Sscanf_d. rewrite SkipSpace_minus.
  change (nat_of_ascii "-" =? 45)%nat with true. cbn [orb].
  rewrite scanNumber_numeral, digits_numeral, V.
  replace ((- 2 ^ 63 <=? - Z.pos p) && (- Z.pos p <=? 2 ^ 63 - 1)) with true
    by (symmetry; apply andb_true_iff; split; apply Z.leb_le; lia).
  destruct (Pos.to_uint p); [congruence|reflexivity..].
Qed.

End FmtProps.

(** ** The authenticator *)

Module AuthProps.

Import types auth.

(** *** Expiry and validity *)

(** C5. A credential is valid at [now] exactly when [now] is strictly
    before its expiry less the five-minute skew: valid when the expiry is
    more than five minutes ahead, invalid when it is within the window or
    past. *)
Theorem isTokenValid_five_minute_skew
    (a : Authenticator) (t : TokenResponse) (now : time.Time) :
  (isTokenValid (setTokens a (Some t)) now = true
     <-> now < ExpiresAt t - 5 * time.Minute)
  /\ (5 * time.Minute < ExpiresAt t - now
        -> isTokenValid (setTokens a (Some t)) now = true)
  /\ (ExpiresAt t - now <= 5 * time.Minute
        -> isTokenValid (setTokens a (Some t)) now = false).
Proof.
  unfold isTokenValid, time.Before, time.Add; simpl tokens.
  change (-5 * time.Minute) with (- (5 * time.Minute)).
  repeat split.
  - intros H. apply Z.ltb_lt in H. lia.
  - intros H. apply Z.ltb_lt. lia.
  - intros H. apply Z.ltb_lt. lia.
  - intros H. apply Z.ltb_ge. lia.
Qed.

(** Without a credential nothing is valid. *)
Lemma isTokenValid_nil (a : Authenticator) (now : time.Time) :
  isTokenValid (setTokens a None) now = false.
Proof. reflexivity. Qed.

(** C4, as worded, fails: a response with [expires_in] of two hours and no
    [expires_on], parsed at instant 0, gets the one-hour default, not the
    two hours its relative field asks for. *)
Lemma parseExpiration_ignores_expires_in :
  ExpiresAt (parseExpiration 0 sample.token) = 3600 * time.Second
  /\ design.expiresAt 0 sample.token = 7200 * time.Second
  /\ ExpiresAt (parseExpiration 0 sample.token)
     <> design.expiresAt 0 sample.token.
Proof. vm_compute. repeat split; discriminate. Qed.

Lemma Sscanf_d_numeral (n : Z) :
  - 2 ^ 63 <= n < 2 ^ 63 -> fmt.Sscanf_d (fmt.itoa n) = Some n.
Proof.
  intros Hn. destruct n as [|p|p].
  - reflexivity.
  - apply FmtProps.Sscanf_d_itoa. lia.
  - apply FmtProps.Sscanf_d_itoa_neg. lia.
Qed.

(** [time.Unix] is exact as long as the seconds counted from year 1 fit
    an [int64], and 2^64 seconds off beyond. *)
Lemma Unix_exact (n : Z) :
  - 2 ^ 63 <= n <= 2 ^ 63 - 1 - time.unixToInternal ->
  time.Unix n = n * time.Second.
Proof.
  intros Hn. unfold time.Unix, time.int64, time.unixToInternal in *.
  rewrite Z.mod_small by lia. f_equal. lia.
Qed.

Lemma Unix_wrapped (n : Z) :
  2 ^ 63 - 1 - time.unixToInternal < n < 2 ^ 63 ->
  time.Unix n = (n - 2 ^ 64) * time.Second.
Proof.
  intros Hn. unfold time.Unix, time.int64, time.unixToInternal in *.
  replace (n + 62135596800 + 2 ^ 63)
    with (n + 62135596800 + 2 ^ 63 - 2 ^ 64 + 1 * 2 ^ 64) by lia.
  rewrite Z_mod_plus_full, Z.mod_small by lia. f_equal. lia.
Qed.

Lemma parseExpiration_numeral (now : time.Time) (t : TokenResponse) (n : Z) :
  - 2 ^ 63 <= n < 2 ^ 63 -> ExpiresOn t = fmt.itoa n ->
  ExpiresAt (parseExpiration now t) = time.Unix n.
Proof.
  intros Hn E. pose proof (Sscanf_d_numeral n Hn) as R.
  unfold parseExpiration. rewrite E, R.
  destruct (fmt.itoa n); [discriminate R|reflexivity].
Qed.

(** C4, amended. [parseExpiration] always assigns [ExpiresAt] and touches
    nothing else: with a non-empty [expires_on] it is [time.Unix] of the
    integer read from that field (of 0, the epoch, when no integer can be
    read). For the decimal numeral of [n] that is [n] seconds after the
    epoch as long as [n] seconds and the 62135596800 from year 1 to the
    epoch fit an [int64] together; for a greater [n] the sum wraps, and
    the instant lies 2^64 seconds earlier. Without [expires_on] it is one
    hour from now, whatever [expires_in] holds. *)
Theorem parseExpiration_sets_expiry (now : time.Time) (t : TokenResponse) :
  (ExpiresOn t <> ""
     -> ExpiresAt (parseExpiration now t)
        = time.Unix (design.scanned (ExpiresOn t)))
  /\ (forall n, - 2 ^ 63 <= n <= 2 ^ 63 - 1 - time.unixToInternal
        -> ExpiresOn t = fmt.itoa n
        -> ExpiresAt (parseExpiration now t) = n * time.Second)
  /\ (forall n, 2 ^ 63 - 1 - time.unixToInternal < n < 2 ^ 63
        -> ExpiresOn t = fmt.itoa n
        -> ExpiresAt (parseExpiration now t) = (n - 2 ^ 64) * time.Second)
  /\ (ExpiresOn t <> "" -> fmt.Sscanf_d (ExpiresOn t) = None
        -> ExpiresAt (parseExpiration now t) = 0)
  /\ (ExpiresOn t = ""
        -> ExpiresAt (parseExpiration now t) = now + time.Hour)
  /\ (forall stale relative,
        ExpiresOn t = ""
        -> ExpiresAt (parseExpiration now
             {| AccessToken := AccessToken t; RefreshToken := RefreshToken t;
                TokenType := TokenType t; ExpiresIn := relative;
                ExpiresOn := ""; Resource := Resource t; Scope := Scope t;
                ExpiresAt := stale |}) = now + time.Hour)
  /\ (forall stale,
        ExpiresAt (parseExpiration now (withExpiresAt t stale))
        = ExpiresAt (parseExpiration now t))
  /\ parseExpiration now t
     = withExpiresAt t (ExpiresAt (parseExpiration now t)).
Proof.
  refine (conj _ (conj _ (conj _ (conj _ (conj _ (conj _ (conj _ _))))))).
  - intros H. unfold parseExpiration, design.scanned.
    apply TypesProps.nonempty_true in H. rewrite H. reflexivity.
  - intros n Hn E.
    assert (Hr : - 2 ^ 63 <= n < 2 ^ 63)
      by (unfold time.unixToInternal in Hn; lia).
    rewrite (parseExpiration_numeral now t n Hr E). now apply Unix_exact.
  - intros n Hn E.
    assert (Hr : - 2 ^ 63 <= n < 2 ^ 63)
      by (unfold time.unixToInternal in Hn; lia).
    rewrite (parseExpiration_numeral now t n Hr E). now apply Unix_wrapped.
  - intros H Hs. unfold parseExpiration.
    apply TypesProps.nonempty_true in H. rewrite H, Hs. reflexivity.
  - intros H. unfold parseExpiration. rewrite H. reflexivity.
  - intros stale relative H. reflexivity.
  - intros stale. unfold parseExpiration. simpl.
    destruct (nonempty (ExpiresOn t)); reflexivity.
  - unfold parseExpiration.
    destruct (nonempty (ExpiresOn t)); reflexivity.
Qed.

(** *** The poll loop *)

Section PollLoop.

Variable srv : Server.
Variable a : Authenticator.
Variable dc : DeviceCodeResponse.

Let d := pollSleep dc.
Let req := redeemRequest a dc.

Lemma elapsed_nonneg (n N : nat) : 0 <= elapsed srv d n N.
Proof.
  revert n; induction N as [|N IH]; intros n; simpl; [lia|].
  specialize (IH (S n)). unfold time.slept. lia.
Qed.

Lemma elapsed_snoc (n N : nat) :
  elapsed srv d n (S N)
  = elapsed srv d n N + time.slept d + Z.pos (took (srv (n + N)%nat)).
Proof.
  revert n; induction N as [|N IH]; intros n.
  - simpl. rewrite Nat.add_0_r. lia.
  - change (elapsed srv d n (S (S N)))
      with (time.slept d + Z.pos (took (srv n)) + elapsed srv d (S n) (S N)).
    rewrite IH. simpl elapsed.
    replace (S n + N)%nat with (n + S N)%nat by lia. lia.
Qed.

Lemma elapsed_mono (n k N : nat) :
  (k <= N)%nat -> elapsed srv d n k <= elapsed srv d n N.
Proof.
  induction 1 as [|N _ IH]; [lia|].
  rewrite elapsed_snoc. unfold time.slept. lia.
Qed.

Lemma repeat_shift {A : Type} (x : A) (N : nat) (l : list A) :
  (repeat x N ++ x :: l = x :: repeat x N ++ l)%list.
Proof. induction N as [|N IH]; simpl; [reflexivity|]. now rewrite IH. Qed.

Lemma after_0 (w : World) : after srv a dc 0 w = w.
Proof. destruct w; unfold after; simpl. f_equal. lia. Qed.

Lemma after_after (N : nat) (w : World) :
  after srv a dc N (after srv a dc 1 w) = after srv a dc (S N) w.
Proof.
  unfold after; simpl. f_equal; [lia|].
  fold req. now rewrite repeat_shift.
Qed.

Lemma after_snoc (N : nat) (w : World) :
  after srv a dc 1 (after srv a dc N w) = after srv a dc (S N) w.
Proof.
  unfold after; cbn [clock sent tokenFile writeError]. fold d.
  rewrite length_app, repeat_length.
  replace (N + length (sent w))%nat with (length (sent w) + N)%nat by lia.
  f_equal.
  rewrite (elapsed_snoc _ N). simpl. lia.
Qed.

Variable expiresIn : Z.
Variable deadline : time.Time.

Let loop := pollLoop srv a dc (pollInterval dc) expiresIn deadline.

(** The sleep and the attempt of one round. *)
Lemma redeem_after_sleep (w : World) :
  redeemDeviceCode srv a (DeviceCode dc) (Sleep (pollSleep dc) w)
  = (redeemResult (delivered (outcome (srv (length (sent w))))),
     after srv a dc 1 w).
Proof.
  unfold redeemDeviceCode, postForm, after, Sleep, tick; simpl.
  do 2 f_equal. lia.
Qed.

(** One round, entered before the deadline. *)
Lemma pollLoop_round (fuel : nat) (w : World) :
  clock w < deadline ->
  loop (S fuel) w
  = match redeemResult (delivered (outcome (srv (length (sent w))))) with
    | inl err =>
        if strings.Contains err "authorization_pending"
        then loop fuel (after srv a dc 1 w)
        else Some (inl err, after srv a dc 1 w)
    | inr tokens => Some (inr tokens, after srv a dc 1 w)
    end.
Proof.
  intros Hd. unfold loop. cbn [pollLoop].
  unfold time.Before. apply Z.ltb_lt in Hd. rewrite Hd.
  change (time.mul (pollInterval dc) time.Second) with (pollSleep dc).
  rewrite redeem_after_sleep. reflexivity.
Qed.

(** The loop left at or past the deadline. *)
Lemma pollLoop_expired (fuel : nat) (w : World) :
  deadline <= clock w ->
  loop (S fuel) w = Some (inl (timedOut expiresIn), w).
Proof.
  intros Hd. unfold loop. simpl pollLoop.
  unfold time.Before. apply Z.ltb_ge in Hd. now rewrite Hd.
Qed.

(** [N] retried rounds, each entered before the deadline. *)
Lemma pollLoop_rounds (N fuel : nat) (w : World) :
  (forall k, (k < N)%nat -> retried (srv (length (sent w) + k)%nat)) ->
  (forall k, (k < N)%nat
     -> clock w + elapsed srv d (length (sent w)) k < deadline) ->
  loop (N + fuel)%nat w = loop fuel (after srv a dc N w).
Proof.
  revert w; induction N as [|N IH]; intros w Hr Hd.
  - now rewrite after_0.
  - change (S N + fuel)%nat with (S (N + fuel)).
    rewrite pollLoop_round.
    2:{ specialize (Hd 0%nat ltac:(lia)). simpl in Hd. lia. }
    destruct (Hr 0%nat ltac:(lia)) as (err & Herr & Hc).
    rewrite Nat.add_0_r in Herr. rewrite Herr, Hc.
    rewrite IH, after_after; [reflexivity| |].
    + intros k Hk. specialize (Hr (S k) ltac:(lia)).
      simpl. now rewrite Nat.add_succ_r in Hr.
    + intros k Hk. specialize (Hd (S k) ltac:(lia)).
      simpl in Hd |- *. fold d in Hd |- *. lia.
Qed.

(** [N] retried rounds and then an attempt whose result ends the loop. *)
Lemma pollLoop_ends (N fuel : nat) (w : World) (res : error + TokenResponse) :
  (forall k, (k < N)%nat -> retried (srv (length (sent w) + k)%nat)) ->
  redeemResult (delivered (outcome (srv (length (sent w) + N)%nat))) = res ->
  final res ->
  clock w + elapsed srv d (length (sent w)) N < deadline ->
  (N < fuel)%nat ->
  loop fuel w = Some (res, after srv a dc (S N) w).
Proof.
  intros Hr Hres Hfin Hd Hf.
  replace fuel with (N + S (fuel - S N))%nat by lia.
  rewrite pollLoop_rounds; [|exact Hr|].
  2:{ intros k Hk. pose proof (elapsed_mono (length (sent w)) k N). lia. }
  rewrite pollLoop_round by (simpl; fold d; lia).
  assert (L : length (sent (after srv a dc N w)) = (length (sent w) + N)%nat).
  { simpl. rewrite length_app, repeat_length. lia. }
  rewrite L, Hres, after_snoc.
  destruct res as [err|tokens]; [|reflexivity].
  simpl in Hfin. now rewrite Hfin.
Qed.

(** The first round that is entered at or past the deadline. *)
Lemma deadline_reached (m : nat) : forall (c : time.Time) (n : nat),
  deadline - c <= Z.of_nat m ->
  exists N,
    (forall k, (k < N)%nat -> c + elapsed srv d n k < deadline)
    /\ deadline <= c + elapsed srv d n N.
Proof.
  induction m as [|m IH]; intros c n Hm.
  - exists 0%nat. split; [lia|simpl; lia].
  - destruct (Z_lt_le_dec c deadline) as [Hlt|Hge].
    + destruct (IH (c + time.slept d + Z.pos (took (srv n))) (S n)) as (N & Hb & He).
      { unfold time.slept. lia. }
      exists (S N). split.
      * intros [|k] Hk; [simpl; lia|].
        specialize (Hb k ltac:(lia)). simpl. lia.
      * simpl. lia.
    + exists 0%nat. split; [lia|simpl; lia].
Qed.

(** However the loop ends, it has run some number of rounds. *)
Lemma pollLoop_ran (fuel : nat) :
  forall (w w' : World) (r : error + TokenResponse),
    loop fuel w = Some (r, w') -> exists N, w' = after srv a dc N w.
Proof.
  induction fuel as [|fuel IH]; intros w w' r H; [discriminate|].
  destruct (Z_lt_le_dec (clock w) deadline) as [Hlt|Hge].
  - rewrite pollLoop_round in H by exact Hlt.
    destruct (redeemResult _) as [err|tokens].
    + destruct (strings.Contains err "authorization_pending").
      * destruct (IH _ _ _ H) as (N & ->). exists (S N). apply after_after.
      * injection H as _ <-. now exists 1%nat.
    + injection H as _ <-. now exists 1%nat.
  - rewrite pollLoop_expired in H by exact Hge.
    injection H as _ <-. exists 0%nat. symmetry. apply after_0.
Qed.

End PollLoop.

Lemma isPending_retried (r : Reply) : isPending r -> retried r.
Proof.
  intros (b & Ho & He). unfold retried. rewrite Ho. simpl. rewrite He.
  eexists. split; reflexivity.
Qed.

(** C1. When the token endpoint answers [N] times with
    [authorization_pending] and then with a success carrying a non-empty
    access token, and the round that meets the success is entered before
    the deadline, [pollForToken] returns the credential of that response
    after exactly [N + 1] redemption requests. *)
Theorem pollForToken_grants_after_pending
    (srv : Server) (a : Authenticator) (dc : DeviceCodeResponse) (w : World)
    (N : nat) (body : Body) (granted : TokenResponse) (fuel : nat) :
  (forall k, (k < N)%nat -> isPending (srv (length (sent w) + k)%nat)) ->
  outcome (srv (length (sent w) + N)%nat) = Answers body ->
  Error (asError body) = "" ->
  asTokens body = inr granted ->
  AccessToken granted <> "" ->
  clock w + elapsed srv (pollSleep dc) (length (sent w)) N
    < pollDeadline dc (clock w) ->
  (N < fuel)%nat ->
  exists w',
    pollForToken srv fuel a dc w = Some (inr granted, w')
    /\ sent w' = (repeat (redeemRequest a dc) (N + 1) ++ sent w)%list
    /\ length (sent w') = (length (sent w) + (N + 1))%nat
    /\ clock w' = clock w + elapsed srv (pollSleep dc) (length (sent w)) (N + 1).
Proof.
  intros Hp Ho He Ht Ha Hd Hf.
  exists (after srv a dc (S N) w).
  replace (N + 1)%nat with (S N) by lia.
  split; [|split; [reflexivity|split; [|reflexivity]]].
  - unfold pollForToken. apply pollLoop_ends; try assumption.
    + intros k Hk. apply isPending_retried, Hp, Hk.
    + rewrite Ho. simpl. rewrite He. simpl. rewrite Ht.
      apply TypesProps.nonempty_true in Ha. now rewrite Ha.
    + exact I.
  - simpl. rewrite length_app, repeat_length. lia.
Qed.

Lemma pollForToken_grants_after_pending_witness :
  exists w',
    pollForToken sample.grantsThird 3 sample.authenticator sample.session
      sample.start = Some (inr sample.token, w')
    /\ sent w' = (repeat (redeemRequest sample.authenticator sample.session)
                         (2 + 1) ++ sent sample.start)%list
    /\ length (sent w') = (length (sent sample.start) + (2 + 1))%nat
    /\ clock w' = clock sample.start
                  + elapsed sample.grantsThird (pollSleep sample.session)
                      (length (sent sample.start)) (2 + 1).
Proof.
  apply (pollForToken_grants_after_pending sample.grantsThird
           sample.authenticator sample.session sample.start 2
           sample.grantedBody sample.token 3).
  - intros [|[|k]] Hk; [| |lia]; exists sample.pendingBody; split; reflexivity.
  - reflexivity.
  - reflexivity.
  - reflexivity.
  - discriminate.
  - vm_compute. reflexivity.
  - lia.
Defined.

(** C2, as worded, fails: with a poll interval of one second, a session
    of two seconds and pending answers that take three seconds each, the
    loop returns its timeout four seconds after it was entered, which is
    two seconds past the deadline and so more than one poll interval. *)
Lemma pollForToken_overshoots_deadline :
  (forall k, isPending (sample.pendingSlowly k))
  /\ exists w',
       pollForToken sample.pendingSlowly 2 sample.authenticator
         sample.shortSession sample.start
       = Some (inl "authentication timed out after 2 seconds", w')
       /\ pollInterval sample.shortSession = 1
       /\ clock w' - pollDeadline sample.shortSession (clock sample.start)
          = 2 * time.Second
       /\ pollDeadline sample.shortSession (clock sample.start)
            + pollInterval sample.shortSession * time.Second < clock w'.
Proof.
  split.
  - intros k. exists sample.pendingBody. split; reflexivity.
  - eexists. split; [vm_compute; reflexivity|].
    vm_compute. repeat split; reflexivity.
Qed.

(** C2, amended. When every redemption attempt yields
    [authorization_pending], [pollForToken] returns its timeout error
    after finitely many rounds, on the first evaluation of the loop
    condition at or past the deadline. If no round was run, nothing
    happened; otherwise the clock then reads less than the deadline plus
    one sleep of the poll interval plus the duration of the last
    redemption request. *)
Theorem pollForToken_times_out_when_pending
    (srv : Server) (a : Authenticator) (dc : DeviceCodeResponse) (w : World) :
  (forall k, isPending (srv (length (sent w) + k)%nat)) ->
  exists N,
    (forall fuel, (N < fuel)%nat ->
       pollForToken srv fuel a dc w
       = Some (inl (timedOut (pollExpiresIn dc)), after srv a dc N w))
    /\ (forall k, (k < N)%nat ->
          clock (after srv a dc k w) < pollDeadline dc (clock w))
    /\ pollDeadline dc (clock w) <= clock (after srv a dc N w)
    /\ (N = 0%nat -> after srv a dc N w = w)
    /\ ((0 < N)%nat ->
          clock (after srv a dc N w)
          < pollDeadline dc (clock w) + time.slept (pollSleep dc)
            + Z.pos (took (srv (length (sent w) + (N - 1))%nat))).
Proof.
  intros Hp.
  destruct (deadline_reached srv dc (pollDeadline dc (clock w))
              (Z.to_nat (pollDeadline dc (clock w) - clock w))
              (clock w) (length (sent w)) ltac:(lia)) as (N & Hb & He).
  exists N. refine (conj _ (conj _ (conj _ (conj _ _)))).
  - intros fuel Hf. unfold pollForToken.
    replace fuel with (N + S (fuel - S N))%nat by lia.
    rewrite pollLoop_rounds.
    + apply pollLoop_expired. exact He.
    + intros k _. apply isPending_retried, Hp.
    + exact Hb.
  - exact Hb.
  - exact He.
  - intros ->. apply after_0.
  - intros HN. destruct N as [|N]; [lia|].
    specialize (Hb N ltac:(lia)). unfold after; cbn [clock].
    rewrite elapsed_snoc. replace (S N - 1)%nat with N by lia. lia.
Qed.

Lemma pollForToken_times_out_when_pending_witness :
  exists N,
    (forall fuel, (N < fuel)%nat ->
       pollForToken sample.pendingForEver fuel sample.authenticator
         sample.session sample.start
       = Some (inl (timedOut (pollExpiresIn sample.session)),
               after sample.pendingForEver sample.authenticator
                 sample.session N sample.start))
    /\ (forall k, (k < N)%nat ->
          clock (after sample.pendingForEver sample.authenticator
                   sample.session k sample.start)
          < pollDeadline sample.session (clock sample.start))
    /\ pollDeadline sample.session (clock sample.start)
       <= clock (after sample.pendingForEver sample.authenticator
                   sample.session N sample.start)
    /\ (N = 0%nat ->
        after sample.pendingForEver sample.authenticator sample.session N
          sample.start = sample.start)
    /\ ((0 < N)%nat ->
          clock (after sample.pendingForEver sample.authenticator
                   sample.session N sample.start)
          < pollDeadline sample.session (clock sample.start)
            + time.slept (pollSleep sample.session)
            + Z.pos (took (sample.pendingForEver
                             (length (sent sample.start) + (N - 1))%nat))).
Proof.
  apply (pollForToken_times_out_when_pending sample.pendingForEver
           sample.authenticator sample.session sample.start).
  intros k. exists sample.pendingBody. split; reflexivity.
Defined.

(** C3, as worded, fails: a refused connection on the first attempt ends
    the flow with that error after one request, well before the deadline,
    although the next attempt would have been granted. *)
Lemma pollForToken_stops_at_transport_error :
  outcome (sample.refusedFirst 0%nat)
  = DoFails "dial tcp 20.190.151.7:443: connect: connection refused"
  /\ redeemResult (delivered (outcome (sample.refusedFirst 1%nat)))
     = inr sample.token
  /\ exists w',
       pollForToken sample.refusedFirst 3 sample.authenticator sample.session
         sample.start
       = Some (inl "dial tcp 20.190.151.7:443: connect: connection refused", w')
       /\ sent w' = [redeemRequest sample.authenticator sample.session]
       /\ clock w' < pollDeadline sample.session (clock sample.start).
Proof.
  split; [reflexivity|]. split; [reflexivity|].
  eexists. split; [vm_compute; reflexivity|].
  split; vm_compute; reflexivity.
Qed.

(** C3, amended. An attempt that fails with a transport error ends the
    flow: the error is returned to the caller as it is and no further
    request is made, unless its message contains [authorization_pending].
    The same holds for every other error of an attempt whose message does
    not contain [authorization_pending]; the errors before it, whose
    messages do, were each retried after one more sleep of the poll
    interval. *)
Theorem pollForToken_error_ends_flow
    (srv : Server) (a : Authenticator) (dc : DeviceCodeResponse) (w : World)
    (N fuel : nat) :
  (forall k, (k < N)%nat -> retried (srv (length (sent w) + k)%nat)) ->
  clock w + elapsed srv (pollSleep dc) (length (sent w)) N
    < pollDeadline dc (clock w) ->
  (N < fuel)%nat ->
  (forall err,
     outcome (srv (length (sent w) + N)%nat) = DoFails err ->
     strings.Contains err "authorization_pending" = false ->
     pollForToken srv fuel a dc w = Some (inl err, after srv a dc (S N) w))
  /\ (forall err,
        redeemResult (delivered (outcome (srv (length (sent w) + N)%nat)))
        = inl err ->
        strings.Contains err "authorization_pending" = false ->
        pollForToken srv fuel a dc w = Some (inl err, after srv a dc (S N) w))
  /\ sent (after srv a dc (S N) w)
     = (repeat (redeemRequest a dc) (S N) ++ sent w)%list.
Proof.
  intros Hr Hd Hf.
  assert (G : forall err,
             redeemResult (delivered (outcome (srv (length (sent w) + N)%nat)))
             = inl err ->
             strings.Contains err "authorization_pending" = false ->
             pollForToken srv fuel a dc w
             = Some (inl err, after srv a dc (S N) w)).
  { intros err He Hc. unfold pollForToken.
    apply pollLoop_ends; assumption. }
  refine (conj _ (conj G _)); [|reflexivity].
  intros err Ho Hc. apply G; [|exact Hc]. now rewrite Ho.
Qed.

Lemma pollForToken_error_ends_flow_witness :
  (forall err,
     outcome (sample.refusedFirst (length (sent sample.start) + 0)%nat)
     = DoFails err ->
     strings.Contains err "authorization_pending" = false ->
     pollForToken sample.refusedFirst 1 sample.authenticator sample.session
       sample.start
     = Some (inl err, after sample.refusedFirst sample.authenticator
                        sample.session 1 sample.start))
  /\ (forall err,
        redeemResult (delivered (outcome
          (sample.refusedFirst (length (sent sample.start) + 0)%nat)))
        = inl err ->
        strings.Contains err "authorization_pending" = false ->
        pollForToken sample.refusedFirst 1 sample.authenticator
          sample.session sample.start
        = Some (inl err, after sample.refusedFirst sample.authenticator
                           sample.session 1 sample.start))
  /\ sent (after sample.refusedFirst sample.authenticator sample.session 1
             sample.start)
     = (repeat (redeemRequest sample.authenticator sample.session) 1
          ++ sent sample.start)%list.
Proof.
  apply (pollForToken_error_ends_flow sample.refusedFirst
           sample.authenticator sample.session sample.start 0 1).
  - intros k Hk. lia.
  - vm_compute. reflexivity.
  - lia.
Defined.

(** *** Refresh and fall-back *)

(** A failing refresh changes neither the authenticator nor the token
    file; the world has one more request behind it. *)
Lemma refresh_fails (srv : Server) (a : Authenticator) (t : TokenResponse)
    (w : World) :
  refreshFails (outcome (srv (length (sent w)))) ->
  exists err, refresh srv a t w = (Some err, a, afterRefresh srv a t w).
Proof.
  unfold refresh, postForm, afterRefresh, refreshRequest.
  destruct (outcome (srv (length (sent w)))) as [e|e|b]; simpl.
  - intros _. now exists e.
  - intros _. now exists e.
  - destruct (asTokens b) as [e|t']; [intros _; now exists e|].
    intros H. apply TypesProps.nonempty_false in H. rewrite H.
    eexists. reflexivity.
Qed.

(** The device-code flow begins with the device-code request and leaves
    it behind whatever follows. *)
Lemma deviceCodeAuth_requests_code (srv : Server) (fuel : nat)
    (a a' : Authenticator) (w w' : World) (r : error + TokenResponse) :
  deviceCodeAuth srv fuel a w = Some (r, a', w') ->
  exists l, sent w' = (l ++ deviceCodeRequest a :: sent w)%list.
Proof.
  unfold deviceCodeAuth, requestDeviceCode, postForm.
  set (w1 := {| clock := _; sent := _ :: sent w |}).
  destruct (delivered _) as [e|[e|b]].
  - intros H. injection H as _ _ <-. now exists [].
  - intros H. injection H as _ _ <-. now exists [].
  - destruct (asDeviceCode b) as [e|dc].
    + intros H. injection H as _ _ <-. now exists [].
    + destruct (pollForToken srv fuel a dc w1) as [[[e|t] w2]|] eqn:P;
        [| |discriminate].
      * intros H. injection H as _ _ <-.
        destruct (pollLoop_ran _ _ _ _ _ _ _ _ _ P) as (N & ->).
        now exists (repeat (redeemRequest a dc) N).
      * destruct (pollLoop_ran _ _ _ _ _ _ _ _ _ P) as (N & ->).
        unfold saveTokens.
        destruct (writeError _ _); intros H; injection H as _ _ <-;
          now exists (repeat (redeemRequest a dc) N).
Qed.

(** C6. When the cached credential has expired and its refresh request
    fails, the refresh leaves the credential in memory and the token file
    as they were, and [GetTokens] and [GetAccessToken] return what the
    full device-code flow returns, run from there: the device-code
    request follows the refresh request. *)
Theorem refresh_failure_falls_back
    (srv : Server) (fuel : nat) (a : Authenticator) (w : World)
    (cached : TokenResponse) :
  tokenFile w = Holds (inr cached) ->
  isTokenValid (setTokens a (Some cached)) (clock w) = false ->
  RefreshToken cached <> "" ->
  refreshFails (outcome (srv (length (sent w)))) ->
  (exists err,
     refresh srv (setTokens a (Some cached)) cached w
     = (Some err, setTokens a (Some cached), afterRefresh srv a cached w))
  /\ tokens (setTokens a (Some cached)) = Some cached
  /\ tokenFile (afterRefresh srv a cached w) = tokenFile w
  /\ GetTokens srv fuel a w
     = deviceCodeAuth srv fuel (setTokens a (Some cached))
         (afterRefresh srv a cached w)
  /\ GetAccessToken srv fuel a w
     = match deviceCodeAuth srv fuel (setTokens a (Some cached))
               (afterRefresh srv a cached w) with
       | None => None
       | Some (inl err, a', w') => Some (inl err, a', w')
       | Some (inr granted, a', w') => Some (inr (AccessToken granted), a', w')
       end
  /\ (forall r a' w',
        GetTokens srv fuel a w = Some (r, a', w') ->
        exists l,
          sent w' = (l ++ deviceCodeRequest a
                       :: refreshRequest a cached :: sent w)%list).
Proof.
  intros Hfile Hstale Hrt Hfail.
  destruct (refresh_fails srv (setTokens a (Some cached)) cached w Hfail)
    as (err & Hrefresh).
  assert (G : GetTokens srv fuel a w
              = deviceCodeAuth srv fuel (setTokens a (Some cached))
                  (afterRefresh srv a cached w)).
  { unfold GetTokens, loadTokens. rewrite Hfile. cbn [tokens setTokens].
    rewrite Hstale. apply TypesProps.nonempty_true in Hrt. rewrite Hrt.
    rewrite Hrefresh. reflexivity. }
  refine (conj _ (conj eq_refl (conj eq_refl (conj G (conj _ _))))).
  - exists err. exact Hrefresh.
  - unfold GetAccessToken. now rewrite G.
  - intros r a' w' H. rewrite G in H.
    apply deviceCodeAuth_requests_code in H. exact H.
Qed.

Lemma refresh_failure_falls_back_witness :
  (exists err,
     refresh sample.refreshDenied
       (setTokens sample.authenticator (Some sample.staleToken))
       sample.staleToken sample.startCached
     = (Some err, setTokens sample.authenticator (Some sample.staleToken),
        afterRefresh sample.refreshDenied sample.authenticator
          sample.staleToken sample.startCached))
  /\ tokens (setTokens sample.authenticator (Some sample.staleToken))
     = Some sample.staleToken
  /\ tokenFile (afterRefresh sample.refreshDenied sample.authenticator
                  sample.staleToken sample.startCached)
     = tokenFile sample.startCached
  /\ GetTokens sample.refreshDenied 5 sample.authenticator sample.startCached
     = deviceCodeAuth sample.refreshDenied 5
         (setTokens sample.authenticator (Some sample.staleToken))
         (afterRefresh sample.refreshDenied sample.authenticator
            sample.staleToken sample.startCached)
  /\ GetAccessToken sample.refreshDenied 5 sample.authenticator
       sample.startCached
     = match deviceCodeAuth sample.refreshDenied 5
               (setTokens sample.authenticator (Some sample.staleToken))
               (afterRefresh sample.refreshDenied sample.authenticator
                  sample.staleToken sample.startCached) with
       | None => None
       | Some (inl err, a', w') => Some (inl err, a', w')
       | Some (inr granted, a', w') => Some (inr (AccessToken granted), a', w')
       end
  /\ (forall r a' w',
        GetTokens sample.refreshDenied 5 sample.authenticator
          sample.startCached = Some (r, a', w') ->
        exists l,
          sent w' = (l ++ deviceCodeRequest sample.authenticator
                       :: refreshRequest sample.authenticator sample.staleToken
                       :: sent sample.startCached)%list).
Proof.
  apply (refresh_failure_falls_back sample.refreshDenied 5
           sample.authenticator sample.startCached sample.staleToken).
  - reflexivity.
  - reflexivity.
  - discriminate.
  - reflexivity.
Defined.

(** *** Further properties of the device-code flow *)

Lemma parseIntOrDefault_floor (s : string) (defaultVal : Z) :
  0 < defaultVal -> 0 < parseIntOrDefault s defaultVal.
Proof.
  unfold parseIntOrDefault.
  intros Hd. destruct (fmt.Sscanf_d s) as [v|]; [|exact Hd].
  destruct (Z.leb_spec v 0); lia.
Qed.

(** X1. [parseIntOrDefault] yields the default unless the string scans to
    a positive integer, which it then yields: with a positive default the
    result is positive, the decimal numeral of a positive [int64] is
    taken as it is, and the numeral of zero or of a negative number, like
    the empty string, gives the default. *)
Theorem parseIntOrDefault_positive_or_default (s : string) (defaultVal n : Z) :
  (0 < defaultVal -> 0 < parseIntOrDefault s defaultVal)
  /\ (parseIntOrDefault s defaultVal <> defaultVal
        -> fmt.Sscanf_d s = Some (parseIntOrDefault s defaultVal)
           /\ 0 < parseIntOrDefault s defaultVal)
  /\ (0 < n < 2 ^ 63 -> parseIntOrDefault (fmt.itoa n) defaultVal = n)
  /\ (- 2 ^ 63 <= n <= 0 -> parseIntOrDefault (fmt.itoa n) defaultVal = defaultVal)
  /\ parseIntOrDefault "" defaultVal = defaultVal.
Proof.
  unfold parseIntOrDefault.
  refine (conj _ (conj _ (conj _ (conj _ eq_refl)))).
  - intros Hd. destruct (fmt.Sscanf_d s) as [v|]; [|exact Hd].
    destruct (Z.leb_spec v 0); lia.
  - destruct (fmt.Sscanf_d s) as [v|]; [|congruence].
    destruct (Z.leb_spec v 0); [congruence|]. intros _. split; [reflexivity|lia].
  - intros Hn. rewrite FmtProps.Sscanf_d_itoa by lia.
    destruct (Z.leb_spec n 0); [lia|reflexivity].
  - intros Hn. destruct n as [|p|p]; [reflexivity|lia|].
    rewrite FmtProps.Sscanf_d_itoa_neg by lia. reflexivity.
Qed.

Section PollRuns.

Variable srv : Server.
Variable a : Authenticator.
Variable dc : DeviceCodeResponse.
Variable expiresIn : Z.
Variable deadline : time.Time.

Let loop := pollLoop srv a dc (pollInterval dc) expiresIn deadline.

Lemma clock_after_1 (w : World) : clock w < clock (after srv a dc 1 w).
Proof. unfold after; simpl. unfold time.slept. lia. Qed.

Lemma sent_after_1 (w : World) :
  length (sent (after srv a dc 1 w)) = S (length (sent w)).
Proof. reflexivity. Qed.

(** Every run of the loop that returns has gone as [ranTo] says. *)
Lemma pollLoop_inv (fuel : nat) :
  forall (w w' : World) (r : error + TokenResponse),
    loop fuel w = Some (r, w') -> ranTo srv a dc expiresIn deadline w r w'.
Proof.
  unfold ranTo, ranIn.
  induction fuel as [|fuel IH]; intros w w' r H; [discriminate|].
  destruct (Z_lt_le_dec (clock w) deadline) as [Hlt|Hge].
  - unfold loop in H. rewrite pollLoop_round in H by exact Hlt.
    destruct (redeemResult (delivered (outcome (srv (length (sent w))))))
      as [err|tokens] eqn:R.
    + destruct (strings.Contains err "authorization_pending") eqn:C.
      * destruct (IH _ _ _ H) as (N & Hk & Hend). exists (S N). split.
        -- intros [|k] Hlt'.
           ++ rewrite Nat.add_0_r, after_0. split; [|exact Hlt].
              exists err. now split.
           ++ destruct (Hk k ltac:(lia)) as (Hr & Hc).
              rewrite sent_after_1 in Hr. rewrite after_after in Hc.
              rewrite Nat.add_succ_r. now split.
        -- rewrite sent_after_1, !after_after in Hend.
           rewrite Nat.add_succ_r. exact Hend.
      * injection H as <- <-. exists 0%nat. split; [intros k Hk; lia|].
        right. rewrite Nat.add_0_r, after_0. rewrite R. now repeat split.
    + injection H as <- <-. exists 0%nat. split; [intros k Hk; lia|].
      right. rewrite Nat.add_0_r, after_0. rewrite R. repeat split. exact Hlt.
  - unfold loop in H. rewrite pollLoop_expired in H by exact Hge.
    injection H as <- <-. exists 0%nat. split; [intros k Hk; lia|].
    left. rewrite after_0. now repeat split.
Qed.

(** A run that has gone so is what the loop returns, with fuel for one
    more evaluation of its condition than rounds it retries. *)
Lemma ranIn_runs (N fuel : nat) (w w' : World) (r : error + TokenResponse) :
  ranIn srv a dc expiresIn deadline w N r w' ->
  (N < fuel)%nat ->
  loop fuel w = Some (r, w').
Proof.
  intros (Hk & Hend) Hf.
  destruct Hend as [(-> & Hd & ->)|(Hr & Hfin & Hd & ->)].
  - replace fuel with (N + S (fuel - S N))%nat by lia.
    unfold loop. rewrite pollLoop_rounds.
    + now apply pollLoop_expired.
    + intros k Hlt. apply Hk, Hlt.
    + intros k Hlt. apply (Hk k Hlt).
  - unfold loop. apply pollLoop_ends; try assumption.
    intros k Hlt. apply Hk, Hlt.
Qed.

(** The loop returns whatever the server does. *)
Lemma pollLoop_total (m : nat) : forall (w : World),
  deadline - clock w <= Z.of_nat m ->
  exists N r w', ranIn srv a dc expiresIn deadline w N r w'.
Proof.
  induction m as [|m IH]; intros w Hm.
  - exists 0%nat, (inl (timedOut expiresIn)), w.
    split; [intros k Hk; lia|]. left. rewrite after_0. repeat split. lia.
  - destruct (Z_lt_le_dec (clock w) deadline) as [Hlt|Hge].
    + destruct (redeemResult (delivered (outcome (srv (length (sent w))))))
        as [err|tokens] eqn:R.
      * destruct (strings.Contains err "authorization_pending") eqn:C.
        -- destruct (IH (after srv a dc 1 w)) as (N & r & w' & Hk & Hend).
           { pose proof (clock_after_1 w). lia. }
           exists (S N), r, w'. split.
           ++ intros [|k] Hlt'.
              ** rewrite Nat.add_0_r, after_0. split; [|exact Hlt].
                 exists err. now split.
              ** destruct (Hk k ltac:(lia)) as (Hr & Hc).
                 rewrite sent_after_1 in Hr. rewrite after_after in Hc.
                 rewrite Nat.add_succ_r. now split.
           ++ rewrite sent_after_1, !after_after in Hend.
              rewrite Nat.add_succ_r. exact Hend.
        -- exists 0%nat, (inl err), (after srv a dc 1 w).
           split; [intros k Hk; lia|]. right.
           rewrite Nat.add_0_r, after_0, R. now repeat split.
      * exists 0%nat, (inr tokens), (after srv a dc 1 w).
        split; [intros k Hk; lia|]. right.
        rewrite Nat.add_0_r, after_0, R. repeat split. exact Hlt.
    + exists 0%nat, (inl (timedOut expiresIn)), w.
      split; [intros k Hk; lia|]. left. rewrite after_0. now repeat split.
Qed.

(** More fuel does not change what the loop returns. *)
Lemma pollLoop_mono (fuel : nat) :
  forall (fuel' : nat) (w : World) (x : (error + TokenResponse) * World),
    loop fuel w = Some x -> (fuel <= fuel')%nat -> loop fuel' w = Some x.
Proof.
  induction fuel as [|fuel IH]; intros fuel' w x H Hf; [discriminate|].
  destruct fuel' as [|fuel']; [lia|].
  destruct (Z_lt_le_dec (clock w) deadline) as [Hlt|Hge].
  - unfold loop in *. rewrite pollLoop_round in H |- * by exact Hlt.
    destruct (redeemResult _) as [err|tokens]; [|exact H].
    destruct (strings.Contains err "authorization_pending"); [|exact H].
    apply IH; [exact H|lia].
  - unfold loop in *. rewrite pollLoop_expired in H |- * by exact Hge.
    exact H.
Qed.

End PollRuns.

(** Each round takes at least its sleep and one tick. *)
Lemma elapsed_paced (srv : Server) (d : time.Duration) (N : nat) : forall n,
  Z.of_nat N * (time.slept d + 1) <= elapsed srv d n N.
Proof.
  induction N as [|N IH]; intros n; [simpl; lia|].
  rewrite Nat2Z.inj_succ, Z.mul_succ_l. simpl elapsed.
  specialize (IH (S n)). lia.
Qed.

(** X2. [pollForToken] returns whatever the server answers: after some
    number [N] of retried rounds, each entered before the deadline, it
    ends at the deadline or with the attempt of one more round. Fuel
    beyond [N] gives that result, and no fuel gives another. The rounds
    are bounded by the session: [N] times a sleep and a tick is at most
    the time to the deadline and one sleep. *)
Theorem pollForToken_terminates
    (srv : Server) (a : Authenticator) (dc : DeviceCodeResponse) (w : World) :
  exists N r w',
    ranIn srv a dc (pollExpiresIn dc) (pollDeadline dc (clock w)) w N r w'
    /\ (forall fuel, (N < fuel)%nat ->
          pollForToken srv fuel a dc w = Some (r, w'))
    /\ (forall fuel x, pollForToken srv fuel a dc w = Some x -> x = (r, w'))
    /\ Z.of_nat N * (time.slept (pollSleep dc) + 1)
       <= Z.max 0 (pollDeadline dc (clock w) - clock w
                   + time.slept (pollSleep dc)).
Proof.
  destruct (pollLoop_total srv a dc (pollExpiresIn dc) (pollDeadline dc (clock w))
              (Z.to_nat (pollDeadline dc (clock w) - clock w)) w ltac:(lia))
    as (N & r & w' & Hran).
  exists N, r, w'.
  assert (Hrun : forall fuel, (N < fuel)%nat ->
                   pollForToken srv fuel a dc w = Some (r, w')).
  { intros fuel Hf. unfold pollForToken. now apply (ranIn_runs _ _ _ _ _ N). }
  refine (conj Hran (conj Hrun (conj _ _))).
  - intros fuel x Hx.
    pose proof (pollLoop_mono _ _ _ _ _ _ (Nat.max fuel (S N)) _ _ Hx
                  ltac:(lia)) as H1.
    specialize (Hrun (Nat.max fuel (S N)) ltac:(lia)).
    unfold pollForToken in Hrun. congruence.
  - destruct N as [|N]; [lia|].
    destruct Hran as (Hk & _). destruct (Hk N ltac:(lia)) as (_ & Hc).
    unfold after in Hc; cbn [clock] in Hc.
    pose proof (elapsed_paced srv (pollSleep dc) N (length (sent w))) as Hp.
    rewrite Nat2Z.inj_succ, Z.mul_succ_l.
    unfold time.slept in *. lia.
Qed.

Lemma redeemResult_granted (x : error + (error + Body)) (t : TokenResponse) :
  redeemResult x = inr t ->
  exists b, x = inr (inr b) /\ Error (asError b) = ""
            /\ asTokens b = inr t /\ AccessToken t <> "".
Proof.
  destruct x as [e|[e|b]]; simpl; try discriminate.
  destruct (nonempty (Error (asError b))) eqn:E; [discriminate|].
  destruct (asTokens b) as [e|t'] eqn:T; [discriminate|].
  destruct (nonempty (AccessToken t')) eqn:A; [|discriminate].
  intros H. injection H as <-. exists b.
  apply TypesProps.nonempty_false in E. apply TypesProps.nonempty_true in A.
  now repeat split.
Qed.

Lemma delivered_answers (o : Outcome) (b : Body) :
  delivered o = inr (inr b) -> o = Answers b.
Proof. destruct o; simpl; congruence. Qed.

Lemma pollForToken_granted_shape
    (srv : Server) (fuel : nat) (a : Authenticator) (dc : DeviceCodeResponse)
    (w w' : World) (granted : TokenResponse) :
  pollForToken srv fuel a dc w = Some (inr granted, w') ->
  AccessToken granted <> ""
  /\ tokenFile w' = tokenFile w
  /\ exists N b,
       w' = after srv a dc (S N) w
       /\ outcome (srv (length (sent w) + N)%nat) = Answers b
       /\ Error (asError b) = ""
       /\ asTokens b = inr granted
       /\ clock (after srv a dc N w) < pollDeadline dc (clock w).
Proof.
  intros H. apply pollLoop_inv in H. destruct H as (N & _ & Hend).
  destruct Hend as [(Hr & _)|(Hr & _ & Hd & ->)]; [discriminate Hr|].
  destruct (redeemResult_granted _ _ Hr) as (b & Hb & He & Ht & Ha).
  apply delivered_answers in Hb.
  refine (conj Ha (conj eq_refl _)). exists N, b. now repeat split.
Qed.

(** X3. A credential that [pollForToken] returns has a non-empty access
    token and is what the last response decodes to, a response without an
    error code that was asked for in a round entered before the deadline;
    the loop has not touched the token file. *)
Theorem pollForToken_credential_is_granted
    (srv : Server) (fuel : nat) (a : Authenticator) (dc : DeviceCodeResponse)
    (w w' : World) (granted : TokenResponse) :
  pollForToken srv fuel a dc w = Some (inr granted, w') ->
  AccessToken granted <> ""
  /\ tokenFile w' = tokenFile w
  /\ exists N b,
       w' = after srv a dc (S N) w
       /\ outcome (srv (length (sent w) + N)%nat) = Answers b
       /\ Error (asError b) = ""
       /\ asTokens b = inr granted
       /\ clock (after srv a dc N w) < pollDeadline dc (clock w).
Proof. apply pollForToken_granted_shape. Qed.

Lemma pollForToken_credential_is_granted_witness :
  AccessToken sample.token <> ""
  /\ tokenFile (after sample.grantsThird sample.authenticator sample.session 3
                  sample.start) = tokenFile sample.start
  /\ exists N b,
       after sample.grantsThird sample.authenticator sample.session 3
         sample.start
       = after sample.grantsThird sample.authenticator sample.session (S N)
           sample.start
       /\ outcome (sample.grantsThird (length (sent sample.start) + N)%nat)
          = Answers b
       /\ Error (asError b) = ""
       /\ asTokens b = inr sample.token
       /\ clock (after sample.grantsThird sample.authenticator sample.session N
                   sample.start)
          < pollDeadline sample.session (clock sample.start).
Proof.
  apply (pollForToken_credential_is_granted sample.grantsThird 3
           sample.authenticator sample.session sample.start).
  vm_compute. reflexivity.
Defined.

Lemma prefix_mentions (c : ascii) : forall sub s,
  String.prefix sub s = true -> mentions c sub = true -> mentions c s = true.
Proof.
  induction sub as [|x sub IH]; intros s Hp Hm; [discriminate Hm|].
  destruct s as [|y s]; [discriminate Hp|].
  simpl in Hp. destruct (ascii_dec x y) as [->|]; [|discriminate Hp].
  simpl in Hm |- *. destruct (Ascii.eqb c y); [reflexivity|].
  simpl in Hm |- *. now apply IH.
Qed.

Lemma Contains_mentions (c : ascii) (sub : string) : forall s,
  strings.Contains s sub = true -> mentions c sub = true -> mentions c s = true.
Proof.
  induction s as [|y s IH]; intros Hc Hm.
  - destruct sub; [discriminate Hm|discriminate Hc].
  - change (strings.Contains (String y s) sub)
      with (if String.prefix sub (String y s) then true
            else strings.Contains s sub) in Hc.
    destruct (String.prefix sub (String y s)) eqn:P.
    + now apply (prefix_mentions c sub).
    + simpl. rewrite (IH Hc Hm). apply orb_true_r.
Qed.

Lemma mentions_app (c : ascii) (s1 s2 : string) :
  mentions c (s1 ++ s2) = mentions c s1 || mentions c s2.
Proof.
  induction s1 as [|x s1 IH]; simpl; [reflexivity|].
  now rewrite IH, orb_assoc.
Qed.

Lemma itoa_digits_only (e : Z) : mentions "z" (fmt.itoa e) = false.
Proof.
  assert (U : forall u, mentions "z" (NilEmpty.string_of_uint u) = false).
  { induction u; simpl; auto. }
  assert (V : forall u, mentions "z" (NilZero.string_of_uint u) = false).
  { intros u. destruct u; try apply U. reflexivity. }
  unfold fmt.itoa. destruct (Z.to_int e); simpl; apply V.
Qed.

(** The timeout message does not read as a pending answer. *)
Lemma timedOut_not_pending (e : Z) :
  strings.Contains (timedOut e) "authorization_pending" = false.
Proof.
  destruct (strings.Contains (timedOut e) "authorization_pending") eqn:C;
    [|reflexivity].
  apply (Contains_mentions "z") in C; [|reflexivity].
  unfold timedOut in C. rewrite !mentions_app, itoa_digits_only in C.
  discriminate C.
Qed.

Lemma pollForToken_error_shape
    (srv : Server) (fuel : nat) (a : Authenticator) (dc : DeviceCodeResponse)
    (w w' : World) (err : error) :
  pollForToken srv fuel a dc w = Some (inl err, w') ->
  strings.Contains err "authorization_pending" = false
  /\ tokenFile w' = tokenFile w
  /\ ((err = timedOut (pollExpiresIn dc)
       /\ pollDeadline dc (clock w) <= clock w')
      \/ exists N,
           redeemResult (delivered (outcome (srv (length (sent w) + N)%nat)))
           = inl err
           /\ w' = after srv a dc (S N) w).
Proof.
  intros H. apply pollLoop_inv in H. destruct H as (N & _ & Hend).
  destruct Hend as [(Hr & Hd & ->)|(Hr & Hfin & Hd & ->)].
  - injection Hr as ->.
    refine (conj (timedOut_not_pending _) (conj eq_refl _)). left. now split.
  - rewrite <- Hr in Hfin |- *. rewrite Hr in Hfin. simpl in Hfin.
    refine (conj Hfin (conj eq_refl _)). right. exists N. now split.
Qed.

(** X4. An error that [pollForToken] returns never contains
    [authorization_pending]: it is the timeout message, returned at or
    past the deadline, or the error of the last attempt, which does not
    contain it. The loop has not touched the token file. *)
Theorem pollForToken_never_surfaces_pending
    (srv : Server) (fuel : nat) (a : Authenticator) (dc : DeviceCodeResponse)
    (w w' : World) (err : error) :
  pollForToken srv fuel a dc w = Some (inl err, w') ->
  strings.Contains err "authorization_pending" = false
  /\ tokenFile w' = tokenFile w
  /\ ((err = timedOut (pollExpiresIn dc)
       /\ pollDeadline dc (clock w) <= clock w')
      \/ exists N,
           redeemResult (delivered (outcome (srv (length (sent w) + N)%nat)))
           = inl err
           /\ w' = after srv a dc (S N) w).
Proof. apply pollForToken_error_shape. Qed.

Lemma pollForToken_never_surfaces_pending_witness :
  strings.Contains "dial tcp 20.190.151.7:443: connect: connection refused"
    "authorization_pending" = false
  /\ tokenFile (after sample.refusedFirst sample.authenticator sample.session 1
                  sample.start) = tokenFile sample.start
  /\ (("dial tcp 20.190.151.7:443: connect: connection refused"
       = timedOut (pollExpiresIn sample.session)
       /\ pollDeadline sample.session (clock sample.start)
          <= clock (after sample.refusedFirst sample.authenticator
                      sample.session 1 sample.start))
      \/ exists N,
           redeemResult (delivered (outcome
             (sample.refusedFirst (length (sent sample.start) + N)%nat)))
           = inl "dial tcp 20.190.151.7:443: connect: connection refused"
           /\ after sample.refusedFirst sample.authenticator sample.session 1
                sample.start
              = after sample.refusedFirst sample.authenticator sample.session
                  (S N) sample.start).
Proof.
  apply (pollForToken_never_surfaces_pending sample.refusedFirst 1
           sample.authenticator sample.session sample.start).
  vm_compute. reflexivity.
Defined.

Lemma int64_small (z : Z) : - 2 ^ 63 <= z < 2 ^ 63 -> time.int64 z = z.
Proof. intros H. unfold time.int64. rewrite Z.mod_small; lia. Qed.

(** X5. The poll interval and the session lifetime are at least one
    second, 5 and 900 seconds when the response leaves them out; up to
    9223372036 seconds the sleep of a round is exactly the interval and the
    deadline exactly the lifetime after the start. *)
Theorem poll_timing_in_range (dc : DeviceCodeResponse) (now : time.Time) :
  1 <= pollInterval dc
  /\ 1 <= pollExpiresIn dc
  /\ (Interval dc = "" -> pollInterval dc = 5)
  /\ (dcExpiresIn dc = "" -> pollExpiresIn dc = 900)
  /\ (pollInterval dc <= 9223372036
        -> time.slept (pollSleep dc) = pollInterval dc * time.Second)
  /\ (pollExpiresIn dc <= 9223372036
        -> pollDeadline dc now = now + pollExpiresIn dc * time.Second).
Proof.
  assert (Hi : 1 <= pollInterval dc).
  { pose proof (parseIntOrDefault_floor (Interval dc) 5) as H.
    unfold pollInterval. lia. }
  assert (He : 1 <= pollExpiresIn dc).
  { pose proof (parseIntOrDefault_floor (dcExpiresIn dc) 900) as H.
    unfold pollExpiresIn. lia. }
  refine (conj Hi (conj He (conj _ (conj _ (conj _ _))))).
  - unfold pollInterval. now intros ->.
  - unfold pollExpiresIn. now intros ->.
  - intros H. unfold pollSleep, time.mul, time.slept, time.Second.
    rewrite int64_small; lia.
  - intros H. unfold pollDeadline, time.mul, time.Add, time.Second.
    rewrite int64_small; lia.
Qed.

(** X6. When the session lifetime in nanoseconds wraps to zero or below,
    the deadline is not after the start: [pollForToken] returns its
    timeout at once, without a sleep or a request. *)
Theorem pollForToken_overflowed_lifetime
    (srv : Server) (fuel : nat) (a : Authenticator) (dc : DeviceCodeResponse)
    (w : World) :
  time.mul (pollExpiresIn dc) time.Second <= 0 ->
  (0 < fuel)%nat ->
  pollForToken srv fuel a dc w = Some (inl (timedOut (pollExpiresIn dc)), w).
Proof.
  intros H Hf. destruct fuel as [|fuel]; [lia|].
  unfold pollForToken. apply pollLoop_expired.
  unfold pollDeadline, time.Add. lia.
Qed.

Lemma pollForToken_overflowed_lifetime_witness :
  pollForToken sample.grantsThird 1 sample.authenticator sample.overflowSession
    sample.start
  = Some (inl (timedOut (pollExpiresIn sample.overflowSession)), sample.start).
Proof.
  apply (pollForToken_overflowed_lifetime sample.grantsThird 1
           sample.authenticator sample.overflowSession sample.start).
  - vm_compute. discriminate.
  - lia.
Defined.

(** *** Further properties of the token lifecycle *)


Lemma requestDeviceCode_world (srv : Server) (a : Authenticator)
    (w w1 : World) (r : error + DeviceCodeResponse) :
  requestDeviceCode srv a w = (r, w1) ->
  sent w1 = deviceCodeRequest a :: sent w
  /\ tokenFile w1 = tokenFile w
  /\ writeError w1 = writeError w.
Proof.
  unfold requestDeviceCode, postForm.
  destruct (delivered _) as [e|[e|b]]; [| |destruct (asDeviceCode b)];
    intros H; injection H as _ <-; now repeat split.
Qed.

(** X7. A device-code flow that fails leaves the authenticator and the
    token file as they were. Its error is either the error
    [requestDeviceCode] returned, under the prefix [request device code: ],
    with that one request made and no poll; or, the device code having
    arrived, the error [pollForToken] returned for it, which never
    contains [authorization_pending], under the prefix
    [authentication failed: ]. The world is the one that call left. *)
Theorem deviceCodeAuth_failure_keeps_state
    (srv : Server) (fuel : nat) (a a' : Authenticator) (w w' : World)
    (err : error) :
  deviceCodeAuth srv fuel a w = Some (inl err, a', w') ->
  a' = a
  /\ tokenFile w' = tokenFile w
  /\ ((exists e, requestDeviceCode srv a w = (inl e, w')
                 /\ err = "request device code: " ++ e
                 /\ sent w' = deviceCodeRequest a :: sent w)
      \/ (exists dc w1 e,
            requestDeviceCode srv a w = (inr dc, w1)
            /\ pollForToken srv fuel a dc w1 = Some (inl e, w')
            /\ err = "authentication failed: " ++ e
            /\ strings.Contains e "authorization_pending" = false)).
Proof.
  unfold deviceCodeAuth.
  destruct (requestDeviceCode srv a w) as [[e|dc] w1] eqn:R.
  - destruct (requestDeviceCode_world _ _ _ _ _ R) as (Hs & Hf & _).
    intros H. injection H as <- <- <-.
    refine (conj eq_refl (conj Hf _)). left. exists e.
    exact (conj eq_refl (conj eq_refl Hs)).
  - destruct (requestDeviceCode_world _ _ _ _ _ R) as (_ & Hf & _).
    destruct (pollForToken srv fuel a dc w1) as [[[e|t] w2]|] eqn:P;
      [| |discriminate].
    + intros H. injection H as <- <- <-.
      destruct (pollForToken_error_shape _ _ _ _ _ _ _ P) as (Hc & Hf2 & _).
      refine (conj eq_refl (conj _ _)); [now rewrite Hf2|].
      right. exists dc, w1, e.
      exact (conj eq_refl (conj P (conj eq_refl Hc))).
    + unfold saveTokens. destruct (writeError _ _); discriminate.
Qed.

Lemma deviceCodeAuth_failure_keeps_state_witness :
  sample.authenticator = sample.authenticator
  /\ tokenFile sample.refusedEnd = tokenFile sample.start
  /\ ((exists e,
         requestDeviceCode sample.refusedFirst sample.authenticator
           sample.start = (inl e, sample.refusedEnd)
         /\ "request device code: dial tcp 20.190.151.7:443: connect: connection refused"
            = "request device code: " ++ e
         /\ sent sample.refusedEnd
            = deviceCodeRequest sample.authenticator :: sent sample.start)
      \/ (exists dc w1 e,
            requestDeviceCode sample.refusedFirst sample.authenticator
              sample.start = (inr dc, w1)
            /\ pollForToken sample.refusedFirst 3 sample.authenticator dc w1
               = Some (inl e, sample.refusedEnd)
            /\ "request device code: dial tcp 20.190.151.7:443: connect: connection refused"
               = "authentication failed: " ++ e
            /\ strings.Contains e "authorization_pending" = false)).
Proof.
  apply (deviceCodeAuth_failure_keeps_state sample.refusedFirst 3
           sample.authenticator sample.authenticator sample.start).
  reflexivity.
Defined.

Lemma parseExpiration_default (now : time.Time) (t : TokenResponse) :
  ExpiresOn t = "" -> ExpiresAt (parseExpiration now t) = now + time.Hour.
Proof. unfold parseExpiration. now intros ->. Qed.

Lemma parseExpiration_absolute (now : time.Time) (t : TokenResponse) :
  ExpiresOn t <> "" ->
  ExpiresAt (parseExpiration now t) = time.Unix (design.scanned (ExpiresOn t)).
Proof.
  unfold parseExpiration. intros H.
  apply TypesProps.nonempty_true in H. now rewrite H.
Qed.

Lemma isTokenValid_iff (a : Authenticator) (t : TokenResponse) (now : time.Time) :
  isTokenValid (setTokens a (Some t)) now = true
  <-> now < ExpiresAt t - 5 * time.Minute.
Proof.
  unfold isTokenValid, time.Before, time.Add; simpl tokens.
  rewrite Z.ltb_lt. change (-5 * time.Minute) with (- (5 * time.Minute)). lia.
Qed.

(** X8. How long a credential stamped by [parseExpiration] at [now] passes
    [isTokenValid]: without [expires_on], for the 55 minutes that follow
    [now]; with the decimal numeral of [n] in [expires_on], until five
    minutes before [n] seconds after the epoch, as long as [time.Unix]
    does not wrap; with a greater [n], where it wraps, and with an
    [expires_on] that holds no integer, at no instant from the epoch
    on. *)
Theorem stamped_credential_validity
    (a : Authenticator) (now later : time.Time) (t : TokenResponse) :
  (ExpiresOn t = ""
     -> (isTokenValid (setTokens a (Some (parseExpiration now t))) later = true
         <-> later < now + 55 * time.Minute))
  /\ (forall n, - 2 ^ 63 <= n <= 2 ^ 63 - 1 - time.unixToInternal
        -> ExpiresOn t = fmt.itoa n
        -> (isTokenValid (setTokens a (Some (parseExpiration now t))) later = true
            <-> later < n * time.Second - 5 * time.Minute))
  /\ (forall n, 2 ^ 63 - 1 - time.unixToInternal < n < 2 ^ 63
        -> ExpiresOn t = fmt.itoa n
        -> time.zero <= later
        -> isTokenValid (setTokens a (Some (parseExpiration now t))) later = false)
  /\ (ExpiresOn t <> "" -> fmt.Sscanf_d (ExpiresOn t) = None
        -> - (5 * time.Minute) <= later
        -> isTokenValid (setTokens a (Some (parseExpiration now t))) later = false).
Proof.
  refine (conj _ (conj _ (conj _ _))).
  - intros H. rewrite isTokenValid_iff, parseExpiration_default by exact H.
    unfold time.Hour. lia.
  - intros n Hn E.
    assert (Hr : - 2 ^ 63 <= n < 2 ^ 63)
      by (unfold time.unixToInternal in Hn; lia).
    now rewrite isTokenValid_iff, (parseExpiration_numeral now t n Hr E),
      Unix_exact.
  - intros n Hn E Hl.
    assert (Hr : - 2 ^ 63 <= n < 2 ^ 63)
      by (unfold time.unixToInternal in Hn; lia).
    destruct (isTokenValid (setTokens a (Some (parseExpiration now t))) later)
      eqn:V; [|reflexivity].
    apply isTokenValid_iff in V.
    rewrite (parseExpiration_numeral now t n Hr E), Unix_wrapped in V
      by exact Hn.
    change time.zero with (- 62135596800 * 1000000000) in Hl.
    unfold time.Minute, time.Second in V. lia.
  - intros Hne Hs Hl.
    destruct (isTokenValid (setTokens a (Some (parseExpiration now t))) later)
      eqn:V; [|reflexivity].
    apply isTokenValid_iff in V.
    rewrite parseExpiration_absolute in V by exact Hne.
    unfold design.scanned in V. rewrite Hs in V.
    change (time.Unix 0) with 0 in V.
    unfold time.Minute, time.Second in *. lia.
Qed.



(** X10. With a cached credential that [isTokenValid] accepts, [GetTokens]
    and [GetAccessToken] return it, whatever its access token is, without
    a request, a sleep or a write: the world is as before, whatever the
    server would answer and for any fuel. *)
Theorem GetTokens_uses_valid_cache
    (srv : Server) (fuel : nat) (a : Authenticator) (w : World)
    (cached : TokenResponse) :
  tokenFile w = Holds (inr cached) ->
  isTokenValid (setTokens a (Some cached)) (clock w) = true ->
  GetTokens srv fuel a w = Some (inr cached, setTokens a (Some cached), w)
  /\ GetAccessToken srv fuel a w
     = Some (inr (AccessToken cached), setTokens a (Some cached), w).
Proof.
  intros Hfile Hvalid.
  assert (G : GetTokens srv fuel a w
              = Some (inr cached, setTokens a (Some cached), w)).
  { unfold GetTokens, loadTokens. rewrite Hfile. cbn [tokens setTokens].
    now rewrite Hvalid. }
  split; [exact G|]. unfold GetAccessToken. now rewrite G.
Qed.

Lemma GetTokens_uses_valid_cache_witness :
  GetTokens sample.refusedFirst 0 sample.authenticator sample.startLive
  = Some (inr sample.liveToken,
          setTokens sample.authenticator (Some sample.liveToken),
          sample.startLive)
  /\ GetAccessToken sample.refusedFirst 0 sample.authenticator sample.startLive
     = Some (inr (AccessToken sample.liveToken),
             setTokens sample.authenticator (Some sample.liveToken),
             sample.startLive).
Proof.
  apply (GetTokens_uses_valid_cache sample.refusedFirst 0 sample.authenticator
           sample.startLive sample.liveToken); reflexivity.
Defined.

(** X11. When the token file cannot be read or decoded, or holds an
    expired credential without a refresh token, [GetTokens] is the
    device-code flow, run in the same world: nothing is refreshed, and
    what is sent begins with the device-code request. A missing or
    malformed file is never an error of its own. *)
Theorem GetTokens_without_usable_cache
    (srv : Server) (fuel : nat) (a : Authenticator) (w : World) :
  (exists err, tokenFile w = Unreadable err)
  \/ (exists err, tokenFile w = Holds (inl err))
  \/ (exists cached, tokenFile w = Holds (inr cached)
                     /\ isTokenValid (setTokens a (Some cached)) (clock w) = false
                     /\ RefreshToken cached = "") ->
  (exists a0, GetTokens srv fuel a w = deviceCodeAuth srv fuel a0 w
              /\ clientID a0 = clientID a /\ resource a0 = resource a)
  /\ (forall r a' w',
        GetTokens srv fuel a w = Some (r, a', w') ->
        exists l, sent w' = (l ++ deviceCodeRequest a :: sent w)%list).
Proof.
  intros H.
  assert (G : exists a0, GetTokens srv fuel a w = deviceCodeAuth srv fuel a0 w
                         /\ clientID a0 = clientID a /\ resource a0 = resource a).
  { unfold GetTokens, loadTokens.
    destruct H as [(err & ->)|[(err & ->)|(cached & -> & Hv & Hr)]].
    - now exists a.
    - now exists a.
    - exists (setTokens a (Some cached)). cbn [tokens setTokens].
      rewrite Hv, Hr. now repeat split. }
  split; [exact G|].
  destruct G as (a0 & G & Hc & Hr). intros r a' w' Hrun. rewrite G in Hrun.
  apply deviceCodeAuth_requests_code in Hrun.
  unfold deviceCodeRequest in *. now rewrite <- Hc, <- Hr.
Qed.

Lemma GetTokens_without_usable_cache_witness :
  (exists a0, GetTokens sample.flowGranted 3 sample.authenticator sample.start
              = deviceCodeAuth sample.flowGranted 3 a0 sample.start
              /\ clientID a0 = clientID sample.authenticator
              /\ resource a0 = resource sample.authenticator)
  /\ (forall r a' w',
        GetTokens sample.flowGranted 3 sample.authenticator sample.start
        = Some (r, a', w') ->
        exists l, sent w' = (l ++ deviceCodeRequest sample.authenticator
                               :: sent sample.start)%list).
Proof.
  apply (GetTokens_without_usable_cache sample.flowGranted 3
           sample.authenticator sample.start).
  left. eexists. reflexivity.
Defined.



End AuthProps.

(** ** The paginated client *)

Module GraphProps.

Import graph.

Section Walk.

Variable srv : Server.
Variable c : Client.

Lemma emit_nil {A : Type} (r : option (A * list Event)) : emit [] r = r.
Proof. destruct r as [[x evs]|]; reflexivity. Qed.

Lemma emit_emit {A : Type} (e1 e2 : list Event) (r : option (A * list Event)) :
  emit e1 (emit e2 r) = emit (e1 ++ e2) r.
Proof. destruct r as [[x evs]|]; simpl; [|reflexivity]. now rewrite app_assoc. Qed.

(** A page that arrives was asked for on the wire. *)
Lemma getPage_arrived (n : nat) (url : string) (x : list RawMessage * string) :
  fst (getPage srv c n url) = inr x ->
  getPage srv c n url = (inr x, [pageRequest c url]).
Proof.
  unfold getPage. destruct (srv n url) as [e|e|e|status body]; simpl;
    try discriminate.
  destruct (400 <=? status); simpl; [discriminate|].
  destruct (asPage body) as [e|[v l]]; simpl; [discriminate|].
  now intros ->.
Qed.

(** A failing call asks at most once, for that URL. *)
Lemma getPage_failed (n : nat) (url : string) :
  snd (getPage srv c n url) = []
  \/ snd (getPage srv c n url) = [pageRequest c url].
Proof.
  unfold getPage. destruct (srv n url) as [e|e|e|status body]; simpl; auto.
  destruct (400 <=? status); simpl; auto.
  destruct (asPage body) as [e|[v l]]; simpl; auto.
Qed.

Variable maxResults : Z.

(** The loop left when no link remains. *)
Lemma pagesLoop_done (fuel n : nat) (acc : list RawMessage) :
  pagesLoop srv c maxResults (S fuel) n acc "" = Some ((acc, None), []).
Proof. reflexivity. Qed.

(** The loop follows linked pages as long as the limit allows. *)
Lemma pagesLoop_follows (pages : list Page) (last : string) :
  forall (n fuel : nat) (acc : list RawMessage),
    linked srv c n pages last ->
    uncapped maxResults acc pages ->
    pagesLoop srv c maxResults (length pages + fuel) n acc
      (linkAfter pages last)
    = emit (trail c pages last)
        (pagesLoop srv c maxResults fuel (n + length pages)
           (acc ++ records pages) last).
Proof.
  induction pages as [|[url recs] rest IH]; intros n fuel acc Hl Hu.
  - simpl. now rewrite emit_nil, Nat.add_0_r, app_nil_r.
  - destruct Hl as (Hne & Hp & Hl). destruct Hu as (Hcap & Hu).
    cbn [length Nat.add linkAfter pagesLoop].
    apply TypesProps.nonempty_true in Hne. rewrite Hne.
    assert (Hc : (0 <? maxResults) && (maxResults <=? len acc) = false).
    { apply andb_false_iff. destruct Hcap as [H|H].
      - left. apply Z.ltb_ge. exact H.
      - right. apply Z.leb_gt. exact H. }
    rewrite Hc, (getPage_arrived _ _ _ Hp), (IH _ _ _ Hl Hu), emit_emit.
    cbn [trail records map concat snd].
    rewrite app_assoc, Nat.add_succ_r. reflexivity.
Qed.

Lemma uncapped_unlimited (pages : list Page) :
  forall acc, maxResults <= 0 -> uncapped maxResults acc pages.
Proof.
  induction pages as [|[url recs] rest IH]; intros acc H; simpl; auto.
Qed.

End Walk.

(** Pages linked up to an absent link leave the trail of a plain walk. *)
Lemma trail_walk (srv : Server) (c : Client) (pages : list Page) :
  forall n, linked srv c n pages "" -> trail c pages "" = walk c pages.
Proof.
  induction pages as [|[url recs] rest IH]; intros n Hl; [reflexivity|].
  destruct Hl as (_ & _ & Hl). cbn [trail walk].
  rewrite (IH _ Hl).
  destruct rest as [|[url' recs'] rest']; [reflexivity|].
  destruct Hl as (Hne & _). apply TypesProps.nonempty_true in Hne.
  cbn [linkAfter]. now rewrite Hne.
Qed.

Lemma walk_requests (c : Client) (pages : list Page) :
  requests (walk c pages) = length pages.
Proof.
  induction pages as [|[url recs] rest IH]; [reflexivity|].
  destruct rest as [|p rest']; [reflexivity|].
  change (requests (walk c ((url, recs) :: p :: rest')))
    with (S (requests (walk c (p :: rest')))).
  now rewrite IH.
Qed.

Lemma walk_delays (c : Client) (pages : list Page) :
  delays (walk c pages) = (length pages - 1)%nat.
Proof.
  induction pages as [|[url recs] rest IH]; [reflexivity|].
  destruct rest as [|p rest']; [reflexivity|].
  change (delays (walk c ((url, recs) :: p :: rest')))
    with (S (delays (walk c (p :: rest')))).
  rewrite IH. simpl. lia.
Qed.

(** A plain walk ends with the request for its last page. *)
Lemma walk_last (c : Client) (pages : list Page) (e : Event) (p : Page) :
  pages <> [] ->
  last (walk c pages) e = pageRequest c (fst (last pages p)).
Proof.
  induction pages as [|[url recs] rest IH]; intros Hne; [congruence|].
  destruct rest as [|[url' recs'] rest']; [reflexivity|].
  change (last (walk c ((url, recs) :: (url', recs') :: rest')) e)
    with (last (walk c ((url', recs') :: rest')) e).
  apply IH. discriminate.
Qed.

Lemma trail_requests (c : Client) (pages : list Page) (last : string) :
  requests (trail c pages last) = length pages.
Proof.
  induction pages as [|[url recs] rest IH]; [reflexivity|].
  cbn [trail]. unfold requests in *.
  rewrite filter_app, length_app, IH.
  destruct (types.nonempty (linkAfter rest last)); reflexivity.
Qed.

(** C7. Against a server exposing [K] pages linked by cursors, the last
    without a continuation link, [GetAllPages] without a limit returns
    the records of all pages in page order; it makes [K] requests with a
    rate-limit delay between two consecutive ones, [K - 1] delays in all,
    and none after the final page. *)
Theorem GetAllPages_walks_all_pages
    (srv : Server) (c : Client) (n : nat) (endpoint : string)
    (pages : list Page) (fuel : nat) :
  pages <> [] ->
  (baseURL c ++ endpoint)%string = linkAfter pages "" ->
  linked srv c n pages "" ->
  (length pages < fuel)%nat ->
  exists evs,
    GetAllPages srv c fuel n endpoint 0 = Some ((records pages, None), evs)
    /\ evs = walk c pages
    /\ requests evs = length pages
    /\ delays evs = (length pages - 1)%nat
    /\ (forall e p, last evs e = pageRequest c (fst (last pages p))).
Proof.
  intros Hne Hstart Hl Hf. exists (walk c pages).
  refine (conj _ (conj eq_refl (conj (walk_requests _ _)
            (conj (walk_delays _ _) _)))).
  - unfold GetAllPages. rewrite Hstart.
    replace fuel with (length pages + S (fuel - S (length pages)))%nat by lia.
    rewrite (pagesLoop_follows srv c 0 pages "" n _ [] Hl)
      by (apply uncapped_unlimited; lia).
    rewrite pagesLoop_done. simpl.
    now rewrite app_nil_r, (trail_walk srv c pages n Hl).
  - intros e p. now apply walk_last.
Qed.

Lemma GetAllPages_walks_all_pages_witness :
  exists evs,
    GetAllPages sampleGraph.threePages sampleGraph.client 4 0 "/users" 0
    = Some ((records [(sampleGraph.users1, sampleGraph.records1);
                      (sampleGraph.users2, sampleGraph.records2);
                      (sampleGraph.users3, sampleGraph.records3)], None), evs)
    /\ evs = walk sampleGraph.client
               [(sampleGraph.users1, sampleGraph.records1);
                (sampleGraph.users2, sampleGraph.records2);
                (sampleGraph.users3, sampleGraph.records3)]
    /\ requests evs = 3%nat
    /\ delays evs = (3 - 1)%nat
    /\ (forall e p,
          last evs e
          = pageRequest sampleGraph.client
              (fst (last [(sampleGraph.users1, sampleGraph.records1);
                          (sampleGraph.users2, sampleGraph.records2);
                          (sampleGraph.users3, sampleGraph.records3)] p))).
Proof.
  apply (GetAllPages_walks_all_pages sampleGraph.threePages
           sampleGraph.client 0 "/users"
           [(sampleGraph.users1, sampleGraph.records1);
            (sampleGraph.users2, sampleGraph.records2);
            (sampleGraph.users3, sampleGraph.records3)] 4).
  - discriminate.
  - reflexivity.
  - cbn [linked].
    repeat (split; [vm_compute; discriminate|split; [reflexivity|]]).
    exact I.
  - simpl. lia.
Defined.

(** C8. When the pages before it arrive and a page request then fails
    (the request cannot be made or sent, the body cannot be read, the
    status is 400 or more, or the body does not decode), [GetAllPages]
    returns the records of the pages before it together with that error,
    and the failing call is the last thing it does. *)
Theorem GetAllPages_keeps_partial_results
    (srv : Server) (c : Client) (n : nat) (endpoint : string)
    (maxResults : Z) (pages : list Page) (failing : string) (err : error)
    (fuel : nat) :
  (baseURL c ++ endpoint)%string = linkAfter pages failing ->
  linked srv c n pages failing ->
  failing <> "" ->
  fst (getPage srv c (n + length pages) failing) = inl err ->
  uncapped maxResults [] pages ->
  maxResults <= 0 \/ len (records pages) < maxResults ->
  (length pages < fuel)%nat ->
  GetAllPages srv c fuel n endpoint maxResults
  = Some ((records pages, Some err),
          (trail c pages failing
             ++ snd (getPage srv c (n + length pages) failing))%list)
  /\ (snd (getPage srv c (n + length pages) failing) = []
      \/ snd (getPage srv c (n + length pages) failing)
         = [pageRequest c failing])
  /\ requests (trail c pages failing) = length pages.
Proof.
  intros Hstart Hl Hne Hfail Hu Hcap Hf.
  refine (conj _ (conj (getPage_failed _ _ _ _) (trail_requests _ _ _))).
  unfold GetAllPages. rewrite Hstart.
  replace fuel with (length pages + S (fuel - S (length pages)))%nat by lia.
  rewrite (pagesLoop_follows srv c maxResults pages failing n _ [] Hl Hu).
  cbn [pagesLoop app].
  apply TypesProps.nonempty_true in Hne. rewrite Hne.
  assert (Hc : (0 <? maxResults) && (maxResults <=? len (records pages)) = false).
  { apply andb_false_iff. destruct Hcap as [H|H].
    - left. apply Z.ltb_ge. exact H.
    - right. apply Z.leb_gt. exact H. }
  rewrite Hc.
  destruct (getPage srv c (n + length pages) failing) as [r evs].
  simpl in Hfail. subst r. reflexivity.
Qed.

Lemma GetAllPages_keeps_partial_results_witness :
  GetAllPages sampleGraph.throttledSecond sampleGraph.client 2 0 "/users" 0
  = Some ((records [(sampleGraph.users1, sampleGraph.records1)],
           Some "API error 429: Too many requests"),
          (trail sampleGraph.client
             [(sampleGraph.users1, sampleGraph.records1)] sampleGraph.users2
           ++ snd (getPage sampleGraph.throttledSecond sampleGraph.client
                     (0 + length [(sampleGraph.users1, sampleGraph.records1)])
                     sampleGraph.users2))%list)
  /\ (snd (getPage sampleGraph.throttledSecond sampleGraph.client
             (0 + length [(sampleGraph.users1, sampleGraph.records1)])
             sampleGraph.users2) = []
      \/ snd (getPage sampleGraph.throttledSecond sampleGraph.client
                (0 + length [(sampleGraph.users1, sampleGraph.records1)])
                sampleGraph.users2)
         = [pageRequest sampleGraph.client sampleGraph.users2])
  /\ requests (trail sampleGraph.client
                 [(sampleGraph.users1, sampleGraph.records1)]
                 sampleGraph.users2)
     = length [(sampleGraph.users1, sampleGraph.records1)].
Proof.
  apply (GetAllPages_keeps_partial_results sampleGraph.throttledSecond
           sampleGraph.client 0 "/users" 0
           [(sampleGraph.users1, sampleGraph.records1)] sampleGraph.users2
           "API error 429: Too many requests" 2).
  - reflexivity.
  - cbn [linked].
    split; [vm_compute; discriminate|split; [reflexivity|exact I]].
  - vm_compute; discriminate.
  - reflexivity.
  - simpl. split; [left; lia|exact I].
  - left; lia.
  - simpl. lia.
Defined.

(** C9. With a positive limit that the first page alone reaches,
    [GetAllPages] asks for no second page and returns all records of the
    first page, at least as many as the limit and not cut down to it. *)
Theorem GetAllPages_stops_at_limit
    (srv : Server) (c : Client) (n : nat) (endpoint : string)
    (maxResults : Z) (recs : list RawMessage) (next : string) (fuel : nat) :
  (baseURL c ++ endpoint)%string <> "" ->
  fst (getPage srv c n (baseURL c ++ endpoint)) = inr (recs, next) ->
  0 < maxResults ->
  maxResults <= len recs ->
  (2 <= fuel)%nat ->
  exists evs,
    GetAllPages srv c fuel n endpoint maxResults = Some ((recs, None), evs)
    /\ evs = pageRequest c (baseURL c ++ endpoint)
             :: (if types.nonempty next
                 then [Delay config.RateLimitDelay] else [])
    /\ requests evs = 1%nat
    /\ maxResults <= len recs.
Proof.
  intros Hne Hp Hpos Hle Hf.
  destruct fuel as [|[|fuel]]; try lia.
  eexists. refine (conj _ (conj eq_refl (conj _ Hle))).
  - unfold GetAllPages. cbn [pagesLoop].
    apply TypesProps.nonempty_true in Hne. rewrite Hne.
    replace (maxResults <=? len []) with false
      by (symmetry; apply Z.leb_gt; unfold len; simpl; lia).
    rewrite andb_false_r, (getPage_arrived _ _ _ _ _ Hp).
    cbn [app].
    destruct (types.nonempty next); [|reflexivity].
    replace (0 <? maxResults) with true by (symmetry; apply Z.ltb_lt; lia).
    replace (maxResults <=? len recs) with true
      by (symmetry; apply Z.leb_le; lia).
    reflexivity.
  - destruct (types.nonempty next); reflexivity.
Qed.

Lemma GetAllPages_stops_at_limit_witness :
  exists evs,
    GetAllPages sampleGraph.threePages sampleGraph.client 2 0 "/users" 2
    = Some ((sampleGraph.records1, None), evs)
    /\ evs = pageRequest sampleGraph.client
               (baseURL sampleGraph.client ++ "/users")
             :: (if types.nonempty sampleGraph.users2
                 then [Delay config.RateLimitDelay] else [])
    /\ requests evs = 1%nat
    /\ 2 <= len sampleGraph.records1.
Proof.
  apply (GetAllPages_stops_at_limit sampleGraph.threePages sampleGraph.client
           0 "/users" 2 sampleGraph.records1 sampleGraph.users2 2).
  - vm_compute; discriminate.
  - reflexivity.
  - lia.
  - vm_compute; discriminate.
  - lia.
Defined.

(** *** Further properties of the client *)

Lemma substring_length (s : string) : forall n,
  (n <= String.length s)%nat -> String.length (substring 0 n s) = n.
Proof.
  induction s as [|x s IH]; intros [|n] H; simpl in *; try lia.
  now rewrite IH by lia.
Qed.

Lemma substring_append (s t : string) : forall n,
  (n <= String.length s)%nat -> substring 0 n (s ++ t) = substring 0 n s.
Proof.
  induction s as [|x s IH]; intros [|n] H; simpl in *; try lia.
  - now destruct t.
  - reflexivity.
  - now rewrite IH by lia.
Qed.

Lemma substring_idem (s : string) : forall n,
  substring 0 n (substring 0 n s) = substring 0 n s.
Proof.
  induction s as [|x s IH]; intros [|n]; simpl; try reflexivity.
  now rewrite IH.
Qed.

Lemma length_append (s t : string) :
  String.length (s ++ t) = (String.length s + String.length t)%nat.
Proof. induction s as [|x s IH]; simpl; [reflexivity|]. now rewrite IH. Qed.

(** X13. [truncateError] leaves a body of at most 200 bytes as it is and
    cuts a longer one to its first 200 bytes followed by three dots: the
    result is never longer than 203 bytes, and its first 200 bytes are
    those of the body. *)
Theorem truncateError_bounds (body : string) :
  ((String.length body <= 200)%nat -> truncateError body = body)
  /\ ((200 < String.length body)%nat
        -> truncateError body = substring 0 200 body ++ "..."
           /\ String.length (truncateError body) = 203%nat)
  /\ (String.length (truncateError body) <= 203)%nat
  /\ substring 0 200 (truncateError body) = substring 0 200 body.
Proof.
  unfold truncateError.
  destruct (Nat.ltb_spec 200 (String.length body)) as [Hlong|Hshort].
  - pose proof (substring_length body 200 ltac:(lia)) as L.
    refine (conj _ (conj _ (conj _ _))).
    + intros H. lia.
    + intros _. split; [reflexivity|]. rewrite length_append, L. reflexivity.
    + rewrite length_append, L. simpl. lia.
    + rewrite substring_append by lia. apply substring_idem.
  - refine (conj _ (conj _ (conj _ _))).
    + reflexivity.
    + intros H. lia.
    + lia.
    + reflexivity.
Qed.

Lemma emit_some {A : Type} (evs0 evs : list Event) (x : A)
    (r : option (A * list Event)) :
  emit evs0 r = Some (x, evs) ->
  exists evs', r = Some (x, evs') /\ evs = (evs0 ++ evs')%list.
Proof.
  destruct r as [[y evs']|]; simpl; [|discriminate].
  intros H. injection H as <- <-. now exists evs'.
Qed.

Section AnyServer.

Variable srv : Server.
Variable c : Client.
Variable maxResults : Z.

(** One evaluation of the loop condition and what follows it. *)
Lemma pagesLoop_step (fuel n : nat) (acc : list RawMessage) (url : string) :
  url <> "" ->
  (0 <? maxResults) && (maxResults <=? len acc) = false ->
  pagesLoop srv c maxResults (S fuel) n acc url
  = match fst (getPage srv c n url) with
    | inl err => Some ((acc, Some err), snd (getPage srv c n url))
    | inr (results, next) =>
        emit (pageRequest c url
              :: (if types.nonempty next
                  then [Delay config.RateLimitDelay] else []))
          (pagesLoop srv c maxResults fuel (S n) (acc ++ results) next)
    end.
Proof.
  intros Hne Hcap. cbn [pagesLoop].
  apply TypesProps.nonempty_true in Hne. rewrite Hne, Hcap.
  destruct (getPage srv c n url) as [[err|[results next]] evs] eqn:G;
    [reflexivity|].
  assert (Ha : fst (getPage srv c n url) = inr (results, next)) by now rewrite G.
  apply getPage_arrived in Ha. rewrite G in Ha. injection Ha as ->.
  reflexivity.
Qed.

Lemma pagesLoop_capped (fuel n : nat) (acc : list RawMessage) (url : string) :
  (0 <? maxResults) && (maxResults <=? len acc) = true ->
  pagesLoop srv c maxResults (S fuel) n acc url = Some ((acc, None), []).
Proof.
  intros Hcap. cbn [pagesLoop]. rewrite Hcap.
  now destruct (types.nonempty url).
Qed.

(** Whatever the server does, requests and delays take turns in the trace
    of a walk that returns. *)
Lemma pagesLoop_alternating (fuel : nat) :
  forall n acc url res evs,
    pagesLoop srv c maxResults fuel n acc url = Some (res, evs) ->
    alternating evs = true.
Proof.
  induction fuel as [|fuel IH]; intros n acc url res evs H; [discriminate|].
  destruct (types.nonempty url) eqn:U.
  2:{ cbn [pagesLoop] in H. rewrite U in H. now injection H as <- <-. }
  destruct ((0 <? maxResults) && (maxResults <=? len acc)) eqn:Hcap.
  { rewrite pagesLoop_capped in H by exact Hcap. now injection H as <- <-. }
  apply TypesProps.nonempty_true in U.
  rewrite pagesLoop_step in H by assumption.
  destruct (fst (getPage srv c n url)) as [err|[results next]].
  - injection H as <- <-.
    destruct (getPage_failed srv c n url) as [-> | ->]; reflexivity.
  - apply emit_some in H. destruct H as (evs' & Hrec & ->).
    destruct (types.nonempty next) eqn:Nx.
    + apply IH in Hrec. simpl. now rewrite Hrec.
    + destruct fuel as [|fuel']; [discriminate|].
      cbn [pagesLoop] in Hrec. rewrite Nx in Hrec.
      now injection Hrec as <- <-.
Qed.

End AnyServer.

Lemma alternating_counts (evs : list Event) :
  alternating evs = true ->
  (delays evs <= requests evs <= S (delays evs))%nat.
Proof.
  assert (G : forall k (l : list Event), (length l <= k)%nat ->
                alternating l = true ->
                (delays l <= requests l <= S (delays l))%nat).
  { induction k as [|k IH]; intros l Hl Ha.
    - destruct l; [cbn; lia|simpl in Hl; lia].
    - destruct l as [|[u au|d] [|[u' au'|d'] rest]]; try discriminate;
        try (cbn; lia).
      simpl in Ha. apply andb_true_iff in Ha. destruct Ha as (_ & Ha).
      specialize (IH rest ltac:(simpl in Hl; lia) Ha).
      unfold delays, requests in *. simpl. lia. }
  apply (G (length evs)). lia.
Qed.

(** X14. Whatever the server answers and whatever the limit, the trace of
    a [GetAllPages] that returns begins with a request and goes on by
    turns, one rate-limit delay of 100 ms after a request and one request
    after a delay: two requests are never made without the delay between
    them, and the delays are as many as the requests or one fewer. *)
Theorem GetAllPages_paces_requests
    (srv : Server) (c : Client) (fuel n : nat) (endpoint : string)
    (maxResults : Z) (res : list RawMessage * option error)
    (evs : list Event) :
  GetAllPages srv c fuel n endpoint maxResults = Some (res, evs) ->
  alternating evs = true
  /\ (delays evs <= requests evs <= S (delays evs))%nat.
Proof.
  intros H. apply pagesLoop_alternating in H.
  split; [exact H|]. now apply alternating_counts.
Qed.

Lemma GetAllPages_paces_requests_witness :
  alternating
    [pageRequest sampleGraph.client sampleGraph.users1;
     Delay config.RateLimitDelay;
     pageRequest sampleGraph.client sampleGraph.users2] = true
  /\ (delays [pageRequest sampleGraph.client sampleGraph.users1;
              Delay config.RateLimitDelay;
              pageRequest sampleGraph.client sampleGraph.users2]
      <= requests [pageRequest sampleGraph.client sampleGraph.users1;
                   Delay config.RateLimitDelay;
                   pageRequest sampleGraph.client sampleGraph.users2]
      <= S (delays [pageRequest sampleGraph.client sampleGraph.users1;
                    Delay config.RateLimitDelay;
                    pageRequest sampleGraph.client sampleGraph.users2]))%nat.
Proof.
  apply (GetAllPages_paces_requests sampleGraph.throttledSecond
           sampleGraph.client 4 0 "/users" 0
           (sampleGraph.records1, Some "API error 429: Too many requests")).
  reflexivity.
Defined.

Lemma len_app (l1 l2 : list RawMessage) : len (l1 ++ l2) = len l1 + len l2.
Proof. unfold len. rewrite length_app. lia. Qed.

Lemma len_nonempty (l : list RawMessage) : l <> [] -> 1 <= len l.
Proof. destruct l; [congruence|]. unfold len. simpl length. lia. Qed.

Lemma requests_app (e1 e2 : list Event) :
  requests (e1 ++ e2) = (requests e1 + requests e2)%nat.
Proof. unfold requests. now rewrite filter_app, length_app. Qed.

(** With a limit and pages that are never empty, the walk returns: each
    page brings the count at least one nearer to the limit. *)
Lemma pagesLoop_limited (srv : Server) (c : Client) (maxResults : Z) (m : nat) :
  (forall n url recs next,
     fst (getPage srv c n url) = inr (recs, next) -> recs <> []) ->
  0 < maxResults ->
  forall fuel n acc url,
    maxResults - len acc <= Z.of_nat m ->
    (m < fuel)%nat ->
    exists res evs,
      pagesLoop srv c maxResults fuel n acc url = Some (res, evs)
      /\ (requests evs <= m)%nat.
Proof.
  intros Hfull Hpos. induction m as [|m IH]; intros fuel n acc url Hm Hf;
    (destruct fuel as [|fuel]; [lia|]).
  - exists (acc, None), []. split; [|cbn; lia].
    apply pagesLoop_capped. apply andb_true_iff.
    split; [apply Z.ltb_lt|apply Z.leb_le]; lia.
  - destruct (types.nonempty url) eqn:U.
    2:{ exists (acc, None), []. split; [|cbn; lia].
        cbn [pagesLoop]. now rewrite U. }
    destruct ((0 <? maxResults) && (maxResults <=? len acc)) eqn:Hcap.
    { exists (acc, None), []. split; [|cbn; lia]. now apply pagesLoop_capped. }
    apply TypesProps.nonempty_true in U.
    rewrite pagesLoop_step by assumption.
    destruct (fst (getPage srv c n url)) as [err|[results next]] eqn:G.
    + eexists _, _. split; [reflexivity|].
      destruct (getPage_failed srv c n url) as [-> | ->]; cbn; lia.
    + pose proof (len_nonempty _ (Hfull _ _ _ _ G)) as Hlen.
      destruct (IH fuel (S n) (acc ++ results)%list next) as (res & evs & Hrun & Hreq).
      { rewrite len_app. lia. }
      { lia. }
      rewrite Hrun. eexists _, _. split; [reflexivity|].
      change (pageRequest c url :: ?p ++ evs)%list
        with ([pageRequest c url] ++ (p ++ evs))%list.
      destruct (types.nonempty next); cbn [app]; unfold requests in *;
        simpl; lia.
Qed.

(** X15. With a positive limit, against a server that never sends an empty
    page, [GetAllPages] returns however the pages are linked, in a loop
    too, after at most as many page requests as the limit. *)
Theorem GetAllPages_limit_bounds_requests
    (srv : Server) (c : Client) (fuel n : nat) (endpoint : string)
    (maxResults : Z) :
  (forall k url recs next,
     fst (getPage srv c k url) = inr (recs, next) -> recs <> []) ->
  0 < maxResults ->
  (Z.to_nat maxResults < fuel)%nat ->
  exists res evs,
    GetAllPages srv c fuel n endpoint maxResults = Some (res, evs)
    /\ (requests evs <= Z.to_nat maxResults)%nat.
Proof.
  intros Hfull Hpos Hf. unfold GetAllPages.
  apply pagesLoop_limited; try assumption.
  unfold len. simpl. lia.
Qed.

Lemma getPage_endless_nonempty (k : nat) (url : string)
    (recs : list RawMessage) (next : string) :
  fst (getPage sampleGraph.endless sampleGraph.client k url) = inr (recs, next)
  -> recs <> [].
Proof.
  unfold getPage, sampleGraph.endless.
  destruct (url =? sampleGraph.users1)%string; simpl.
  - intros H. injection H as <- _. discriminate.
  - discriminate.
Qed.

Lemma GetAllPages_limit_bounds_requests_witness :
  exists res evs,
    GetAllPages sampleGraph.endless sampleGraph.client 5 0 "/users" 4
    = Some (res, evs)
    /\ (requests evs <= Z.to_nat 4)%nat.
Proof.
  apply (GetAllPages_limit_bounds_requests sampleGraph.endless
           sampleGraph.client 5 0 "/users" 4).
  - exact getPage_endless_nonempty.
  - lia.
  - simpl. lia.
Defined.

(** X16. Without a limit, or with one when the pages are empty,
    [GetAllPages] has no end against a server on which every page it comes
    to carries the link to another such page (a page linking to itself,
    say): no amount of fuel makes the walk return. [onPath] holds of the
    URLs the walk comes to. *)
Theorem GetAllPages_follows_links_for_ever
    (srv : Server) (c : Client) (n : nat) (endpoint : string)
    (maxResults : Z) (onPath : string -> Prop) (fuel : nat) :
  onPath (baseURL c ++ endpoint)%string ->
  (forall k url, onPath url ->
     url <> ""
     /\ exists recs next,
          fst (getPage srv c k url) = inr (recs, next)
          /\ onPath next /\ (maxResults <= 0 \/ recs = [])) ->
  GetAllPages srv c fuel n endpoint maxResults = None.
Proof.
  intros Hstart Hsrv. unfold GetAllPages.
  assert (G : forall fuel k acc url,
            onPath url -> (maxResults <= 0 \/ acc = []) ->
            pagesLoop srv c maxResults fuel k acc url = None).
  { clear fuel. induction fuel as [|fuel IH]; intros k acc url Hu Hacc;
      [reflexivity|].
    destruct (Hsrv k url Hu) as (Hne & recs & next & Hp & Hn & Hr).
    rewrite pagesLoop_step; [|exact Hne|].
    2:{ apply andb_false_iff. destruct Hacc as [H| ->].
        - left. apply Z.ltb_ge. exact H.
        - destruct (Z.ltb_spec 0 maxResults); [right|now left].
          apply Z.leb_gt. unfold len. simpl. lia. }
    rewrite Hp, IH; [reflexivity|exact Hn|].
    destruct Hacc as [H| ->]; [now left|].
    destruct Hr as [H| ->]; [now left|now right]. }
  apply G; [exact Hstart|now right].
Qed.

Lemma GetAllPages_follows_links_for_ever_witness :
  GetAllPages sampleGraph.endless sampleGraph.client 1000 0 "/users" 0 = None.
Proof.
  apply (GetAllPages_follows_links_for_ever sampleGraph.endless
           sampleGraph.client 0 "/users" 0
           (fun url => url = sampleGraph.users1) 1000).
  - reflexivity.
  - intros k url ->. split; [vm_compute; discriminate|].
    exists sampleGraph.records1, sampleGraph.users1.
    split; [reflexivity|]. split; [reflexivity|left; lia].
Defined.

(** X17. The limit is tested between pages only: when the pages arrive
    and the limit is first reached with the last of them, [GetAllPages]
    returns all their records, the last page whole, asks for nothing
    further, and has slept once more if that page carried a link. *)
Theorem GetAllPages_returns_whole_pages
    (srv : Server) (c : Client) (fuel n : nat) (endpoint : string)
    (maxResults : Z) (pages : list Page) (next : string) :
  (baseURL c ++ endpoint)%string = linkAfter pages next ->
  linked srv c n pages next ->
  uncapped maxResults [] pages ->
  0 < maxResults <= len (records pages) ->
  (length pages < fuel)%nat ->
  GetAllPages srv c fuel n endpoint maxResults
  = Some ((records pages, None), trail c pages next)
  /\ requests (trail c pages next) = length pages
  /\ maxResults <= len (records pages).
Proof.
  intros Hstart Hl Hu Hcap Hf.
  refine (conj _ (conj (trail_requests _ _ _) (proj2 Hcap))).
  unfold GetAllPages. rewrite Hstart.
  replace fuel with (length pages + S (fuel - S (length pages)))%nat by lia.
  rewrite (pagesLoop_follows srv c maxResults pages next n _ [] Hl Hu).
  rewrite pagesLoop_capped.
  - simpl. now rewrite app_nil_r.
  - apply andb_true_iff. split; [apply Z.ltb_lt|apply Z.leb_le]; simpl; lia.
Qed.

Lemma GetAllPages_returns_whole_pages_witness :
  GetAllPages sampleGraph.threePages sampleGraph.client 3 0 "/users" 4
  = Some ((records [(sampleGraph.users1, sampleGraph.records1);
                    (sampleGraph.users2, sampleGraph.records2)], None),
          trail sampleGraph.client
            [(sampleGraph.users1, sampleGraph.records1);
             (sampleGraph.users2, sampleGraph.records2)] sampleGraph.users3)
  /\ requests (trail sampleGraph.client
                 [(sampleGraph.users1, sampleGraph.records1);
                  (sampleGraph.users2, sampleGraph.records2)]
                 sampleGraph.users3)
     = length [(sampleGraph.users1, sampleGraph.records1);
               (sampleGraph.users2, sampleGraph.records2)]
  /\ 4 <= len (records [(sampleGraph.users1, sampleGraph.records1);
                        (sampleGraph.users2, sampleGraph.records2)]).
Proof.
  apply (GetAllPages_returns_whole_pages sampleGraph.threePages
           sampleGraph.client 3 0 "/users" 4
           [(sampleGraph.users1, sampleGraph.records1);
            (sampleGraph.users2, sampleGraph.records2)] sampleGraph.users3).
  - reflexivity.
  - cbn [linked].
    repeat (split; [vm_compute; discriminate|split; [reflexivity|]]).
    exact I.
  - cbn [uncapped]. unfold len. simpl.
    split; [right; lia|]. split; [right; lia|exact I].
  - unfold len. simpl. lia.
  - simpl. lia.
Defined.

(** *** The enumerations *)

(** The walk over linked pages that ends without a link, and the walk that
    ends with a failing call. *)
Lemma GetAllPages_chain_ends (srv : Server) (c : Client) (fuel n : nat)
    (endpoint : string) (pages : list Page) :
  (baseURL c ++ endpoint)%string = linkAfter pages "" ->
  linked srv c n pages "" ->
  (length pages < fuel)%nat ->
  GetAllPages srv c fuel n endpoint 0 = Some ((records pages, None), walk c pages).
Proof.
  intros Hstart Hl Hf. unfold GetAllPages. rewrite Hstart.
  replace fuel with (length pages + S (fuel - S (length pages)))%nat by lia.
  rewrite (pagesLoop_follows srv c 0 pages "" n _ [] Hl)
    by (apply uncapped_unlimited; lia).
  rewrite pagesLoop_done. simpl.
  now rewrite app_nil_r, (trail_walk srv c pages n Hl).
Qed.

Lemma GetAllPages_chain_fails (srv : Server) (c : Client) (fuel n : nat)
    (endpoint : string) (pages : list Page) (failing : string) (err : error) :
  (baseURL c ++ endpoint)%string = linkAfter pages failing ->
  linked srv c n pages failing ->
  failing <> "" ->
  fst (getPage srv c (n + length pages) failing) = inl err ->
  (length pages < fuel)%nat ->
  GetAllPages srv c fuel n endpoint 0
  = Some ((records pages, Some err),
          (trail c pages failing
             ++ snd (getPage srv c (n + length pages) failing))%list).
Proof.
  intros Hstart Hl Hne Hfail Hf. unfold GetAllPages. rewrite Hstart.
  replace fuel with (length pages + S (fuel - S (length pages)))%nat by lia.
  rewrite (pagesLoop_follows srv c 0 pages failing n _ [] Hl)
    by (apply uncapped_unlimited; lia).
  rewrite pagesLoop_step; [|exact Hne|reflexivity].
  rewrite Hfail. reflexivity.
Qed.

Section Users.

Variable unmarshalUser : RawMessage -> error + types.User.

Lemma decodeUsers_app (l1 l2 : list RawMessage) :
  decodeUsers unmarshalUser (l1 ++ l2)
  = (decodeUsers unmarshalUser l1 ++ decodeUsers unmarshalUser l2)%list.
Proof.
  induction l1 as [|raw l1 IH]; simpl; [reflexivity|].
  destruct (unmarshalUser raw); simpl; now rewrite IH.
Qed.

Lemma decodeUsers_length (l : list RawMessage) :
  (length (decodeUsers unmarshalUser l) <= length l)%nat.
Proof.
  induction l as [|raw l IH]; simpl; [lia|].
  destruct (unmarshalUser raw); simpl; lia.
Qed.

Lemma decodeUsers_In (l : list RawMessage) (u : types.User) :
  In u (decodeUsers unmarshalUser l)
  <-> exists raw, In raw l /\ unmarshalUser raw = inr u.
Proof.
  induction l as [|raw l IH]; simpl.
  - split; [tauto|]. intros (r & [] & _).
  - destruct (unmarshalUser raw) as [e|u'] eqn:D; simpl; rewrite IH; split.
    + intros (r & Hr & Hd). exists r. tauto.
    + intros (r & [<- | Hr] & Hd); [congruence|]. now exists r.
    + intros [<- | (r & Hr & Hd)]; [now exists raw; auto|]. exists r. tauto.
    + intros (r & [<- | Hr] & Hd); [left; congruence|]. right. now exists r.
Qed.

Lemma decodeUsers_all (l : list RawMessage) :
  (forall raw, In raw l -> exists u, unmarshalUser raw = inr u) ->
  length (decodeUsers unmarshalUser l) = length l.
Proof.
  induction l as [|raw l IH]; intros H; simpl; [reflexivity|].
  destruct (H raw (or_introl eq_refl)) as (u & ->). simpl.
  rewrite IH; [reflexivity|]. intros r Hr. apply H. now right.
Qed.

(** X18. When a page of the users walk fails, [EnumerateUsers] returns the
    error alone: the users of the pages that had arrived are not
    returned, although every one of those pages was asked for. *)
Theorem EnumerateUsers_drops_partial_results
    (srv : Server) (c : Client) (fuel n : nat) (pages : list Page)
    (failing : string) (err : error) :
  (baseURL c
   ++ "/users?$select=id,displayName,userPrincipalName,mail,jobTitle,department,accountEnabled&$top=999")%string
  = linkAfter pages failing ->
  linked srv c n pages failing ->
  failing <> "" ->
  fst (getPage srv c (n + length pages) failing) = inl err ->
  (length pages < fuel)%nat ->
  EnumerateUsers unmarshalUser srv c fuel n
  = Some (inl err,
          (trail c pages failing
             ++ snd (getPage srv c (n + length pages) failing))%list)
  /\ requests (trail c pages failing) = length pages.
Proof.
  intros Hstart Hl Hne Hfail Hf. split; [|apply trail_requests].
  unfold EnumerateUsers.
  now rewrite (GetAllPages_chain_fails srv c fuel n _ pages failing err).
Qed.

(** X19. Against a server exposing linked pages of users, [EnumerateUsers]
    returns the users the records of all pages decode to, in page order;
    a record that does not decode is left out and is no error, so there
    are at most as many users as records, and as many when all decode. *)
Theorem EnumerateUsers_decodes_all_pages
    (srv : Server) (c : Client) (fuel n : nat) (pages : list Page) :
  (baseURL c
   ++ "/users?$select=id,displayName,userPrincipalName,mail,jobTitle,department,accountEnabled&$top=999")%string
  = linkAfter pages "" ->
  linked srv c n pages "" ->
  (length pages < fuel)%nat ->
  exists users,
    EnumerateUsers unmarshalUser srv c fuel n = Some (inr users, walk c pages)
    /\ users = concat (map (fun p => decodeUsers unmarshalUser (snd p)) pages)
    /\ (forall u, In u users
          <-> exists raw, In raw (records pages) /\ unmarshalUser raw = inr u)
    /\ (length users <= length (records pages))%nat
    /\ ((forall raw, In raw (records pages)
           -> exists u, unmarshalUser raw = inr u)
        -> length users = length (records pages)).
Proof.
  intros Hstart Hl Hf. exists (decodeUsers unmarshalUser (records pages)).
  refine (conj _ (conj _ (conj (decodeUsers_In _) (conj (decodeUsers_length _)
            (decodeUsers_all _))))).
  - unfold EnumerateUsers.
    now rewrite (GetAllPages_chain_ends srv c fuel n _ pages).
  - clear. unfold records. induction pages as [|p pages IH]; [reflexivity|].
    simpl. now rewrite decodeUsers_app, IH.
Qed.

End Users.

Lemma EnumerateUsers_drops_partial_results_witness :
  EnumerateUsers sampleGraph.unmarshalUser sampleGraph.selectThrottled
    sampleGraph.client 2 0
  = Some (inl "API error 429: Too many requests",
          (trail sampleGraph.client
             [(sampleGraph.select1, sampleGraph.records1)] sampleGraph.users2
           ++ snd (getPage sampleGraph.selectThrottled sampleGraph.client
                     (0 + length [(sampleGraph.select1, sampleGraph.records1)])
                     sampleGraph.users2))%list)
  /\ requests (trail sampleGraph.client
                 [(sampleGraph.select1, sampleGraph.records1)]
                 sampleGraph.users2)
     = length [(sampleGraph.select1, sampleGraph.records1)].
Proof.
  apply (EnumerateUsers_drops_partial_results sampleGraph.unmarshalUser
           sampleGraph.selectThrottled sampleGraph.client 2 0
           [(sampleGraph.select1, sampleGraph.records1)] sampleGraph.users2
           "API error 429: Too many requests").
  - reflexivity.
  - cbn [linked].
    split; [vm_compute; discriminate|split; [reflexivity|exact I]].
  - vm_compute; discriminate.
  - reflexivity.
  - simpl. lia.
Defined.

Lemma EnumerateUsers_decodes_all_pages_witness :
  exists users,
    EnumerateUsers sampleGraph.unmarshalUser sampleGraph.selectPages
      sampleGraph.client 4 0
    = Some (inr users,
            walk sampleGraph.client
              [(sampleGraph.select1, sampleGraph.records1);
               (sampleGraph.users2, sampleGraph.records2);
               (sampleGraph.users3, sampleGraph.records3)])
    /\ users
       = concat (map (fun p => decodeUsers sampleGraph.unmarshalUser (snd p))
                   [(sampleGraph.select1, sampleGraph.records1);
                    (sampleGraph.users2, sampleGraph.records2);
                    (sampleGraph.users3, sampleGraph.records3)])
    /\ (forall u, In u users
          <-> exists raw,
                In raw (records [(sampleGraph.select1, sampleGraph.records1);
                                 (sampleGraph.users2, sampleGraph.records2);
                                 (sampleGraph.users3, sampleGraph.records3)])
                /\ sampleGraph.unmarshalUser raw = inr u)
    /\ (length users
        <= length (records [(sampleGraph.select1, sampleGraph.records1);
                            (sampleGraph.users2, sampleGraph.records2);
                            (sampleGraph.users3, sampleGraph.records3)]))%nat
    /\ ((forall raw,
           In raw (records [(sampleGraph.select1, sampleGraph.records1);
                            (sampleGraph.users2, sampleGraph.records2);
                            (sampleGraph.users3, sampleGraph.records3)])
           -> exists u, sampleGraph.unmarshalUser raw = inr u)
        -> length users
           = length (records [(sampleGraph.select1, sampleGraph.records1);
                              (sampleGraph.users2, sampleGraph.records2);
                              (sampleGraph.users3, sampleGraph.records3)])).
Proof.
  apply (EnumerateUsers_decodes_all_pages sampleGraph.unmarshalUser
           sampleGraph.selectPages sampleGraph.client 4 0
           [(sampleGraph.select1, sampleGraph.records1);
            (sampleGraph.users2, sampleGraph.records2);
            (sampleGraph.users3, sampleGraph.records3)]).
  - reflexivity.
  - cbn [linked].
    repeat (split; [vm_compute; discriminate|split; [reflexivity|]]).
    exact I.
  - simpl. lia.
Defined.

Section Roles.

Variable unmarshalRoles : string -> error + list types.DirectoryRole.
Variable unmarshalMembers : string -> error + list types.RoleMember.
Variable srv : ApiServer.
Variable c : Client.

Lemma request_calls (n : nat) (method endpoint : string)
    (body : option string) :
  (length (snd (request srv c n method endpoint body)) <= 1)%nat.
Proof.
  unfold request. destruct (srv n _) as [e|e|e|status b]; simpl; try lia.
  destruct (400 <=? status); simpl; lia.
Qed.

Lemma GetRoleMembers_calls (n : nat) (roleID : string) :
  (length (snd (GetRoleMembers unmarshalMembers srv c n roleID)) <= 1)%nat.
Proof.
  unfold GetRoleMembers, Get_.
  pose proof (request_calls n "GET" ("/directoryRoles/" ++ roleID ++ "/members")
                None) as H.
  destruct (request srv c n "GET" _ None) as [[e|data] calls]; exact H.
Qed.

(** What the loop of [EnumerateAllRolesWithMembers] gathers. *)
Lemma collectRoles_spec (roles : list types.DirectoryRole) : forall n,
  let out := fst (collectRoles unmarshalMembers srv c n roles) in
  let calls := snd (collectRoles unmarshalMembers srv c n roles) in
  Subseq (map types.Role out) roles
  /\ (forall rm, In rm out ->
        types.Members rm <> []
        /\ exists i, nth_error roles i = Some (types.Role rm)
                     /\ fst (GetRoleMembers unmarshalMembers srv c (n + i)
                               (types.roleID (types.Role rm)))
                        = inr (types.Members rm))
  /\ (forall i role members,
        nth_error roles i = Some role ->
        fst (GetRoleMembers unmarshalMembers srv c (n + i) (types.roleID role))
        = inr members ->
        members <> [] ->
        In {| types.Role := role; types.Members := members |} out)
  /\ (length calls <= length roles)%nat.
Proof.
  induction roles as [|role rest IH]; intros n; cbn zeta.
  - simpl. refine (conj Subseq_nil (conj _ (conj _ _))).
    + intros rm [].
    + intros [|i] role members H; discriminate H.
    + lia.
  - specialize (IH (S n)). cbn zeta in IH.
    pose proof (GetRoleMembers_calls n (types.roleID role)) as Hc.
    cbn [collectRoles].
    destruct (GetRoleMembers unmarshalMembers srv c n (types.roleID role))
      as [r calls] eqn:G.
    destruct (collectRoles unmarshalMembers srv c (S n) rest)
      as [results calls'] eqn:R.
    simpl in IH, Hc. destruct IH as (Hsub & Hin & Hall & Hlen).
    assert (Hshift : forall i, (S n + i)%nat = (n + S i)%nat) by (intros; lia).
    assert (Hskip :
      Subseq (map types.Role results) (role :: rest)
      /\ (forall rm, In rm results ->
            types.Members rm <> []
            /\ exists i, nth_error (role :: rest) i = Some (types.Role rm)
                         /\ fst (GetRoleMembers unmarshalMembers srv c (n + i)
                                   (types.roleID (types.Role rm)))
                            = inr (types.Members rm))
      /\ (length (calls ++ calls') <= length (role :: rest))%nat).
    { refine (conj (Subseq_skip _ _ _ Hsub) (conj _ _)).
      - intros rm Hrm. destruct (Hin rm Hrm) as (Hm & i & Hn & Hg).
        split; [exact Hm|]. exists (S i). rewrite <- Hshift. now split.
      - rewrite length_app. simpl. lia. }
    destruct Hskip as (Hs1 & Hs2 & Hs3).
    destruct r as [err|members].
    + simpl. refine (conj Hs1 (conj Hs2 (conj _ Hs3))).
      intros [|i] role' members' Hn Hg Hne.
      * injection Hn as <-. rewrite Nat.add_0_r, G in Hg. discriminate Hg.
      * rewrite <- Hshift in Hg. now apply (Hall i).
    + destruct (0 <? Z.of_nat (length members)) eqn:L.
      * simpl. refine (conj (Subseq_keep _ _ _ Hsub) (conj _ (conj _ Hs3))).
        -- intros rm [<- | Hrm]; [|now apply Hs2].
           simpl. split.
           ++ apply Z.ltb_lt in L. destruct members; [simpl in L; lia|discriminate].
           ++ exists 0%nat. rewrite Nat.add_0_r, G. now split.
        -- intros [|i] role' members' Hn Hg Hne.
           ++ injection Hn as <-. rewrite Nat.add_0_r, G in Hg.
              injection Hg as <-. now left.
           ++ right. rewrite <- Hshift in Hg. now apply (Hall i).
      * simpl. refine (conj Hs1 (conj Hs2 (conj _ Hs3))).
        intros [|i] role' members' Hn Hg Hne.
        -- injection Hn as <-. rewrite Nat.add_0_r, G in Hg.
           injection Hg as Hm. subst members'. apply Z.ltb_ge in L.
           destruct members; [congruence|simpl in L; lia].
        -- rewrite <- Hshift in Hg. now apply (Hall i).
Qed.

End Roles.

(** X20. Once the roles have arrived, [EnumerateAllRolesWithMembers] does
    not fail: it returns, in the order of the roles, those whose member
    request succeeded with at least one member, each with the members
    that request returned. A role whose request failed or that has no
    member is left out, and it makes one call per role at most besides the
    first. *)
Theorem EnumerateAllRolesWithMembers_keeps_populated_roles
    (unmarshalRoles : string -> error + list types.DirectoryRole)
    (unmarshalMembers : string -> error + list types.RoleMember)
    (srv : ApiServer) (c : Client) (n : nat)
    (roles : list types.DirectoryRole) :
  fst (EnumerateDirectoryRoles unmarshalRoles srv c n) = inr roles ->
  exists out calls,
    EnumerateAllRolesWithMembers unmarshalRoles unmarshalMembers srv c n
    = (inr out, calls)
    /\ Subseq (map types.Role out) roles
    /\ (forall rm, In rm out ->
          types.Members rm <> []
          /\ exists i, nth_error roles i = Some (types.Role rm)
                       /\ fst (GetRoleMembers unmarshalMembers srv c (S n + i)
                                 (types.roleID (types.Role rm)))
                          = inr (types.Members rm))
    /\ (forall i role members,
          nth_error roles i = Some role ->
          fst (GetRoleMembers unmarshalMembers srv c (S n + i)
                 (types.roleID role)) = inr members ->
          members <> [] ->
          In {| types.Role := role; types.Members := members |} out)
    /\ (length calls <= 1 + length roles)%nat.
Proof.
  intros Hroles. unfold EnumerateAllRolesWithMembers.
  assert (Hc0 : (length (snd (EnumerateDirectoryRoles unmarshalRoles srv c n))
                 <= 1)%nat).
  { unfold EnumerateDirectoryRoles, Get_.
    pose proof (request_calls srv c n "GET" "/directoryRoles" None) as H.
    destruct (request srv c n "GET" "/directoryRoles" None) as [[e|d] cs];
      exact H. }
  destruct (EnumerateDirectoryRoles unmarshalRoles srv c n) as [r calls0].
  simpl in Hroles, Hc0. subst r.
  pose proof (collectRoles_spec unmarshalMembers srv c roles (S n)) as H.
  cbn zeta in H.
  destruct (collectRoles unmarshalMembers srv c (S n) roles) as [out calls'].
  simpl in H. destruct H as (H1 & H2 & H3 & H4).
  exists out, (calls0 ++ calls')%list.
  refine (conj eq_refl (conj H1 (conj H2 (conj H3 _)))).
  rewrite length_app. lia.
Qed.

Lemma EnumerateAllRolesWithMembers_keeps_populated_roles_witness :
  exists out calls,
    EnumerateAllRolesWithMembers sampleGraph.unmarshalRoles
      sampleGraph.unmarshalMembers sampleGraph.directory sampleGraph.client 0
    = (inr out, calls)
    /\ Subseq (map types.Role out) [sampleGraph.readers; sampleGraph.admins]
    /\ (forall rm, In rm out ->
          types.Members rm <> []
          /\ exists i,
               nth_error [sampleGraph.readers; sampleGraph.admins] i
               = Some (types.Role rm)
               /\ fst (GetRoleMembers sampleGraph.unmarshalMembers
                         sampleGraph.directory sampleGraph.client (1 + i)
                         (types.roleID (types.Role rm)))
                  = inr (types.Members rm))
    /\ (forall i role members,
          nth_error [sampleGraph.readers; sampleGraph.admins] i = Some role ->
          fst (GetRoleMembers sampleGraph.unmarshalMembers
                 sampleGraph.directory sampleGraph.client (1 + i)
                 (types.roleID role)) = inr members ->
          members <> [] ->
          In {| types.Role := role; types.Members := members |} out)
    /\ (length calls
        <= 1 + length [sampleGraph.readers; sampleGraph.admins])%nat.
Proof.
  apply (EnumerateAllRolesWithMembers_keeps_populated_roles
           sampleGraph.unmarshalRoles sampleGraph.unmarshalMembers
           sampleGraph.directory sampleGraph.client 0
           [sampleGraph.readers; sampleGraph.admins]).
  reflexivity.
Defined.

Lemma findGlobalAdmins_none
    (unmarshalMembers : string -> error + list types.RoleMember)
    (srv : ApiServer) (c : Client) (n : nat)
    (roles : list types.DirectoryRole) :
  (forall role, In role roles ->
     types.roleDisplayName role <> GlobalAdminRoleName) ->
  findGlobalAdmins unmarshalMembers srv c n roles = (inr None, []).
Proof.
  induction roles as [|role rest IH]; intros H; [reflexivity|].
  cbn [findGlobalAdmins].
  destruct (String.eqb_spec (types.roleDisplayName role) GlobalAdminRoleName)
    as [E|_].
  - exfalso. apply (H role); [now left|exact E].
  - apply IH. intros r Hr. apply H. now right.
Qed.

Lemma findGlobalAdmins_first
    (unmarshalMembers : string -> error + list types.RoleMember)
    (srv : ApiServer) (c : Client) (n : nat)
    (before after : list types.DirectoryRole) (role : types.DirectoryRole) :
  (forall r, In r before -> types.roleDisplayName r <> GlobalAdminRoleName) ->
  types.roleDisplayName role = GlobalAdminRoleName ->
  findGlobalAdmins unmarshalMembers srv c n (before ++ role :: after)
  = (match fst (GetRoleMembers unmarshalMembers srv c n (types.roleID role)) with
     | inl err => inl err
     | inr members =>
         inr (Some {| types.Role := role; types.Members := members |})
     end,
     snd (GetRoleMembers unmarshalMembers srv c n (types.roleID role))).
Proof.
  induction before as [|r before IH]; intros H E.
  - cbn [app findGlobalAdmins]. rewrite E, String.eqb_refl.
    now destruct (GetRoleMembers unmarshalMembers srv c n (types.roleID role))
      as [[err|members] calls].
  - cbn [app findGlobalAdmins].
    destruct (String.eqb_spec (types.roleDisplayName r) GlobalAdminRoleName)
      as [E'|_].
    + exfalso. apply (H r); [now left|exact E'].
    + apply IH; [|exact E]. intros r' Hr'. apply H. now right.
Qed.

(** X21. Once the roles have arrived, [GetGlobalAdmins] looks at the first
    role named Global Administrator only: it returns that role with the
    members its one member request returns, be they none, or the error of
    that request; later roles of the same name are not looked at. When no
    role has the name, it returns no role and no error, and has made no
    call besides the first. *)
Theorem GetGlobalAdmins_first_match
    (unmarshalRoles : string -> error + list types.DirectoryRole)
    (unmarshalMembers : string -> error + list types.RoleMember)
    (srv : ApiServer) (c : Client) (n : nat)
    (roles : list types.DirectoryRole) :
  fst (EnumerateDirectoryRoles unmarshalRoles srv c n) = inr roles ->
  ((forall role, In role roles ->
      types.roleDisplayName role <> GlobalAdminRoleName)
   -> GetGlobalAdmins unmarshalRoles unmarshalMembers srv c n
      = (inr None, snd (EnumerateDirectoryRoles unmarshalRoles srv c n)))
  /\ (forall before role after,
        roles = (before ++ role :: after)%list ->
        (forall r, In r before ->
           types.roleDisplayName r <> GlobalAdminRoleName) ->
        types.roleDisplayName role = GlobalAdminRoleName ->
        GetGlobalAdmins unmarshalRoles unmarshalMembers srv c n
        = (match fst (GetRoleMembers unmarshalMembers srv c (S n)
                        (types.roleID role)) with
           | inl err => inl err
           | inr members =>
               inr (Some {| types.Role := role; types.Members := members |})
           end,
           (snd (EnumerateDirectoryRoles unmarshalRoles srv c n)
            ++ snd (GetRoleMembers unmarshalMembers srv c (S n)
                      (types.roleID role)))%list)).
Proof.
  intros Hroles. unfold GetGlobalAdmins.
  destruct (EnumerateDirectoryRoles unmarshalRoles srv c n) as [r calls0].
  simpl in Hroles. subst r. cbn [snd]. split.
  - intros Hnone. rewrite findGlobalAdmins_none by exact Hnone.
    now rewrite app_nil_r.
  - intros before role after -> Hb E.
    now rewrite (findGlobalAdmins_first unmarshalMembers srv c (S n)
                   before after role Hb E).
Qed.

Lemma GetGlobalAdmins_first_match_witness :
  ((forall role, In role [sampleGraph.readers; sampleGraph.admins] ->
      types.roleDisplayName role <> GlobalAdminRoleName)
   -> GetGlobalAdmins sampleGraph.unmarshalRoles sampleGraph.unmarshalMembers
        sampleGraph.directory sampleGraph.client 0
      = (inr None,
         snd (EnumerateDirectoryRoles sampleGraph.unmarshalRoles
                sampleGraph.directory sampleGraph.client 0)))
  /\ (forall before role after,
        [sampleGraph.readers; sampleGraph.admins]
        = (before ++ role :: after)%list ->
        (forall r, In r before ->
           types.roleDisplayName r <> GlobalAdminRoleName) ->
        types.roleDisplayName role = GlobalAdminRoleName ->
        GetGlobalAdmins sampleGraph.unmarshalRoles sampleGraph.unmarshalMembers
          sampleGraph.directory sampleGraph.client 0
        = (match fst (GetRoleMembers sampleGraph.unmarshalMembers
                        sampleGraph.directory sampleGraph.client 1
                        (types.roleID role)) with
           | inl err => inl err
           | inr members =>
               inr (Some {| types.Role := role; types.Members := members |})
           end,
           (snd (EnumerateDirectoryRoles sampleGraph.unmarshalRoles
                   sampleGraph.directory sampleGraph.client 0)
            ++ snd (GetRoleMembers sampleGraph.unmarshalMembers
                      sampleGraph.directory sampleGraph.client 1
                      (types.roleID role)))%list)).
Proof.
  apply (GetGlobalAdmins_first_match sampleGraph.unmarshalRoles
           sampleGraph.unmarshalMembers sampleGraph.directory
           sampleGraph.client 0 [sampleGraph.readers; sampleGraph.admins]).
  reflexivity.
Defined.

End GraphProps.

(** ** Search, download and hunt *)

Module HuntProps.

Import graph.

Lemma cutPrefix_app (prefix rest : string) :
  strings.cutPrefix (prefix ++ rest) prefix = Some rest.
Proof.
  induction prefix as [|p prefix IH]; simpl; [reflexivity|].
  now rewrite Ascii.eqb_refl.
Qed.

Lemma prefix_app (s t : string) : String.prefix s (s ++ t) = true.
Proof.
  induction s as [|x s IH]; simpl; [now destruct t|].
  destruct (ascii_dec x x); [exact IH|congruence].
Qed.

Lemma prefix_refl (s : string) : String.prefix s s = true.
Proof.
  induction s as [|x s IH]; simpl; [reflexivity|].
  destruct (ascii_dec x x); [exact IH|congruence].
Qed.

(** X22. [buildQueries] gives the keyword itself first and, with KQL on,
    one more query per file type, the keyword followed by [ filetype:] and
    the type without one leading dot; with KQL off or no file type it
    gives the keyword alone. Every query begins with the keyword. *)
Theorem buildQueries_shape
    (keyword : string) (fileTypes : list string) (includeKQL : bool) :
  hd_error (buildQueries keyword fileTypes includeKQL) = Some keyword
  /\ length (buildQueries keyword fileTypes includeKQL)
     = (1 + (if includeKQL then length fileTypes else 0))%nat
  /\ (forall q, In q (buildQueries keyword fileTypes includeKQL)
        -> String.prefix keyword q = true)
  /\ (forall i ft, nth_error fileTypes i = Some ft
        -> nth_error (buildQueries keyword fileTypes true) (S i)
           = Some (keyword ++ " filetype:" ++ strings.TrimPrefix ft "."))
  /\ (forall ext, strings.TrimPrefix ("." ++ ext) "." = ext)
  /\ buildQueries keyword fileTypes false = [keyword]
  /\ buildQueries keyword [] includeKQL = [keyword].
Proof.
  unfold buildQueries.
  refine (conj eq_refl (conj _ (conj _ (conj _ (conj _ (conj eq_refl _)))))).
  - destruct includeKQL; [|reflexivity].
    destruct fileTypes as [|ft fts]; [reflexivity|].
    cbn [andb]. change (0 <? Z.of_nat (length (ft :: fts))) with true.
    cbn [app length]. now rewrite length_map.
  - intros q [<- | Hq].
    + apply prefix_refl.
    + destruct (includeKQL && _); [|destruct Hq].
      apply in_map_iff in Hq. destruct Hq as (ft & <- & _). apply prefix_app.
  - intros i ft Hi. cbn [andb app nth_error].
    destruct fileTypes as [|ft0 fts]; [destruct i; discriminate Hi|].
    change (0 <? Z.of_nat (length (ft0 :: fts))) with true. cbv iota.
    now rewrite nth_error_map, Hi.
  - intros ext. unfold strings.TrimPrefix.
    now rewrite (cutPrefix_app "." ext).
  - destruct includeKQL; reflexivity.
Qed.

Lemma mark_spec (id k : string) (seen : seenMap) :
  mark id seen k = (k =? id)%string || seen k.
Proof. unfold mark. now destruct (k =? id)%string. Qed.

Lemma deduplicateItems_cons (item : types.DriveItem)
    (rest : list types.DriveItem) (seen : seenMap) :
  deduplicateItems (item :: rest) seen
  = if seen (types.ID item) then deduplicateItems rest seen
    else (item :: fst (deduplicateItems rest (mark (types.ID item) seen)),
          snd (deduplicateItems rest (mark (types.ID item) seen))).
Proof.
  cbn [deduplicateItems]. destruct (seen (types.ID item)); cbn [negb];
    [reflexivity|].
  now destruct (deduplicateItems rest (mark (types.ID item) seen)).
Qed.

(** What [deduplicateItems] returns and leaves in the map. *)
Lemma deduplicateItems_spec (items : list types.DriveItem) :
  forall seen : seenMap,
    Subseq (fst (deduplicateItems items seen)) items
    /\ (forall x, In x (fst (deduplicateItems items seen))
          -> seen (types.ID x) = false)
    /\ NoDup (map types.ID (fst (deduplicateItems items seen)))
    /\ (forall k, snd (deduplicateItems items seen) k
                  = seen k
                    || existsb (fun x => (k =? types.ID x)%string) items)
    /\ (forall x, In x items -> seen (types.ID x) = false
          -> In (types.ID x) (map types.ID (fst (deduplicateItems items seen)))).
Proof.
  induction items as [|item rest IH]; intros seen.
  - simpl. refine (conj Subseq_nil (conj _ (conj (NoDup_nil _) (conj _ _)))).
    + intros x [].
    + intros k. now rewrite orb_false_r.
    + intros x [].
  - rewrite deduplicateItems_cons.
    destruct (seen (types.ID item)) eqn:S.
    + destruct (IH seen) as (H1 & H2 & H3 & H4 & H5).
      refine (conj (Subseq_skip _ _ _ H1) (conj H2 (conj H3 (conj _ _)))).
      * intros k. rewrite H4. cbn [existsb].
        destruct (String.eqb_spec k (types.ID item)) as [->|];
          [now rewrite S|reflexivity].
      * intros x [<- | Hx] Hs; [congruence|]. now apply H5.
    + destruct (IH (mark (types.ID item) seen)) as (H1 & H2 & H3 & H4 & H5).
      cbn [fst snd map].
      refine (conj (Subseq_keep _ _ _ H1) (conj _ (conj _ (conj _ _)))).
      * intros x [<- | Hx]; [exact S|].
        specialize (H2 x Hx). rewrite mark_spec in H2.
        now apply orb_false_iff in H2.
      * constructor; [|exact H3]. intros Hin.
        apply in_map_iff in Hin. destruct Hin as (x & Hid & Hx).
        specialize (H2 x Hx). rewrite mark_spec, Hid, String.eqb_refl in H2.
        discriminate H2.
      * intros k. rewrite H4, mark_spec. cbn [existsb].
        now rewrite orb_assoc, (orb_comm (k =? types.ID item)%string).
      * intros x [<- | Hx] Hs; [now left|].
        destruct (String.eqb_spec (types.ID x) (types.ID item)) as [E|N].
        -- left. now symmetry.
        -- right. apply H5; [exact Hx|]. rewrite mark_spec, Hs.
           apply orb_false_iff. split; [|reflexivity].
           now apply String.eqb_neq.
Qed.

Lemma deduplicateItems_seen (items : list types.DriveItem) :
  forall seen : seenMap,
    (forall x, In x items -> seen (types.ID x) = true) ->
    fst (deduplicateItems items seen) = []
    /\ forall k, snd (deduplicateItems items seen) k = seen k.
Proof.
  induction items as [|item rest IH]; intros seen H; [now split|].
  rewrite deduplicateItems_cons, (H item (or_introl eq_refl)).
  apply IH. intros x Hx. apply H. now right.
Qed.

Lemma deduplicateItems_first (items : list types.DriveItem) :
  forall (seen : seenMap) (x : types.DriveItem),
    In x (fst (deduplicateItems items seen)) ->
    exists l1 l2, items = (l1 ++ x :: l2)%list
                  /\ ~ In (types.ID x) (map types.ID l1).
Proof.
  induction items as [|item rest IH]; intros seen x Hx; [destruct Hx|].
  rewrite deduplicateItems_cons in Hx.
  destruct (seen (types.ID item)) eqn:S.
  - destruct (deduplicateItems_spec rest seen) as (_ & H2 & _).
    destruct (IH seen x Hx) as (l1 & l2 & -> & Hn).
    exists (item :: l1), l2. split; [reflexivity|].
    intros [E | Hin]; [|now apply Hn].
    specialize (H2 x Hx). congruence.
  - destruct Hx as [<- | Hx].
    + exists [], rest. split; [reflexivity|]. intros [].
    + destruct (deduplicateItems_spec rest (mark (types.ID item) seen))
        as (_ & H2 & _).
      destruct (IH _ x Hx) as (l1 & l2 & -> & Hn).
      exists (item :: l1), l2. split; [reflexivity|].
      intros [E | Hin]; [|now apply Hn].
      specialize (H2 x Hx). rewrite mark_spec, <- E, String.eqb_refl in H2.
      discriminate H2.
Qed.

Lemma existsb_id (k : string) (items : list types.DriveItem) :
  existsb (fun x => (k =? types.ID x)%string) items = true
  <-> In k (map types.ID items).
Proof.
  rewrite existsb_exists, in_map_iff. split.
  - intros (x & Hx & E). apply String.eqb_eq in E. now exists x.
  - intros (x & E & Hx). exists x. split; [exact Hx|]. now apply String.eqb_eq.
Qed.

(** X23. [deduplicateItems] returns, in their order, the items whose ID
    the map had not seen, each ID once, the first item that carries it;
    afterwards the map has seen the IDs it had seen before and those of
    all the items, so that a second pass over the same items returns
    nothing. *)
Theorem deduplicateItems_first_occurrences
    (items : list types.DriveItem) (seen : seenMap) :
  Subseq (fst (deduplicateItems items seen)) items
  /\ NoDup (map types.ID (fst (deduplicateItems items seen)))
  /\ (forall k, In k (map types.ID (fst (deduplicateItems items seen)))
        <-> In k (map types.ID items) /\ seen k = false)
  /\ (forall x, In x (fst (deduplicateItems items seen))
        -> exists l1 l2, items = (l1 ++ x :: l2)%list
                         /\ ~ In (types.ID x) (map types.ID l1))
  /\ (forall k, snd (deduplicateItems items seen) k = true
        <-> seen k = true \/ In k (map types.ID items))
  /\ fst (deduplicateItems items (snd (deduplicateItems items seen))) = [].
Proof.
  destruct (deduplicateItems_spec items seen) as (H1 & H2 & H3 & H4 & H5).
  assert (Hseen : forall k, snd (deduplicateItems items seen) k = true
                    <-> seen k = true \/ In k (map types.ID items)).
  { intros k. rewrite H4, orb_true_iff, existsb_id. tauto. }
  refine (conj H1 (conj H3 (conj _
            (conj (deduplicateItems_first items seen) (conj Hseen _))))).
  - intros k. split.
    + intros Hk. apply in_map_iff in Hk. destruct Hk as (x & <- & Hx).
      split; [|now apply H2]. apply in_map.
      clear - H1 Hx. induction H1 as [|y l1 l2 _ IH|y l1 l2 _ IH].
      * destruct Hx.
      * right. now apply IH.
      * destruct Hx as [<- | Hx]; [now left|right; now apply IH].
    + intros (Hk & Hs). apply in_map_iff in Hk. destruct Hk as (x & <- & Hx).
      now apply H5.
  - apply deduplicateItems_seen. intros x Hx. apply Hseen. right.
    now apply in_map.
Qed.

Section SearchLoops.

Variable IsPathSeparator : ascii -> bool.
Variable marshalSearch : string -> Z -> error + string.
Variable unmarshalSearch : string -> error + searchResponse.
Variable srv : ApiServer.
Variable c : Client.
Variable maxPerQuery : Z.

Let search := Search IsPathSeparator marshalSearch unmarshalSearch srv c.
Let queriesLoop :=
  searchQueries IsPathSeparator marshalSearch unmarshalSearch srv c maxPerQuery.

Lemma Search_calls (n : nat) (query : string) :
  (length (snd (fst (search n query maxPerQuery))) <= 1)%nat
  /\ (snd (search n query maxPerQuery) <= S n)%nat
  /\ forall result, fst (fst (search n query maxPerQuery)) = inr result
       -> types.Query result = query
          /\ forall x, In x (types.Items result) -> types.MatchedOn x = query.
Proof.
  unfold search, Search, Post.
  destruct (marshalSearch query _) as [e|payload]; simpl.
  - refine (conj _ (conj _ _)); try lia. discriminate.
  - pose proof (GraphProps.request_calls srv c n "POST" "/search/query"
                  (Some payload)) as H.
    destruct (request srv c n "POST" "/search/query" (Some payload))
      as [[e|data] cs]; simpl in *.
    + refine (conj _ (conj _ _)); try lia. discriminate.
    + refine (conj _ (conj _ _)); try lia. unfold parseSearchResponse.
      destruct (unmarshalSearch data) as [e|[|[|container ?] ?]];
        intros result Hr; try discriminate; injection Hr as <-;
        (split; [reflexivity|]); cbn [types.Items]; intros x Hx;
        try destruct Hx.
      apply in_map_iff in Hx. now destruct Hx as (hit & <- & _).
Qed.

Lemma Subseq_In {A : Type} (l1 l2 : list A) (x : A) :
  Subseq l1 l2 -> In x l1 -> In x l2.
Proof.
  induction 1 as [|y l1 l2 _ IHs|y l1 l2 _ IHs]; intros Hx.
  - destruct Hx.
  - right. now apply IHs.
  - destruct Hx as [<- | Hx]; [now left|right; now apply IHs].
Qed.

Lemma allItems_app (l1 l2 : list types.SearchResult) :
  allItems (l1 ++ l2) = (allItems l1 ++ allItems l2)%list.
Proof. unfold allItems. apply flat_map_app. Qed.

Lemma NoDup_app_disjoint {A : Type} (l1 l2 : list A) :
  NoDup l1 -> NoDup l2 -> (forall x, In x l1 -> ~ In x l2) -> NoDup (l1 ++ l2).
Proof.
  induction l1 as [|x l1 IH]; intros H1 H2 Hd; [exact H2|].
  inversion H1 as [|? ? Hx H1']; subst. simpl. constructor.
  - rewrite in_app_iff. intros [H|H]; [now apply Hx|].
    apply (Hd x); [now left|exact H].
  - apply IH; try assumption. intros y Hy. apply Hd. now right.
Qed.

(** One pass of the inner loop keeps the state tidy, makes a call per
    query at most, and every result it adds answers one of its queries,
    which its items name. *)
Lemma searchQueries_tidy (queries : list string) : forall st,
  tidy st ->
  tidy (queriesLoop queries st)
  /\ (length (calls (queriesLoop queries st))
      <= length (calls st) + length queries)%nat
  /\ (forall r, In r (results (queriesLoop queries st))
        -> In r (results st)
           \/ (In (types.Query r) queries
               /\ forall x, In x (types.Items r)
                            -> types.MatchedOn x = types.Query r)).
Proof.
  induction queries as [|query rest IH]; intros st Ht.
  - unfold queriesLoop. cbn [searchQueries length].
    refine (conj Ht (conj _ _)); [lia|]. intros r Hr. now left.
  - unfold queriesLoop. cbn [searchQueries]. fold search.
    destruct (Search_calls (next st) query) as (Hc & _ & Hq).
    destruct (search (next st) query maxPerQuery) as [[r cs] n'].
    cbn [fst snd] in Hc, Hq.
    assert (Hsame : forall st1,
              tidy st1 -> results st1 = results st ->
              calls st1 = (calls st ++ cs)%list ->
              tidy (queriesLoop rest st1)
              /\ (length (calls (queriesLoop rest st1))
                  <= length (calls st) + length (query :: rest))%nat
              /\ (forall r0, In r0 (results (queriesLoop rest st1))
                    -> In r0 (results st)
                       \/ (In (types.Query r0) (query :: rest)
                           /\ forall x, In x (types.Items r0)
                                -> types.MatchedOn x = types.Query r0))).
    { intros st1 Ht1 Hr1 Hc1. destruct (IH st1 Ht1) as (H1 & H2 & H3).
      refine (conj H1 (conj _ _)).
      - rewrite Hc1, length_app in H2. simpl. lia.
      - intros r0 Hr0. destruct (H3 r0 Hr0) as [H|[H H']];
          [left; now rewrite <- Hr1|right; split; [now right|exact H']]. }
    destruct r as [err|result].
    { apply Hsame; [exact Ht|reflexivity|reflexivity]. }
    destruct (types.TotalHits result =? 0) eqn:Hz.
    { apply Hsame; [exact Ht|reflexivity|reflexivity]. }
    destruct (deduplicateItems_spec (types.Items result) (seenIDs st))
      as (D1 & D2 & D3 & D4 & D5).
    destruct (deduplicateItems (types.Items result) (seenIDs st))
      as [unique seen'] eqn:Hd.
    cbn [fst snd] in D1, D2, D3, D4, D5.
    destruct Ht as (T1 & T2 & T3).
    assert (Hmore : forall k, seenIDs st k = true -> seen' k = true).
    { intros k Hk. now rewrite D4, Hk. }
    destruct (0 <? Z.of_nat (length unique)) eqn:Hu.
    + fold queriesLoop.
      destruct (IH {| next := n'; seenIDs := seen';
                      results := (results st ++ [withItems result unique])%list;
                      calls := (calls st ++ cs)%list |}) as (H1 & H2 & H3).
      { unfold tidy. cbn [results seenIDs].
        rewrite allItems_app. unfold allItems at 2 4. cbn [flat_map withItems types.Items].
        rewrite app_nil_r. refine (conj _ (conj _ _)).
        - rewrite map_app. apply NoDup_app_disjoint; [exact T1|exact D3|].
          intros k Hk1 Hk2.
          apply in_map_iff in Hk1. destruct Hk1 as (x & <- & Hx).
          apply in_map_iff in Hk2. destruct Hk2 as (y & E & Hy).
          specialize (T2 x Hx). specialize (D2 y Hy). congruence.
        - intros x Hx. apply in_app_iff in Hx. destruct Hx as [Hx|Hx].
          + apply Hmore, T2, Hx.
          + rewrite D4, (D2 x Hx). cbn [orb]. apply existsb_id, in_map.
            exact (Subseq_In _ _ _ D1 Hx).
        - intros r0 Hr0. apply in_app_iff in Hr0. destruct Hr0 as [Hr0|[<- | []]].
          + now apply T3.
          + cbn [withItems types.Items types.TotalHits]. split.
            * apply Z.ltb_lt in Hu. destruct unique; [simpl in Hu; lia|discriminate].
            * now apply Z.eqb_neq. }
      refine (conj H1 (conj _ _)).
      * cbn [calls] in H2. rewrite length_app in H2. simpl. lia.
      * intros r0 Hr0.
        destruct (H3 r0 Hr0) as [H|[H H']]; [|right; split; [now right|exact H']].
        cbn [results] in H. apply in_app_iff in H.
        destruct H as [H|[<- | []]]; [now left|].
        destruct (Hq result eq_refl) as (Hq1 & Hq2).
        right. cbn [withItems types.Query types.Items]. split.
        -- left. now symmetry.
        -- intros x Hx. rewrite Hq1. apply Hq2. exact (Subseq_In _ _ _ D1 Hx).
    + fold queriesLoop. apply Hsame; [|reflexivity|reflexivity].
      unfold tidy. cbn [results seenIDs]. refine (conj T1 (conj _ T3)).
      intros x Hx. apply Hmore, T2, Hx.
Qed.

Lemma buildQueries_length (keyword : string) (fileTypes : list string)
    (includeKQL : bool) :
  length (buildQueries keyword fileTypes includeKQL)
  = S (if includeKQL then length fileTypes else 0).
Proof.
  unfold buildQueries. rewrite length_app. simpl. f_equal.
  destruct includeKQL; [|reflexivity]. destruct fileTypes as [|ft fts];
    [reflexivity|]. cbn [andb]. replace (0 <? _) with true.
  - apply length_map.
  - symmetry. apply Z.ltb_lt. simpl. lia.
Qed.

Lemma searchKeywords_tidy (fileTypes : list string) (includeKQL : bool)
    (keywords : list string) : forall st,
  tidy st ->
  tidy (searchKeywords IsPathSeparator marshalSearch unmarshalSearch srv c
          maxPerQuery fileTypes includeKQL keywords st)
  /\ (length (calls (searchKeywords IsPathSeparator marshalSearch
                       unmarshalSearch srv c maxPerQuery fileTypes includeKQL
                       keywords st))
      <= length (calls st)
         + length keywords * S (if includeKQL then length fileTypes else 0))%nat
  /\ (forall r, In r (results (searchKeywords IsPathSeparator marshalSearch
                                 unmarshalSearch srv c maxPerQuery fileTypes
                                 includeKQL keywords st))
        -> In r (results st)
           \/ ((exists keyword,
                  In keyword keywords
                  /\ In (types.Query r)
                       (buildQueries keyword fileTypes includeKQL))
               /\ forall x, In x (types.Items r)
                            -> types.MatchedOn x = types.Query r)).
Proof.
  induction keywords as [|keyword rest IH]; intros st Ht.
  - cbn [searchKeywords length]. refine (conj Ht (conj _ _)); [lia|].
    intros r Hr. now left.
  - cbn [searchKeywords].
    destruct (searchQueries_tidy (buildQueries keyword fileTypes includeKQL)
                st Ht) as (Q1 & Q2 & Q3).
    fold queriesLoop.
    destruct (IH _ Q1) as (H1 & H2 & H3).
    rewrite buildQueries_length in Q2.
    refine (conj H1 (conj _ _)).
    + cbn [length]. lia.
    + intros r Hr. destruct (H3 r Hr) as [H|[(kw & Hk & Hq) H']].
      * destruct (Q3 r H) as [H0|[H0 H']]; [now left|right].
        split; [|exact H']. exists keyword. split; [now left|exact H0].
      * right. split; [|exact H']. exists kw. split; [now right|exact Hq].
Qed.

End SearchLoops.

(** What [SearchWithOptions] ends in, whatever the server answers. *)
Lemma SearchWithOptions_spec
    (IsPathSeparator : ascii -> bool)
    (marshalSearch : string -> Z -> error + string)
    (unmarshalSearch : string -> error + searchResponse)
    (srv : ApiServer) (c : Client) (n : nat) (opts : types.SearchOptions) :
  NoDup (map types.ID
           (allItems (results (SearchWithOptions IsPathSeparator marshalSearch
                                 unmarshalSearch srv c n opts))))
  /\ (forall r,
        In r (results (SearchWithOptions IsPathSeparator marshalSearch
                         unmarshalSearch srv c n opts))
        -> types.Items r <> [] /\ types.TotalHits r <> 0
           /\ (exists keyword,
                 In keyword (types.Keywords opts)
                 /\ In (types.Query r)
                      (buildQueries keyword (types.FileTypes opts)
                         (types.IncludeKQL opts)))
           /\ forall x, In x (types.Items r)
                        -> types.MatchedOn x = types.Query r)
  /\ (length (calls (SearchWithOptions IsPathSeparator marshalSearch
                       unmarshalSearch srv c n opts))
      <= length (types.Keywords opts)
         * S (if types.IncludeKQL opts
              then length (types.FileTypes opts) else 0))%nat.
Proof.
  unfold SearchWithOptions.
  match goal with
  | |- context [searchKeywords _ _ _ _ _ ?m ?f ?k ?ks ?st] =>
      destruct (searchKeywords_tidy IsPathSeparator marshalSearch
                  unmarshalSearch srv c m f k ks st) as ((T1 & _ & T3) & H2 & H3)
  end.
  { unfold tidy. cbn [results seenIDs allItems flat_map map].
    refine (conj (NoDup_nil _) (conj _ _)); intros ? []. }
  refine (conj T1 (conj _ _)).
  - intros r Hr. destruct (T3 r Hr) as (I1 & I2).
    destruct (H3 r Hr) as [[]|(Hk & Hm)].
    exact (conj I1 (conj I2 (conj Hk Hm))).
  - cbn [calls length] in H2. lia.
Qed.

(** X24. Whatever the server answers, the results of [SearchWithOptions]
    hold every item ID once at most; no result is without items or
    without hits; each result answers a query built from one of the
    keywords, and its items name that query; and the search makes no
    more calls than it has queries: one per keyword, and with KQL one
    more per keyword and file type. *)
Theorem SearchWithOptions_results_unique
    (IsPathSeparator : ascii -> bool)
    (marshalSearch : string -> Z -> error + string)
    (unmarshalSearch : string -> error + searchResponse)
    (srv : ApiServer) (c : Client) (n : nat) (opts : types.SearchOptions) :
  NoDup (map types.ID
           (allItems (results (SearchWithOptions IsPathSeparator marshalSearch
                                 unmarshalSearch srv c n opts))))
  /\ (forall r,
        In r (results (SearchWithOptions IsPathSeparator marshalSearch
                         unmarshalSearch srv c n opts))
        -> types.Items r <> [] /\ types.TotalHits r <> 0
           /\ (exists keyword,
                 In keyword (types.Keywords opts)
                 /\ In (types.Query r)
                      (buildQueries keyword (types.FileTypes opts)
                         (types.IncludeKQL opts)))
           /\ forall x, In x (types.Items r)
                        -> types.MatchedOn x = types.Query r)
  /\ (length (calls (SearchWithOptions IsPathSeparator marshalSearch
                       unmarshalSearch srv c n opts))
      <= length (types.Keywords opts)
         * S (if types.IncludeKQL opts
              then length (types.FileTypes opts) else 0))%nat.
Proof. apply SearchWithOptions_spec. Qed.

(** *** download.collectUniqueItems and hunt.aggregateSearchResults *)

Lemma deduplicateItems_app (l1 l2 : list types.DriveItem) : forall seen,
  fst (deduplicateItems (l1 ++ l2) seen)
  = (fst (deduplicateItems l1 seen)
     ++ fst (deduplicateItems l2 (snd (deduplicateItems l1 seen))))%list
  /\ snd (deduplicateItems (l1 ++ l2) seen)
     = snd (deduplicateItems l2 (snd (deduplicateItems l1 seen))).
Proof.
  induction l1 as [|item rest IH]; intros seen; [now split|].
  rewrite <- app_comm_cons, !deduplicateItems_cons.
  destruct (seen (types.ID item)); [apply IH|].
  cbn [fst snd]. destruct (IH (mark (types.ID item) seen)) as [E1 E2].
  now rewrite E1, E2.
Qed.

Lemma deduplicateItems_nodup (items : list types.DriveItem) : forall seen,
  NoDup (map types.ID items) ->
  (forall x, In x items -> seen (types.ID x) = false) ->
  fst (deduplicateItems items seen) = items.
Proof.
  induction items as [|item rest IH]; intros seen Hn Hs; [reflexivity|].
  rewrite deduplicateItems_cons, (Hs item (or_introl eq_refl)). cbn [fst].
  inversion Hn as [|? ? Hi Hn']; subst. f_equal. apply IH; [exact Hn'|].
  intros x Hx. rewrite mark_spec, (Hs x (or_intror Hx)), orb_false_r.
  apply String.eqb_neq. intros E. apply Hi. rewrite <- E. now apply in_map.
Qed.

Lemma collectItems_spec (items : list types.DriveItem) : forall seen acc,
  download.collectItems items seen acc
  = (snd (deduplicateItems items seen),
     (acc ++ fst (deduplicateItems items seen))%list).
Proof.
  induction items as [|item rest IH]; intros seen acc.
  - simpl. now rewrite app_nil_r.
  - cbn [download.collectItems]. rewrite deduplicateItems_cons.
    destruct (seen (types.ID item)); cbn [negb]; rewrite IH; [reflexivity|].
    cbn [fst snd]. now rewrite <- app_assoc.
Qed.

Lemma collectResults_spec (rs : list types.SearchResult) : forall seen acc,
  download.collectResults rs seen acc
  = (snd (deduplicateItems (allItems rs) seen),
     (acc ++ fst (deduplicateItems (allItems rs) seen))%list).
Proof.
  induction rs as [|r rest IH]; intros seen acc.
  - simpl. now rewrite app_nil_r.
  - cbn [download.collectResults]. rewrite collectItems_spec, IH.
    change (allItems (r :: rest)) with (types.Items r ++ allItems rest)%list.
    destruct (deduplicateItems_app (types.Items r) (allItems rest) seen)
      as [E1 E2].
    now rewrite E1, E2, app_assoc.
Qed.

(** The downloader's pass over the results is the search's
    [deduplicateItems] over all their items, from an empty map. *)
Lemma collectUniqueItems_dedup (rs : list types.SearchResult) :
  download.collectUniqueItems rs
  = fst (deduplicateItems (allItems rs) (fun _ => false)).
Proof.
  unfold download.collectUniqueItems. now rewrite collectResults_spec.
Qed.

(** X25. [collectUniqueItems] returns the items of all the results in
    their order, each ID once, the first item that carries it: what
    [deduplicateItems] gives on all the items from an empty map. Where
    no ID occurs twice it returns all the items. *)
Theorem collectUniqueItems_first_occurrences (rs : list types.SearchResult) :
  download.collectUniqueItems rs
  = fst (deduplicateItems (allItems rs) (fun _ => false))
  /\ Subseq (download.collectUniqueItems rs) (allItems rs)
  /\ NoDup (map types.ID (download.collectUniqueItems rs))
  /\ (forall k, In k (map types.ID (download.collectUniqueItems rs))
        <-> In k (map types.ID (allItems rs)))
  /\ (forall x, In x (download.collectUniqueItems rs)
        -> exists l1 l2, allItems rs = (l1 ++ x :: l2)%list
                         /\ ~ In (types.ID x) (map types.ID l1))
  /\ (NoDup (map types.ID (allItems rs))
      -> download.collectUniqueItems rs = allItems rs).
Proof.
  rewrite collectUniqueItems_dedup.
  destruct (deduplicateItems_spec (allItems rs) (fun _ => false))
    as (H1 & H2 & H3 & H4 & H5).
  refine (conj eq_refl (conj H1 (conj H3 (conj _
            (conj (deduplicateItems_first (allItems rs) _) _))))).
  - intros k. split.
    + intros Hk. apply in_map_iff in Hk. destruct Hk as (x & <- & Hx).
      apply in_map. exact (Subseq_In _ _ _ H1 Hx).
    + intros Hk. apply in_map_iff in Hk. destruct Hk as (x & <- & Hx).
      now apply H5.
  - intros Hn. now apply deduplicateItems_nodup.
Qed.

Lemma int64_add_l (a b : Z) :
  time.int64 (time.int64 a + b) = time.int64 (a + b).
Proof.
  unfold time.int64. f_equal.
  replace ((a + 2 ^ 63) mod 2 ^ 64 - 2 ^ 63 + b + 2 ^ 63)
    with ((a + 2 ^ 63) mod 2 ^ 64 + b) by lia.
  rewrite Zplus_mod_idemp_l. f_equal. lia.
Qed.

Lemma aggregate_total (rs : list types.SearchResult) : forall t m,
  fst (hunt.aggregate rs (time.int64 t) m)
  = time.int64 (t + fold_right Z.add 0 (map types.TotalHits rs)).
Proof.
  induction rs as [|r rest IH]; intros t m.
  - simpl. now rewrite Z.add_0_r.
  - cbn [hunt.aggregate map fold_right]. rewrite int64_add_l, IH.
    f_equal. lia.
Qed.

Lemma lookup_put (k k' : string) (v : types.DriveItem) (m : hunt.itemMap) :
  hunt.lookup k (hunt.put k' v m)
  = if (k' =? k)%string then Some v else hunt.lookup k m.
Proof.
  induction m as [|[k0 v0] rest IH]; [reflexivity|].
  cbn [hunt.put]. destruct (String.eqb_spec k0 k') as [->|N].
  - cbn [hunt.lookup]. now destruct (k' =? k)%string.
  - cbn [hunt.lookup]. rewrite IH.
    destruct (String.eqb_spec k0 k) as [->|]; [|reflexivity].
    destruct (String.eqb_spec k' k) as [->|]; [congruence|reflexivity].
Qed.

Lemma find_append {A : Type} (f : A -> bool) (l1 l2 : list A) :
  find f (l1 ++ l2)
  = match find f l1 with Some x => Some x | None => find f l2 end.
Proof.
  induction l1 as [|x l1 IH]; [reflexivity|].
  simpl. now destruct (f x).
Qed.

Lemma lookup_putItems (k : string) (items : list types.DriveItem) :
  forall m,
    hunt.lookup k (hunt.putItems items m)
    = match find (fun x => (types.ID x =? k)%string) (rev items) with
      | Some x => Some x
      | None => hunt.lookup k m
      end.
Proof.
  induction items as [|item rest IH]; intros m; [reflexivity|].
  cbn [hunt.putItems rev]. rewrite IH, find_append, lookup_put.
  cbn [find]. now destruct (find _ (rev rest)), (types.ID item =? k)%string.
Qed.

Lemma lookup_aggregate (k : string) (rs : list types.SearchResult) :
  forall t m,
    hunt.lookup k (snd (hunt.aggregate rs t m))
    = match find (fun x => (types.ID x =? k)%string) (rev (allItems rs)) with
      | Some x => Some x
      | None => hunt.lookup k m
      end.
Proof.
  induction rs as [|r rest IH]; intros t m; [reflexivity|].
  cbn [hunt.aggregate]. rewrite IH, lookup_putItems.
  change (allItems (r :: rest)) with (types.Items r ++ allItems rest)%list.
  rewrite rev_app_distr, find_append.
  now destruct (find _ (rev (allItems rest))).
Qed.

Lemma put_keys (k : string) (v : types.DriveItem) (m : hunt.itemMap) :
  (In k (map fst m) -> map fst (hunt.put k v m) = map fst m)
  /\ (~ In k (map fst m)
      -> map fst (hunt.put k v m) = (map fst m ++ [k])%list).
Proof.
  induction m as [|[k0 v0] rest [IH1 IH2]]; [split; [intros []|reflexivity]|].
  cbn [hunt.put map fst]. destruct (String.eqb_spec k0 k) as [->|N].
  - split; [reflexivity|]. intros H. exfalso. apply H. now left.
  - cbn [map fst]. split.
    + intros [E|H]; [congruence|]. now rewrite IH1.
    + intros H. rewrite IH2; [reflexivity|]. intros H'. apply H. now right.
Qed.

(** The keys of the map after [putItems], in the order they came in. *)
Lemma putItems_keys (items : list types.DriveItem) :
  forall (m : hunt.itemMap) (seen : seenMap),
    (forall k, seen k = true <-> In k (map fst m)) ->
    map fst (hunt.putItems items m)
    = (map fst m ++ map types.ID (fst (deduplicateItems items seen)))%list
    /\ (forall k, snd (deduplicateItems items seen) k = true
          <-> In k (map fst (hunt.putItems items m))).
Proof.
  induction items as [|item rest IH]; intros m seen H.
  - simpl. rewrite app_nil_r. split; [reflexivity|exact H].
  - cbn [hunt.putItems]. rewrite deduplicateItems_cons.
    destruct (put_keys (types.ID item) item m) as [P1 P2].
    destruct (seen (types.ID item)) eqn:S.
    + apply H in S. specialize (P1 S).
      destruct (IH (hunt.put (types.ID item) item m) seen) as [E1 E2].
      { intros k. now rewrite P1. }
      rewrite E1, P1. split; [reflexivity|].
      intros k. rewrite (E2 k), E1, P1. reflexivity.
    + assert (Hn : ~ In (types.ID item) (map fst m)).
      { intros Hin. apply H in Hin. congruence. }
      specialize (P2 Hn).
      destruct (IH (hunt.put (types.ID item) item m)
                  (mark (types.ID item) seen)) as [E1 E2].
      { intros k. rewrite P2, mark_spec, orb_true_iff, in_app_iff, H.
        cbn [In]. rewrite String.eqb_eq. intuition congruence. }
      cbn [fst snd map]. rewrite E1, P2, <- app_assoc.
      split; [reflexivity|].
      intros k. rewrite (E2 k), E1, P2, <- app_assoc. reflexivity.
Qed.

Lemma aggregate_keys (rs : list types.SearchResult) :
  forall (t : Z) (m : hunt.itemMap) (seen : seenMap),
    (forall k, seen k = true <-> In k (map fst m)) ->
    map fst (snd (hunt.aggregate rs t m))
    = (map fst m ++ map types.ID (fst (deduplicateItems (allItems rs) seen)))%list.
Proof.
  induction rs as [|r rest IH]; intros t m seen H.
  - simpl. now rewrite app_nil_r.
  - cbn [hunt.aggregate].
    destruct (putItems_keys (types.Items r) m seen H) as [E1 E2].
    rewrite (IH _ _ (snd (deduplicateItems (types.Items r) seen)) E2), E1.
    change (allItems (r :: rest)) with (types.Items r ++ allItems rest)%list.
    destruct (deduplicateItems_app (types.Items r) (allItems rest) seen)
      as [D1 _].
    now rewrite D1, map_app, app_assoc.
Qed.

(** The keys of the map of [aggregateSearchResults] are the IDs of the
    items the downloader collects. *)
Lemma aggregateSearchResults_keys (rs : list types.SearchResult) :
  map fst (snd (hunt.aggregateSearchResults rs))
  = map types.ID (download.collectUniqueItems rs).
Proof.
  unfold hunt.aggregateSearchResults.
  rewrite (aggregate_keys rs 0 [] (fun _ => false)), collectUniqueItems_dedup;
    [reflexivity|].
  intros k. split; [discriminate|intros []].
Qed.

(** X26. [aggregateSearchResults] returns the sum of the hits of the
    results, wrapped to 64 bits, and a map in which every ID of an item
    is a key once; a key gives the last item that carries it; and the map
    has as many entries as the downloader collects items. *)
Theorem aggregateSearchResults_totals (rs : list types.SearchResult) :
  fst (hunt.aggregateSearchResults rs)
  = time.int64 (fold_right Z.add 0 (map types.TotalHits rs))
  /\ NoDup (map fst (snd (hunt.aggregateSearchResults rs)))
  /\ (forall k, In k (map fst (snd (hunt.aggregateSearchResults rs)))
        <-> In k (map types.ID (allItems rs)))
  /\ (forall k, hunt.lookup k (snd (hunt.aggregateSearchResults rs))
                = find (fun x => (types.ID x =? k)%string)
                    (rev (allItems rs)))
  /\ length (snd (hunt.aggregateSearchResults rs))
     = length (download.collectUniqueItems rs).
Proof.
  pose proof (aggregateSearchResults_keys rs) as K.
  pose proof (collectUniqueItems_dedup rs) as C.
  destruct (deduplicateItems_spec (allItems rs) (fun _ => false))
    as (H1 & _ & H3 & _ & H5).
  refine (conj _ (conj _ (conj _ (conj _ _)))).
  - unfold hunt.aggregateSearchResults.
    change 0 with (time.int64 0) at 1. now rewrite aggregate_total.
  - rewrite K, C. exact H3.
  - intros k. rewrite K, C. split.
    + intros Hk. apply in_map_iff in Hk. destruct Hk as (x & <- & Hx).
      apply in_map. exact (Subseq_In _ _ _ H1 Hx).
    + intros Hk. apply in_map_iff in Hk. destruct Hk as (x & <- & Hx).
      now apply H5.
  - intros k. unfold hunt.aggregateSearchResults. rewrite lookup_aggregate.
    now destruct (find _ (rev (allItems rs))).
  - rewrite <- (length_map fst), K. apply length_map.
Qed.

Lemma find_nodup (x : types.DriveItem) (items : list types.DriveItem) :
  NoDup (map types.ID items) -> In x items ->
  find (fun y => (types.ID y =? types.ID x)%string) items = Some x.
Proof.
  induction items as [|item rest IH]; intros Hn Hx; [destruct Hx|].
  inversion Hn as [|? ? Hi Hn']; subst. cbn [find].
  destruct Hx as [<- | Hx]; [now rewrite String.eqb_refl|].
  destruct (String.eqb_spec (types.ID item) (types.ID x)) as [E|_];
    [|now apply IH].
  exfalso. apply Hi. rewrite E. now apply in_map.
Qed.

(** X27. On the results of [SearchWithOptions], whatever the server
    answers, [collectUniqueItems] returns all the items of the results,
    none left out, and the map of [aggregateSearchResults] has one entry
    per item and gives each item back under its ID: the second
    deduplication finds nothing to drop. *)
Theorem hunt_counts_every_item
    (IsPathSeparator : ascii -> bool)
    (marshalSearch : string -> Z -> error + string)
    (unmarshalSearch : string -> error + searchResponse)
    (srv : ApiServer) (c : Client) (n : nat) (opts : types.SearchOptions) :
  download.collectUniqueItems
    (results (SearchWithOptions IsPathSeparator marshalSearch unmarshalSearch
                srv c n opts))
  = allItems (results (SearchWithOptions IsPathSeparator marshalSearch
                         unmarshalSearch srv c n opts))
  /\ length (snd (hunt.aggregateSearchResults
                    (results (SearchWithOptions IsPathSeparator marshalSearch
                                unmarshalSearch srv c n opts))))
     = length (allItems (results (SearchWithOptions IsPathSeparator
                                    marshalSearch unmarshalSearch srv c n opts)))
  /\ (forall x,
        In x (allItems (results (SearchWithOptions IsPathSeparator
                                   marshalSearch unmarshalSearch srv c n opts)))
        -> hunt.lookup (types.ID x)
             (snd (hunt.aggregateSearchResults
                     (results (SearchWithOptions IsPathSeparator marshalSearch
                                 unmarshalSearch srv c n opts))))
           = Some x).
Proof.
  destruct (SearchWithOptions_spec IsPathSeparator marshalSearch
              unmarshalSearch srv c n opts) as (Hn & _).
  set (rs := results _) in *.
  assert (C : download.collectUniqueItems rs = allItems rs).
  { rewrite collectUniqueItems_dedup. now apply deduplicateItems_nodup. }
  refine (conj C (conj _ _)).
  - rewrite <- (length_map fst), aggregateSearchResults_keys, C.
    apply length_map.
  - intros x Hx. unfold hunt.aggregateSearchResults.
    rewrite lookup_aggregate, find_nodup; [reflexivity| |now apply in_rev in Hx].
    rewrite map_rev. now apply NoDup_rev.
Qed.

(** *** The extension of a hit *)

Lemma Contains_dot (y : ascii) (s : string) :
  strings.Contains (String y s) "."
  = Ascii.eqb y "." || strings.Contains s ".".
Proof.
  change (strings.Contains (String y s) ".")
    with (if String.prefix "." (String y s) then true
          else strings.Contains s ".").
  cbn [String.prefix]. destruct (ascii_dec "." y) as [<-|N].
  - now destruct s.
  - destruct (Ascii.eqb_spec y "."); [congruence|reflexivity].
Qed.

Section Extension.

Variable IsPathSeparator : ascii -> bool.

Let Ext := filepath.Ext IsPathSeparator.
Let hasSeparator := filepath.hasSeparator IsPathSeparator.

Lemma Ext_cons (c : ascii) (r : string) :
  Ext (String c r)
  = match Ext r with
    | String _ _ as e => e
    | EmptyString =>
        if hasSeparator r then EmptyString
        else if IsPathSeparator c then EmptyString
        else if Ascii.eqb c "." then String c r
        else EmptyString
    end.
Proof. reflexivity. Qed.

Lemma hasSeparator_cons (c : ascii) (r : string) :
  hasSeparator (String c r) = IsPathSeparator c || hasSeparator r.
Proof. reflexivity. Qed.

(** Nothing after the last separator has a dot, where [Ext] is empty. *)
Lemma Ext_none (r : string) :
  hasSeparator r = false -> Ext r = EmptyString ->
  strings.Contains r "." = false.
Proof.
  induction r as [|c r IH]; intros Hs He; [reflexivity|].
  rewrite hasSeparator_cons in Hs. apply orb_false_iff in Hs.
  destruct Hs as [Hc Hs]. rewrite Ext_cons, Hs, Hc in He.
  destruct (Ext r) eqn:E; [|discriminate He].
  rewrite Contains_dot, (IH Hs eq_refl).
  now destruct (Ascii.eqb c ".").
Qed.

Lemma Ext_nodot (s : string) :
  strings.Contains s "." = false -> Ext s = EmptyString.
Proof.
  induction s as [|c r IH]; intros H; [reflexivity|].
  rewrite Contains_dot in H. apply orb_false_iff in H. destruct H as [Hc Hr].
  rewrite Ext_cons, (IH Hr), Hc.
  now destruct (hasSeparator r), (IsPathSeparator c).
Qed.

Lemma Ext_spec (path : string) :
  Ext path = EmptyString
  \/ exists pre ext,
       path = (pre ++ "." ++ ext)%string
       /\ Ext path = ("." ++ ext)%string
       /\ strings.Contains ext "." = false
       /\ hasSeparator ext = false.
Proof.
  induction path as [|c r IH]; [now left|].
  rewrite Ext_cons. destruct (Ext r) as [|d e] eqn:E.
  - destruct (hasSeparator r) eqn:Hs; [now left|].
    destruct (IsPathSeparator c); [now left|].
    destruct (Ascii.eqb_spec c ".") as [->|]; [|now left].
    right. exists EmptyString, r.
    refine (conj eq_refl (conj eq_refl (conj _ Hs))).
    now apply Ext_none.
  - destruct IH as [IH|(pre & ext & -> & He & Hd & Hs)]; [discriminate IH|].
    right. exists (String c pre), ext.
    refine (conj eq_refl (conj He (conj Hd Hs))).
Qed.

Lemma Ext_app (ext : string) :
  strings.Contains ext "." = false -> hasSeparator ext = false ->
  IsPathSeparator "." = false ->
  forall base, Ext (base ++ "." ++ ext) = ("." ++ ext)%string.
Proof.
  intros Hd Hs Hp base. induction base as [|b base IH].
  - cbn [append]. now rewrite Ext_cons, (Ext_nodot ext Hd), Hs, Hp.
  - change (String b base ++ "." ++ ext)%string
      with (String b (base ++ "." ++ ext)).
    now rewrite Ext_cons, IH.
Qed.

Lemma TrimPrefix_dot (ext : string) :
  strings.TrimPrefix ("." ++ ext) "." = ext.
Proof. reflexivity. Qed.

(** X28. The extension [hitToDriveItem] gives an item has no dot and no
    path separator, and with a dot before it ends the name of the hit,
    unless the last element of the name has no dot: then it is empty. *)
Theorem hitToDriveItem_extension_shape (hit : searchHit) (query : string) :
  strings.Contains
    (types.Extension (hitToDriveItem IsPathSeparator hit query)) "." = false
  /\ filepath.hasSeparator IsPathSeparator
       (types.Extension (hitToDriveItem IsPathSeparator hit query)) = false
  /\ ((filepath.Ext IsPathSeparator (hitName hit) = EmptyString
       /\ types.Extension (hitToDriveItem IsPathSeparator hit query)
          = EmptyString)
      \/ exists pre,
           hitName hit
           = (pre ++ "."
              ++ types.Extension (hitToDriveItem IsPathSeparator hit query))%string).
Proof.
  cbn [hitToDriveItem types.Extension]. fold Ext hasSeparator.
  destruct (Ext_spec (hitName hit)) as [E|(pre & ext & Hn & E & Hd & Hs)];
    rewrite E.
  - refine (conj eq_refl (conj eq_refl _)). left. now split.
  - rewrite TrimPrefix_dot. refine (conj Hd (conj Hs _)).
    right. now exists pre.
Qed.

(** X29. Where the name of a hit ends in a dot and an extension that has
    no dot and no path separator, and the dot separates no paths, the
    item is given that extension, whatever comes before it. *)
Theorem hitToDriveItem_extension
    (hit : searchHit) (query base ext : string)
    (Hname : hitName hit = (base ++ "." ++ ext)%string)
    (Hdot : strings.Contains ext "." = false)
    (Hsep : filepath.hasSeparator IsPathSeparator ext = false)
    (Hpath : IsPathSeparator "." = false) :
  types.Extension (hitToDriveItem IsPathSeparator hit query) = ext
  /\ filepath.Ext IsPathSeparator (hitName hit) = ("." ++ ext)%string.
Proof.
  cbn [hitToDriveItem types.Extension]. fold Ext. rewrite Hname.
  rewrite (Ext_app ext Hdot Hsep Hpath base). now rewrite TrimPrefix_dot.
Qed.

End Extension.

Lemma hitToDriveItem_extension_witness :
  types.Extension (hitToDriveItem sampleGraph.slash sampleGraph.hit "password")
  = "xlsx"
  /\ filepath.Ext sampleGraph.slash (hitName sampleGraph.hit) = ".xlsx".
Proof.
  apply (hitToDriveItem_extension sampleGraph.slash sampleGraph.hit "password"
           "passwords.final" "xlsx"); reflexivity.
Defined.

End HuntProps.
